(** * Catmull-Clark subdivision tables: compute kernels

    A shallow embedding of
    [opensubdiv/far/catmarkSubdivisionTables.h] (the four table-driven
    compute kernels of [FarCatmarkSubdivisionTables]) and of the constructor
    of [OsdGLSLTransformFeedbackComputeContext]
    ([opensubdiv/osd/glslTransformFeedbackComputeContext.cpp]), with its
    edit tables and the functions that bind and unbind its textures.

    Conventions of the embedding.
    - A C++ [int] is a [Z].  Index expressions ([4*i+3], [h+j*2+1], ...) are
      evaluated in [Z]: the tables are [std::vector]s with fewer than [2^31]
      entries, so an index expression that leaves the [int] range is also out
      of bounds, and both are undefined behaviour.  [int] arithmetic whose
      result is not used as an index ([start+tableOffset], [n*n]) is checked
      against the [int] range explicitly.
    - Undefined behaviour (out-of-bounds access, signed overflow) is [None].
    - [float] arithmetic is abstract (class [FloatOps]); the kernels are
      generic in it, as they are generic in the vertex class [U].  Numeric
      consequences are derived for the exact instance over [Q].
    - A function that calls the OpenGL API threads the state of the GL
      ([GLState], in the monad [GL]); dereferencing a null pointer is
      [None]. *)

From Stdlib Require Import ZArith QArith Lia Lqa.
From stdpp Require Import base option list.

Local Open Scope Z_scope.

(** ** C++ primitives *)

Module Cpp.

Definition INT_MIN : Z := - 2 ^ 31.
Definition INT_MAX : Z := 2 ^ 31 - 1.

(** The value of an [int] expression: undefined outside the [int] range. *)
Definition int (z : Z) : option Z :=
  if decide (INT_MIN <= z <= INT_MAX) then Some z else None.

(** [v[i]] as an rvalue: undefined outside the vector. *)
Definition elt {A : Type} (v : list A) (i : Z) : option A :=
  if decide (0 <= i) then v !! Z.to_nat i else None.

(** [v[i] = x], at an index [i] of the vector (the kernels write only
    through [update], after the record has been read). *)
Definition store {A : Type} (i : Z) (x : A) (v : list A) : list A :=
  <[Z.to_nat i := x]> v.

(** [v[i].f()] for a mutating member function [f]. *)
Definition update {A : Type} (i : Z) (f : A -> A) (v : list A) : option (list A) :=
  x ← elt v i; Some (store i (f x) v).

(** [for (int i = lo; i < hi; ++i) body], threading the state [s]. *)
Fixpoint iterate {S : Type} (count : nat) (i : Z)
    (body : Z -> S -> option S) (s : S) : option S :=
  match count with
  | O => Some s
  | Datatypes.S c => s' ← body i s; iterate c (i + 1) body s'
  end.

Definition for_loop {S : Type} (lo hi : Z)
    (body : Z -> S -> option S) (s : S) : option S :=
  iterate (Z.to_nat (hi - lo)) lo body s.

End Cpp.

Import Cpp.

(** ** Floating point and vertex interfaces *)

(** The [float] operations the kernels use.  [float_lit] is the value of a
    literal such as [0.75f], [float_of_int] the implicit [int -> float]
    conversion, [flt] the comparison [<]. *)
Class FloatOps (F : Type) := {
  float_lit : Q -> F;
  float_of_int : Z -> F;
  fsub : F -> F -> F;
  fmul : F -> F -> F;
  fdiv : F -> F -> F;
  flt : F -> F -> bool
}.

(** Modelled from the spec: the vertex class [U] is a template parameter of
    the kernels; the capability contract of a Vertex Record is [Clear],
    [AddWithWeight] and [AddVaryingWithWeight].  The first argument is the
    receiver ([*this]), the result is the receiver after the call. *)
Class VertexOps (F U : Type) := {
  Clear : U -> U;
  AddWithWeight : U -> U -> F -> U;
  AddVaryingWithWeight : U -> U -> F -> U
}.

(** Modelled from the spec: the seven tables are members of the base class
    [FarSubdivisionTables], declared in [far/subdivisionTables.h]. *)
Record FarSubdivisionTables (F : Type) := {
  _F_ITa : list Z;
  _F_IT : list Z;
  _E_IT : list Z;
  _E_W : list F;
  _V_ITa : list Z;
  _V_IT : list Z;
  _V_W : list F
}.
Arguments _F_ITa {F} _.
Arguments _F_IT {F} _.
Arguments _E_IT {F} _.
Arguments _E_W {F} _.
Arguments _V_ITa {F} _.
Arguments _V_IT {F} _.
Arguments _V_W {F} _.

(** ** The kernels of FarCatmarkSubdivisionTables *)

Section Kernels.

Context {F U : Type} `{FloatOps F} `{VertexOps F U}.
Variable this : FarSubdivisionTables F.

(** [vsrc[vdst].AddWithWeight(vsrc[src], weight)] *)
Definition addWithWeight (vdst src : Z) (weight : F) (vsrc : list U) : option (list U) :=
  s ← elt vsrc src; update vdst (fun d => AddWithWeight d s weight) vsrc.

(** [vsrc[vdst].AddVaryingWithWeight(vsrc[src], weight)] *)
Definition addVaryingWithWeight (vdst src : Z) (weight : F) (vsrc : list U) : option (list U) :=
  s ← elt vsrc src; update vdst (fun d => AddVaryingWithWeight d s weight) vsrc.

(** The loop header shared by the four kernels:
    [U * vdst = vsrc + offset + start;
     for (int i=start+tableOffset; i<end+tableOffset; ++i, ++vdst) body]. *)
Definition kernel_loop (body : Z -> Z -> list U -> option (list U))
    (offset tableOffset start end_ : Z) (vsrc : list U) : option (list U) :=
  lo ← int (start + tableOffset);
  hi ← int (end_ + tableOffset);
  snd <$> for_loop lo hi
    (fun i '(vdst, vsrc) => vsrc ← body i vdst vsrc; Some (vdst + 1, vsrc))
    (offset + start, vsrc).

(** Body of the loop of [computeFacePoints]. *)
Definition facePoint (i vdst : Z) (vsrc : list U) : option (list U) :=
  vsrc ← update vdst Clear vsrc;
  h ← elt (_F_ITa this) (2 * i);
  n ← elt (_F_ITa this) (2 * i + 1);
  let weight := fdiv (float_lit 1) (float_of_int n) in
  for_loop 0 n (fun j vsrc =>
    v ← elt (_F_IT this) (h + j);
    vsrc ← addWithWeight vdst v weight vsrc;
    addVaryingWithWeight vdst v weight vsrc) vsrc.

Definition computeFacePoints := kernel_loop facePoint.

(** Body of the loop of [computeEdgePoints]. *)
Definition edgePoint (i vdst : Z) (vsrc : list U) : option (list U) :=
  vsrc ← update vdst Clear vsrc;
  eidx0 ← elt (_E_IT this) (4 * i + 0);
  eidx1 ← elt (_E_IT this) (4 * i + 1);
  eidx2 ← elt (_E_IT this) (4 * i + 2);
  eidx3 ← elt (_E_IT this) (4 * i + 3);
  vertWeight ← elt (_E_W this) (i * 2 + 0);
  vsrc ← addWithWeight vdst eidx0 vertWeight vsrc;
  vsrc ← addWithWeight vdst eidx1 vertWeight vsrc;
  vsrc ← (if negb (eidx2 =? -1) then
            faceWeight ← elt (_E_W this) (i * 2 + 1);
            vsrc ← addWithWeight vdst eidx2 faceWeight vsrc;
            addWithWeight vdst eidx3 faceWeight vsrc
          else Some vsrc);
  vsrc ← addVaryingWithWeight vdst eidx0 (float_lit 0.5) vsrc;
  addVaryingWithWeight vdst eidx1 (float_lit 0.5) vsrc.

Definition computeEdgePoints := kernel_loop edgePoint.

(** The accumulation weight of kernel A:
    [float weight = pass ? _V_W[i] : 1.0f - _V_W[i];
     if (weight>0.0f and weight<1.0f and n>0) weight=1.0f-weight;]
    with [s = _V_W[i]]. *)
Definition weightA (pass : bool) (s : F) (n : Z) : F :=
  let weight := if pass then s else fsub (float_lit 1) s in
  if flt (float_lit 0) weight && flt weight (float_lit 1) && (0 <? n)
  then fsub (float_lit 1) weight
  else weight.

(** Body of the loop of [computeVertexPointsA]. *)
Definition vertexPointA (pass : bool) (i vdst : Z) (vsrc : list U) : option (list U) :=
  vsrc ← (if negb pass then update vdst Clear vsrc else Some vsrc);
  n ← elt (_V_ITa this) (5 * i + 1);
  p ← elt (_V_ITa this) (5 * i + 2);
  eidx0 ← elt (_V_ITa this) (5 * i + 3);
  eidx1 ← elt (_V_ITa this) (5 * i + 4);
  s ← elt (_V_W this) i;
  let weight := weightA pass s n in
  vsrc ← (if (eidx0 =? -1) || (negb pass && (n =? -1)) then
            addWithWeight vdst p weight vsrc
          else
            vsrc ← addWithWeight vdst p (fmul weight (float_lit 0.75)) vsrc;
            vsrc ← addWithWeight vdst eidx0 (fmul weight (float_lit 0.125)) vsrc;
            addWithWeight vdst eidx1 (fmul weight (float_lit 0.125)) vsrc);
  addVaryingWithWeight vdst p (float_lit 1) vsrc.

Definition computeVertexPointsA (offset : Z) (pass : bool) :=
  kernel_loop (vertexPointA pass) offset.

(** Body of the loop of [computeVertexPointsB]. *)
Definition vertexPointB (i vdst : Z) (vsrc : list U) : option (list U) :=
  vsrc ← update vdst Clear vsrc;
  h ← elt (_V_ITa this) (5 * i);
  n ← elt (_V_ITa this) (5 * i + 1);
  p ← elt (_V_ITa this) (5 * i + 2);
  weight ← elt (_V_W this) i;
  nn ← int (n * n);
  let wp := fdiv (float_lit 1) (float_of_int nn) in
  let wv := fmul (fmul (fsub (float_of_int n) (float_lit 2)) (float_of_int n)) wp in
  vsrc ← addWithWeight vdst p (fmul weight wv) vsrc;
  vsrc ← for_loop 0 n (fun j vsrc =>
    v0 ← elt (_V_IT this) (h + j * 2);
    vsrc ← addWithWeight vdst v0 (fmul weight wp) vsrc;
    v1 ← elt (_V_IT this) (h + j * 2 + 1);
    addWithWeight vdst v1 (fmul weight wp) vsrc) vsrc;
  addVaryingWithWeight vdst p (float_lit 1) vsrc.

Definition computeVertexPointsB := kernel_loop vertexPointB.

End Kernels.

(** ** The transform-feedback compute context *)

(** Modelled from the spec: [FarSubdivisionTables::Scheme] and
    [FarSubdivisionTables::TableType] are declared in
    [far/subdivisionTables.h]; the numeric values of the table types are a
    parameter of the development ([table_index] below). *)
Inductive Scheme := UNDEFINED | BILINEAR | CATMARK | LOOP.

Inductive TableType := E_IT | E_W | V_ITa | V_IT | V_W | F_IT | F_ITa.

Inductive GLenum := GL_R32I | GL_R32UI | GL_R32F.

(** The virtual interface of [FarSubdivisionTables], and access to the
    tables of the base class. *)
Class FarSubdivisionTablesClass (T F : Type) := {
  GetNumTables : T -> Z;
  GetScheme : T -> Scheme;
  base : T -> FarSubdivisionTables F
}.

(** [class FarCatmarkSubdivisionTables : public FarSubdivisionTables] *)
Record FarCatmarkSubdivisionTables (F : Type) := {
  catmark_base : FarSubdivisionTables F
}.
Arguments catmark_base {F} _.

#[export] Instance FarCatmarkSubdivisionTables_class {F : Type} :
    FarSubdivisionTablesClass (FarCatmarkSubdivisionTables F) F := {|
  GetNumTables _ := 7;
  GetScheme _ := CATMARK;
  base := catmark_base
|}.

(** A scheme without face tables (the [// loop] branch of the context). *)
Record FiveTables (F : Type) := { five_base : FarSubdivisionTables F }.
Arguments five_base {F} _.

#[export] Instance FiveTables_class {F : Type} :
    FarSubdivisionTablesClass (FiveTables F) F := {|
  GetNumTables _ := 5;
  GetScheme _ := LOOP;
  base := five_base
|}.

(** Modelled from the spec: [OsdGLSLTransformFeedbackTable] is declared in
    [osd/glslTransformFeedbackComputeContext.h]; an object records the table
    it was built from and its texel type.  The OpenGL objects it creates are
    not modelled. *)
Inductive TableData (F : Type) :=
| IntData (data : list Z)
| FloatData (data : list F).
Arguments IntData {F} _.
Arguments FloatData {F} _.

Record OsdGLSLTransformFeedbackTable (F : Type) := {
  table_data : TableData F;
  table_type : GLenum
}.
Arguments table_data {F} _.
Arguments table_type {F} _.

Record OsdGLSLTransformFeedbackComputeContext (F B : Type) := {
  _tables : list (option (OsdGLSLTransformFeedbackTable F));
  _editTables : list B;
  _vertexTexture : Z;
  _varyingTexture : Z
}.
Arguments _tables {F B} _.
Arguments _editTables {F B} _.
Arguments _vertexTexture {F B} _.
Arguments _varyingTexture {F B} _.

(** [v[i] = x] on a [std::vector]: undefined outside the vector. *)
Definition assign {A : Type} (i : nat) (x : A) (v : list A) : option (list A) :=
  if decide (i < length v)%nat then Some (<[i := x]> v) else None.

Section ComputeContext.

Context {T F B : Type} `{FarSubdivisionTablesClass T F}.

(** The value of each [FarSubdivisionTables::TableType] enumerator. *)
Variable table_index : TableType -> nat.

(** The constructor of [OsdGLSLTransformFeedbackComputeContext]; a pointer
    is [Some] object or [None] for [NULL].  An edit table is represented by
    the batch it is built from. *)
Definition new_OsdGLSLTransformFeedbackComputeContext
    (subdivisionTables : T) (vertexEditTables : option (list B)) :
    option (OsdGLSLTransformFeedbackComputeContext F B) :=
  let st := base subdivisionTables in
  let tables := replicate 7 None in
  tables ← assign (table_index E_IT)
    (Some {| table_data := IntData (_E_IT st); table_type := GL_R32I |}) tables;
  tables ← assign (table_index V_IT)
    (Some {| table_data := IntData (_V_IT st); table_type := GL_R32UI |}) tables;
  tables ← assign (table_index V_ITa)
    (Some {| table_data := IntData (_V_ITa st); table_type := GL_R32I |}) tables;
  tables ← assign (table_index E_W)
    (Some {| table_data := FloatData (_E_W st); table_type := GL_R32F |}) tables;
  tables ← assign (table_index V_W)
    (Some {| table_data := FloatData (_V_W st); table_type := GL_R32F |}) tables;
  tables ← (if 5 <? GetNumTables subdivisionTables then
              tables ← assign (table_index F_IT)
                (Some {| table_data := IntData (_F_IT st); table_type := GL_R32UI |}) tables;
              assign (table_index F_ITa)
                (Some {| table_data := IntData (_F_ITa st); table_type := GL_R32I |}) tables
            else
              tables ← assign (table_index F_IT) None tables;
              assign (table_index F_ITa) None tables);
  let editTables := match vertexEditTables with
                    | Some batches => batches
                    | None => []
                    end in
  Some {| _tables := tables; _editTables := editTables;
          _vertexTexture := 0; _varyingTexture := 0 |}.

(** [GetTable(tableIndex)]: the pointer stored in the slot. *)
Definition GetTable (ctx : OsdGLSLTransformFeedbackComputeContext F B)
    (t : TableType) : option (option (OsdGLSLTransformFeedbackTable F)) :=
  _tables ctx !! table_index t.

End ComputeContext.

(** ** Hierarchical-edit tables *)

(** Modelled from the spec: [FarVertexEditTables::VertexEditBatch] is
    declared in [far/vertexEditTables.h]; a batch is what its five accessors
    return. *)
Module FarVertexEditTables.
Record VertexEditBatch (F : Type) := {
  GetVertexIndices : list Z;
  GetValues : list F;
  GetOperation : Z;
  GetPrimvarIndex : Z;
  GetPrimvarWidth : Z
}.
Arguments GetVertexIndices {F} _.
Arguments GetValues {F} _.
Arguments GetOperation {F} _.
Arguments GetPrimvarIndex {F} _.
Arguments GetPrimvarWidth {F} _.
End FarVertexEditTables.

Record OsdGLSLTransformFeedbackHEditTable (F : Type) := {
  _primvarIndicesTable : OsdGLSLTransformFeedbackTable F;
  _editValuesTable : OsdGLSLTransformFeedbackTable F;
  _operation : Z;
  _primvarOffset : Z;
  _primvarWidth : Z
}.
Arguments _primvarIndicesTable {F} _.
Arguments _editValuesTable {F} _.
Arguments _operation {F} _.
Arguments _primvarOffset {F} _.
Arguments _primvarWidth {F} _.

(** [static_cast<int>] of a [size_t], as two's complement. *)
Definition static_cast_int (n : Z) : Z := (n + 2 ^ 31) mod 2 ^ 32 - 2 ^ 31.

Section HEditTable.

Context {T F : Type} `{FarSubdivisionTablesClass T F}.

Variable table_index : TableType -> nat.

(** The constructor of [OsdGLSLTransformFeedbackHEditTable]. *)
Definition new_OsdGLSLTransformFeedbackHEditTable
    (batch : FarVertexEditTables.VertexEditBatch F) :
    OsdGLSLTransformFeedbackHEditTable F :=
  {| _primvarIndicesTable :=
       {| table_data := IntData (FarVertexEditTables.GetVertexIndices batch);
          table_type := GL_R32UI |};
     _editValuesTable :=
       {| table_data := FloatData (FarVertexEditTables.GetValues batch);
          table_type := GL_R32F |};
     _operation := FarVertexEditTables.GetOperation batch;
     _primvarOffset := FarVertexEditTables.GetPrimvarIndex batch;
     _primvarWidth := FarVertexEditTables.GetPrimvarWidth batch |}.

Definition GetPrimvarIndices (this : OsdGLSLTransformFeedbackHEditTable F) :=
  _primvarIndicesTable this.
Definition GetEditValues (this : OsdGLSLTransformFeedbackHEditTable F) :=
  _editValuesTable this.
Definition GetOperation (this : OsdGLSLTransformFeedbackHEditTable F) : Z :=
  _operation this.
Definition GetPrimvarOffset (this : OsdGLSLTransformFeedbackHEditTable F) : Z :=
  _primvarOffset this.
Definition GetPrimvarWidth (this : OsdGLSLTransformFeedbackHEditTable F) : Z :=
  _primvarWidth this.

(** [Create]: the constructor, whose loop over the batches builds one edit
    table from each batch, in order. *)
Definition Create (subdivisionTables : T)
    (vertexEditTables : option (list (FarVertexEditTables.VertexEditBatch F))) :
    option (OsdGLSLTransformFeedbackComputeContext F
              (OsdGLSLTransformFeedbackHEditTable F)) :=
  new_OsdGLSLTransformFeedbackComputeContext table_index subdivisionTables
    (fmap (M := option) (fmap (M := list) new_OsdGLSLTransformFeedbackHEditTable)
       vertexEditTables).

End HEditTable.

Definition GetNumEditTables {F B : Type}
    (this : OsdGLSLTransformFeedbackComputeContext F B) : Z :=
  static_cast_int (Z.of_nat (length (_editTables this))).

(** [_editTables[tableIndex]]: undefined outside the vector. *)
Definition GetEditTable {F B : Type}
    (this : OsdGLSLTransformFeedbackComputeContext F B) (tableIndex : Z) : option B :=
  elt (_editTables this) tableIndex.

(** ** The OpenGL state *)

(** Modelled from the OpenGL specification: the part of the state of the GL
    that the context reads and writes when it binds and unbinds its
    textures.  Texture units are counted from [GL_TEXTURE0]; an object is
    its name, [0] for none; the only texture target is
    [GL_TEXTURE_BUFFER]. *)
Record GLState := {
  active_texture : Z;
  texture_binding : Z -> Z;
  texture_buffer : Z -> Z;
  texture_names : list Z;
  uniform : Z -> Z -> Z;
  image_binding : Z -> Z;
  rasterizer_discard : bool;
  current_program : Z
}.

Definition upd {A : Type} (f : Z -> A) (k : Z) (x : A) : Z -> A :=
  fun j => if j =? k then x else f j.

(** A function that calls the GL: it returns a value and the next state of
    the GL, or nothing where the C++ is undefined. *)
Definition GL (A : Type) : Type := GLState -> option (A * GLState).

Definition gl_ret {A : Type} (a : A) : GL A := fun gl => Some (a, gl).

Definition gl_bind {A B : Type} (m : GL A) (k : A -> GL B) : GL B :=
  fun gl => match m gl with
            | Some (a, gl') => k a gl'
            | None => None
            end.

(** [*p] and [p->]: undefined for [NULL]. *)
Definition deref {A : Type} (p : option A) : GL A :=
  fun gl => match p with
            | Some a => Some (a, gl)
            | None => None
            end.

(** A function that calls the GL and is defined in every state. *)
Definition succeeds {A : Type} (m : GL A) : Prop :=
  forall gl, exists a gl', m gl = Some (a, gl').

Declare Scope gl_scope.
Delimit Scope gl_scope with gl.
Notation "x <- m ;; k" := (gl_bind m (fun x => k))
  (at level 100, m at next level, right associativity) : gl_scope.
Notation "m ;; k" := (gl_bind m (fun _ => k))
  (at level 100, right associativity) : gl_scope.

Definition glActiveTexture (texture : Z) : GL unit := fun gl =>
  Some (tt, {| active_texture := texture;
               texture_binding := texture_binding gl;
               texture_buffer := texture_buffer gl;
               texture_names := texture_names gl;
               uniform := uniform gl;
               image_binding := image_binding gl;
               rasterizer_discard := rasterizer_discard gl;
               current_program := current_program gl |}).

(** [glBindTexture(GL_TEXTURE_BUFFER, texture)] binds in the active unit. *)
Definition glBindTexture (texture : Z) : GL unit := fun gl =>
  Some (tt, {| active_texture := active_texture gl;
               texture_binding := upd (texture_binding gl) (active_texture gl) texture;
               texture_buffer := texture_buffer gl;
               texture_names := texture_names gl;
               uniform := uniform gl;
               image_binding := image_binding gl;
               rasterizer_discard := rasterizer_discard gl;
               current_program := current_program gl |}).

(** [glTextureBufferEXT(texture, GL_TEXTURE_BUFFER, _, buffer)] attaches the
    buffer to the texture. *)
Definition glTextureBufferEXT (texture buffer : Z) : GL unit := fun gl =>
  Some (tt, {| active_texture := active_texture gl;
               texture_binding := texture_binding gl;
               texture_buffer := upd (texture_buffer gl) texture buffer;
               texture_names := texture_names gl;
               uniform := uniform gl;
               image_binding := image_binding gl;
               rasterizer_discard := rasterizer_discard gl;
               current_program := current_program gl |}).

(** [glTexBuffer(GL_TEXTURE_BUFFER, _, buffer)] attaches the buffer to the
    texture bound in the active unit. *)
Definition glTexBuffer (buffer : Z) : GL unit := fun gl =>
  glTextureBufferEXT (texture_binding gl (active_texture gl)) buffer gl.

(** [glUniform1i(location, v0)] sets a uniform of the program in use;
    location [-1] is ignored. *)
Definition glUniform1i (location v0 : Z) : GL unit := fun gl =>
  if location =? -1 then Some (tt, gl) else
  Some (tt, {| active_texture := active_texture gl;
               texture_binding := texture_binding gl;
               texture_buffer := texture_buffer gl;
               texture_names := texture_names gl;
               uniform := upd (uniform gl) (current_program gl)
                            (upd (uniform gl (current_program gl)) location v0);
               image_binding := image_binding gl;
               rasterizer_discard := rasterizer_discard gl;
               current_program := current_program gl |}).

(** [glBindImageTexture(unit, texture, 0, GL_FALSE, 0, GL_WRITE_ONLY, GL_R32F)] *)
Definition glBindImageTexture (unit_ texture : Z) : GL unit := fun gl =>
  Some (tt, {| active_texture := active_texture gl;
               texture_binding := texture_binding gl;
               texture_buffer := texture_buffer gl;
               texture_names := texture_names gl;
               uniform := uniform gl;
               image_binding := upd (image_binding gl) unit_ texture;
               rasterizer_discard := rasterizer_discard gl;
               current_program := current_program gl |}).

(** [glEnable(GL_RASTERIZER_DISCARD)] and [glDisable(GL_RASTERIZER_DISCARD)] *)
Definition glRasterizerDiscard (enabled : bool) : GL unit := fun gl =>
  Some (tt, {| active_texture := active_texture gl;
               texture_binding := texture_binding gl;
               texture_buffer := texture_buffer gl;
               texture_names := texture_names gl;
               uniform := uniform gl;
               image_binding := image_binding gl;
               rasterizer_discard := enabled;
               current_program := current_program gl |}).

Definition glUseProgram (program : Z) : GL unit := fun gl =>
  Some (tt, {| active_texture := active_texture gl;
               texture_binding := texture_binding gl;
               texture_buffer := texture_buffer gl;
               texture_names := texture_names gl;
               uniform := uniform gl;
               image_binding := image_binding gl;
               rasterizer_discard := rasterizer_discard gl;
               current_program := program |}).

(** [glGenTextures(1, &texture)]: the GL chooses a name, from the names in
    use, and the name is then in use. *)
Definition glGenTextures (choose : list Z -> Z) : GL Z := fun gl =>
  let texture := choose (texture_names gl) in
  Some (texture, {| active_texture := active_texture gl;
                    texture_binding := texture_binding gl;
                    texture_buffer := texture_buffer gl;
                    texture_names := texture :: texture_names gl;
                    uniform := uniform gl;
                    image_binding := image_binding gl;
                    rasterizer_discard := rasterizer_discard gl;
                    current_program := current_program gl |}).

(** ** Binding the textures of the context *)

(** Modelled from the spec: [OsdGLSLTransformFeedbackKernelBundle] is
    declared in [osd/glslTransformFeedbackKernelBundle.h]; a bundle is its
    program, which [UseProgram] makes current, and the uniform locations
    that its accessors return. *)
Record OsdGLSLTransformFeedbackKernelBundle := {
  _program : Z;
  GetTableUniformLocation : TableType -> Z;
  GetVertexUniformLocation : Z;
  GetVaryingUniformLocation : Z;
  GetEditIndicesUniformLocation : Z;
  GetEditValuesUniformLocation : Z;
  GetVertexBufferImageUniformLocation : Z
}.

(** The context with the members that its constructor leaves unset. *)
Record ContextObject (F B : Type) := {
  members : OsdGLSLTransformFeedbackComputeContext F B;
  _currentVertexBuffer : Z;
  _currentVaryingBuffer : Z;
  _kernelBundle : option OsdGLSLTransformFeedbackKernelBundle
}.
Arguments members {F B} _.
Arguments _currentVertexBuffer {F B} _.
Arguments _currentVaryingBuffer {F B} _.
Arguments _kernelBundle {F B} _.

(** [for (int i = hi; i >= lo; --i) body(i)], as [count] iterations from [i]
    downwards. *)
Fixpoint iterate_down (count : nat) (i : Z) (body : Z -> GL unit) : GL unit :=
  match count with
  | O => gl_ret tt
  | S count' => (body i ;; iterate_down count' (i - 1) body)%gl
  end.

Section Bind.

Local Open Scope gl_scope.

Context {F : Type}.

Variable table_index : TableType -> nat.

(** [OsdGLSLTransformFeedbackTable::GetTexture]: the name of the texture that
    the constructor of the table created. *)
Variable GetTexture : OsdGLSLTransformFeedbackTable F -> Z.

(** The name that [glGenTextures] chooses. *)
Variable choose : list Z -> Z.

(** Whether [GL_EXT_direct_state_access] is compiled in and
    [glTextureBufferEXT] is loaded. *)
Variable direct_state_access : bool.

Definition bindTexture (samplerUniform texture unit_ : Z) : GL unit :=
  if samplerUniform =? -1 then gl_ret tt else
  glUniform1i samplerUniform unit_ ;;
  glActiveTexture unit_ ;;
  glBindTexture texture ;;
  glActiveTexture 0.

Definition unbindTexture (unit_ : Z) : GL unit :=
  glActiveTexture unit_ ;;
  glBindTexture 0.

(** The block that [bind] runs for the vertex buffer and again for the
    varying buffer; it returns the texture of the buffer. *)
Definition bindBuffer (currentBuffer texture : Z) : GL Z :=
  if currentBuffer =? 0 then gl_ret texture else
  texture <- (if texture =? 0 then glGenTextures choose else gl_ret texture) ;;
  (if direct_state_access then glTextureBufferEXT texture currentBuffer
   else glBindTexture texture ;;
        glTexBuffer currentBuffer ;;
        glBindTexture 0) ;;
  gl_ret texture.

(** [_tables[t]->], for a table that [bind] dereferences. *)
Definition table {B : Type} (this : ContextObject F B) (t : TableType) :
    GL (OsdGLSLTransformFeedbackTable F) :=
  p <- deref (_tables (members this) !! table_index t) ;;
  deref p.

(** [bind]; it returns the object with its two textures. *)
Definition bind {B : Type} (this : ContextObject F B) : GL (ContextObject F B) :=
  glRasterizerDiscard true ;;
  kernelBundle <- deref (_kernelBundle this) ;;
  glUseProgram (_program kernelBundle) ;;
  vertexTexture <- bindBuffer (_currentVertexBuffer this)
                     (_vertexTexture (members this)) ;;
  varyingTexture <- bindBuffer (_currentVaryingBuffer this)
                      (_varyingTexture (members this)) ;;
  (if vertexTexture =? 0 then gl_ret tt
   else bindTexture (GetVertexUniformLocation kernelBundle) vertexTexture 0) ;;
  (if varyingTexture =? 0 then gl_ret tt
   else bindTexture (GetVaryingUniformLocation kernelBundle) varyingTexture 1) ;;
  f_it <- deref (_tables (members this) !! table_index F_IT) ;;
  match f_it with
  | Some f_it =>
      bindTexture (GetTableUniformLocation kernelBundle F_IT) (GetTexture f_it) 2 ;;
      f_ita <- table this F_ITa ;;
      bindTexture (GetTableUniformLocation kernelBundle F_ITa) (GetTexture f_ita) 3
  | None => gl_ret tt
  end ;;
  e_it <- table this E_IT ;;
  bindTexture (GetTableUniformLocation kernelBundle E_IT) (GetTexture e_it) 4 ;;
  v_it <- table this V_IT ;;
  bindTexture (GetTableUniformLocation kernelBundle V_IT) (GetTexture v_it) 5 ;;
  v_ita <- table this V_ITa ;;
  bindTexture (GetTableUniformLocation kernelBundle V_ITa) (GetTexture v_ita) 6 ;;
  e_w <- table this E_W ;;
  bindTexture (GetTableUniformLocation kernelBundle E_W) (GetTexture e_w) 7 ;;
  v_w <- table this V_W ;;
  bindTexture (GetTableUniformLocation kernelBundle V_W) (GetTexture v_w) 8 ;;
  glUniform1i (GetVertexBufferImageUniformLocation kernelBundle) 0 ;;
  glBindImageTexture 0 vertexTexture ;;
  gl_ret {| members := {| _tables := _tables (members this);
                          _editTables := _editTables (members this);
                          _vertexTexture := vertexTexture;
                          _varyingTexture := varyingTexture |};
            _currentVertexBuffer := _currentVertexBuffer this;
            _currentVaryingBuffer := _currentVaryingBuffer this;
            _kernelBundle := _kernelBundle this |}.

Definition unbind : GL unit :=
  iterate_down (Z.to_nat (8 - 0 + 1)) 8 unbindTexture ;;
  glBindImageTexture 0 0 ;;
  glRasterizerDiscard false ;;
  glUseProgram 0 ;;
  glActiveTexture 0.

Definition BindEditTextures
    (this : ContextObject F (OsdGLSLTransformFeedbackHEditTable F))
    (editIndex : Z) : GL unit :=
  edit <- deref (elt (_editTables (members this)) editIndex) ;;
  let primvarIndices := GetPrimvarIndices edit in
  let editValues := GetEditValues edit in
  kernelBundle <- deref (_kernelBundle this) ;;
  bindTexture (GetEditIndicesUniformLocation kernelBundle)
    (GetTexture primvarIndices) 9 ;;
  bindTexture (GetEditValuesUniformLocation kernelBundle)
    (GetTexture editValues) 10.

Definition UnbindEditTextures : GL unit :=
  unbindTexture 9 ;;
  unbindTexture 10.

(** The texture unit that [bind] gives to each table. *)
Definition texture_unit (t : TableType) : Z :=
  match t with
  | F_IT => 2 | F_ITa => 3 | E_IT => 4 | V_IT => 5 | V_ITa => 6 | E_W => 7 | V_W => 8
  end.

End Bind.

(** * Vocabulary of the specification *)

(** ** Exact arithmetic and a numeric vertex *)

#[export] Instance QFloat : FloatOps Q := {|
  float_lit q := q;
  float_of_int := inject_Z;
  fsub := Qminus;
  fmul := Qmult;
  fdiv := Qdiv;
  flt a b := if Qlt_le_dec a b then true else false
|}.

(** Modelled from the spec: a Vertex Record (an argument for the template
    parameter [U]) with a one-component primary attribute and a
    one-component varying attribute; [Clear] resets both to zero, the two
    other operations accumulate [weight * source] into one of them. *)
Record QVertex := { pos : Q; vary : Q }.

#[export] Instance QVertexOps : VertexOps Q QVertex := {|
  Clear _ := {| pos := 0; vary := 0 |};
  AddWithWeight d s w := {| pos := pos d + w * pos s; vary := vary d |};
  AddVaryingWithWeight d s w := {| pos := pos d; vary := vary d + w * vary s |}
|}.

Definition sum_pos (vs : list QVertex) : Q := fold_right (fun v a => pos v + a)%Q 0%Q vs.
Definition sum_vary (vs : list QVertex) : Q := fold_right (fun v a => vary v + a)%Q 0%Q vs.

(** ** Buffers and ranges *)

(** [frame lo hi v v']: [v'] is [v] except at the indices in [[lo, hi)]. *)
Definition frame {A : Type} (lo hi : Z) (v v' : list A) : Prop :=
  length v' = length v /\ forall j, ~ (lo <= j < hi) -> elt v' j = elt v j.

(** The parameters of a kernel call are in range: the loop bounds are
    [int]s and the destination range lies in the buffer. *)
Definition range_ok {U : Type} (offset tableOffset start end_ : Z) (vsrc : list U) : Prop :=
  INT_MIN <= start + tableOffset <= INT_MAX /\
  INT_MIN <= end_ + tableOffset <= INT_MAX /\
  (start < end_ -> 0 <= offset + start /\ offset + end_ <= Z.of_nat (length vsrc)).

(** A source index is usable by a kernel whose destination range is
    [[dlo, dhi)] when it lies in the buffer and outside that range (a kernel
    never reads from the range it is writing). *)
Definition src_ok (len dlo dhi e : Z) : Prop :=
  0 <= e < len /\ ~ (dlo <= e < dhi).

Section Gather.

Context {U : Type}.

(** The records [vsrc[table[h]]], ..., [vsrc[table[h+count-1]]]. *)
Definition gather (table : list Z) (vsrc : list U) (h count : Z) : option (list U) :=
  mapM (fun t => v ← elt table (h + t); elt vsrc v) (seqZ 0 count).

(** The [count] entries of [table] from [h] on exist and are usable sources. *)
Definition entries_ok (table : list Z) (len dlo dhi h count : Z) : Prop :=
  forall t, 0 <= t < count ->
    exists v, elt table (h + t) = Some v /\ src_ok len dlo dhi v.

End Gather.

(** ** The rules of the four kernels *)

Section Rules.

Context {F U : Type} `{FloatOps F} `{VertexOps F U}.

(** The edge rule in the words of the specification: clear the destination,
    add the endpoints with weight [wVertex], add the two opposite vertices
    with weight [wFace] when there are any, and give the varying attribute
    the midpoint of the endpoints. *)
Definition edgeRule (d0 v0 v1 : U) (wVertex : F) (opposite : option (U * U * F)) : U :=
  let r := AddWithWeight (AddWithWeight (Clear d0) v0 wVertex) v1 wVertex in
  let r := match opposite with
           | Some (v2, v3, wFace) => AddWithWeight (AddWithWeight r v2 wFace) v3 wFace
           | None => r
           end in
  AddVaryingWithWeight (AddVaryingWithWeight r v0 (float_lit 0.5)) v1 (float_lit 0.5).

(** The rules of kernel A in the words of the specification.  The first pass
    clears the destination, the second pass accumulates into it.  The corner
    rule ([crease = None]) adds the parent with the full weight; the crease
    rule adds the parent with [0.75 * weight] and the two crease-edge
    vertices with [0.125 * weight] each.  The varying attribute receives the
    parent with weight [1.0]. *)
Definition creaseCornerRule (pass : bool) (d0 vp : U) (crease : option (U * U))
    (weight : F) : U :=
  let r := if pass then d0 else Clear d0 in
  let r := match crease with
           | None => AddWithWeight r vp weight
           | Some (v0, v1) =>
               AddWithWeight (AddWithWeight
                 (AddWithWeight r vp (fmul weight (float_lit 0.75)))
                 v0 (fmul weight (float_lit 0.125)))
                 v1 (fmul weight (float_lit 0.125))
           end in
  AddVaryingWithWeight r vp (float_lit 1).

(** The corner rule is selected: [eidx0==-1 or (pass==false and (n==-1))]. *)
Definition corner (pass : bool) (n eidx0 : Z) : Prop :=
  eidx0 = -1 \/ (pass = false /\ n = -1).

(** The face rule in the words of the specification: clear the destination,
    then add every source vertex to the primary and to the varying attribute
    with the same weight. *)
Definition faceRule (d0 : U) (vs : list U) (weight : F) : U :=
  fold_left (fun acc v => AddVaryingWithWeight (AddWithWeight acc v weight) v weight)
    vs (Clear d0).

(** The smooth rule in the words of the specification: clear the
    destination, add the parent with weight [wParent], add every neighbor
    contribution with weight [wNeighbor], and give the varying attribute the
    parent with weight [1.0]. *)
Definition smoothRule (d0 vp : U) (vs : list U) (wParent wNeighbor : F) : U :=
  AddVaryingWithWeight
    (fold_left (fun acc v => AddWithWeight acc v wNeighbor) vs
       (AddWithWeight (Clear d0) vp wParent))
    vp (float_lit 1).

(** [wp = 1.0f/(n*n)] and [wv = (n-2.0f)*n*wp]. *)
Definition wpB (n : Z) : F := fdiv (float_lit 1) (float_of_int (n * n)).
Definition wvB (n : Z) : F :=
  fmul (fmul (fsub (float_of_int n) (float_lit 2)) (float_of_int n)) (wpB n).

End Rules.

(** The accumulation weight of kernel A as the specification words it: the
    inversion applies when the weight is fractional and the valence is
    defined, that is, different from the sentinel [-1]. *)
Definition weightA_spec {F : Type} `{FloatOps F} (pass : bool) (s : F) (n : Z) : F :=
  let weight := if pass then s else fsub (float_lit 1) s in
  if flt (float_lit 0) weight && flt weight (float_lit 1) && negb (n =? -1)
  then fsub (float_lit 1) weight
  else weight.

(** ** One iteration of each kernel, and its well-formed table entries *)

Section Iterations.

Context {F U : Type} `{FloatOps F} `{VertexOps F U}.
Variable this : FarSubdivisionTables F.

(** The record an edge-point iteration leaves at the destination [d0]. *)
Definition edgePoint_acc (i : Z) (vsrc : list U) (d0 : U) : option U :=
  eidx0 ← elt (_E_IT this) (4 * i + 0);
  eidx1 ← elt (_E_IT this) (4 * i + 1);
  eidx2 ← elt (_E_IT this) (4 * i + 2);
  eidx3 ← elt (_E_IT this) (4 * i + 3);
  vertWeight ← elt (_E_W this) (i * 2 + 0);
  v0 ← elt vsrc eidx0;
  v1 ← elt vsrc eidx1;
  let r := AddWithWeight (AddWithWeight (Clear d0) v0 vertWeight) v1 vertWeight in
  r ← (if negb (eidx2 =? -1) then
         faceWeight ← elt (_E_W this) (i * 2 + 1);
         v2 ← elt vsrc eidx2;
         v3 ← elt vsrc eidx3;
         Some (AddWithWeight (AddWithWeight r v2 faceWeight) v3 faceWeight)
       else Some r);
  Some (AddVaryingWithWeight (AddVaryingWithWeight r v0 (float_lit 0.5)) v1 (float_lit 0.5)).

(** Edge-point [i] is well formed: its four index entries and its vertex
    weight exist, the endpoints are usable sources and, unless [e2 = -1], so
    are the two opposite vertices, and the face weight exists. *)
Definition edge_wf (len dlo dhi i : Z) : Prop :=
  exists e0 e1 e2 e3,
    elt (_E_IT this) (4 * i + 0) = Some e0 /\
    elt (_E_IT this) (4 * i + 1) = Some e1 /\
    elt (_E_IT this) (4 * i + 2) = Some e2 /\
    elt (_E_IT this) (4 * i + 3) = Some e3 /\
    is_Some (elt (_E_W this) (i * 2 + 0)) /\
    src_ok len dlo dhi e0 /\ src_ok len dlo dhi e1 /\
    (e2 <> -1 ->
       is_Some (elt (_E_W this) (i * 2 + 1)) /\
       src_ok len dlo dhi e2 /\ src_ok len dlo dhi e3).

(** No source of edge-point [i] is the destination record [d]. *)
Definition edge_noalias (i d : Z) : Prop :=
  forall e0 e1 e2 e3,
    elt (_E_IT this) (4 * i + 0) = Some e0 ->
    elt (_E_IT this) (4 * i + 1) = Some e1 ->
    elt (_E_IT this) (4 * i + 2) = Some e2 ->
    elt (_E_IT this) (4 * i + 3) = Some e3 ->
    e0 <> d /\ e1 <> d /\ (e2 <> -1 -> e2 <> d /\ e3 <> d).

(** The record an iteration of kernel A leaves at the destination [d0]. *)
Definition vertexPointA_acc (pass : bool) (i : Z) (vsrc : list U) (d0 : U) : option U :=
  n ← elt (_V_ITa this) (5 * i + 1);
  p ← elt (_V_ITa this) (5 * i + 2);
  eidx0 ← elt (_V_ITa this) (5 * i + 3);
  eidx1 ← elt (_V_ITa this) (5 * i + 4);
  s ← elt (_V_W this) i;
  vp ← elt vsrc p;
  let weight := weightA pass s n in
  let r := if negb pass then Clear d0 else d0 in
  r ← (if (eidx0 =? -1) || (negb pass && (n =? -1)) then
         Some (AddWithWeight r vp weight)
       else
         v0 ← elt vsrc eidx0;
         v1 ← elt vsrc eidx1;
         Some (AddWithWeight (AddWithWeight
                 (AddWithWeight r vp (fmul weight (float_lit 0.75)))
                 v0 (fmul weight (float_lit 0.125)))
                 v1 (fmul weight (float_lit 0.125))));
  Some (AddVaryingWithWeight r vp (float_lit 1)).

(** Vertex-point [i] is well formed for kernel A: the valence, the parent
    index, the two crease-edge indices and the weight exist, the parent is a
    usable source and, when the crease rule is selected, so are the two
    crease-edge vertices. *)
Definition vertexA_wf (pass : bool) (len dlo dhi i : Z) : Prop :=
  exists n p e0 e1,
    elt (_V_ITa this) (5 * i + 1) = Some n /\
    elt (_V_ITa this) (5 * i + 2) = Some p /\
    elt (_V_ITa this) (5 * i + 3) = Some e0 /\
    elt (_V_ITa this) (5 * i + 4) = Some e1 /\
    is_Some (elt (_V_W this) i) /\
    src_ok len dlo dhi p /\
    (~ corner pass n e0 -> src_ok len dlo dhi e0 /\ src_ok len dlo dhi e1).

(** No source of vertex-point [i] is the destination record [d]. *)
Definition vertexA_noalias (pass : bool) (i d : Z) : Prop :=
  forall n p e0 e1,
    elt (_V_ITa this) (5 * i + 1) = Some n ->
    elt (_V_ITa this) (5 * i + 2) = Some p ->
    elt (_V_ITa this) (5 * i + 3) = Some e0 ->
    elt (_V_ITa this) (5 * i + 4) = Some e1 ->
    p <> d /\ (~ corner pass n e0 -> e0 <> d /\ e1 <> d).

(** The record a face-point iteration leaves at the destination [d0]. *)
Definition facePoint_acc (i : Z) (vsrc : list U) (d0 : U) : option U :=
  h ← elt (_F_ITa this) (2 * i);
  n ← elt (_F_ITa this) (2 * i + 1);
  vs ← gather (_F_IT this) vsrc h n;
  Some (faceRule d0 vs (fdiv (float_lit 1) (float_of_int n))).

(** Face-point [i] is well formed: its offset and valence exist, and the
    [valence] entries of the index table from the offset on are usable
    sources. *)
Definition face_wf (len dlo dhi i : Z) : Prop :=
  exists h n,
    elt (_F_ITa this) (2 * i) = Some h /\
    elt (_F_ITa this) (2 * i + 1) = Some n /\
    entries_ok (_F_IT this) len dlo dhi h n.

(** No source of face-point [i] is the destination record [d]. *)
Definition face_noalias (i d : Z) : Prop :=
  forall h n,
    elt (_F_ITa this) (2 * i) = Some h ->
    elt (_F_ITa this) (2 * i + 1) = Some n ->
    forall j v, 0 <= j < n -> elt (_F_IT this) (h + j) = Some v -> v <> d.

(** The record an iteration of kernel B leaves at the destination [d0]. *)
Definition vertexPointB_acc (i : Z) (vsrc : list U) (d0 : U) : option U :=
  h ← elt (_V_ITa this) (5 * i);
  n ← elt (_V_ITa this) (5 * i + 1);
  p ← elt (_V_ITa this) (5 * i + 2);
  weight ← elt (_V_W this) i;
  nn ← int (n * n);
  vp ← elt vsrc p;
  vs ← gather (_V_IT this) vsrc h (2 * n);
  Some (smoothRule d0 vp vs (fmul weight (wvB n)) (fmul weight (wpB n))).

(** Vertex-point [i] is well formed for kernel B: the neighbor offset, the
    valence, the parent index and the weight exist, [n*n] is an [int], the
    parent is a usable source, and so are the [2*n] entries of the neighbor
    table from the offset on. *)
Definition vertexB_wf (len dlo dhi i : Z) : Prop :=
  exists h n p,
    elt (_V_ITa this) (5 * i) = Some h /\
    elt (_V_ITa this) (5 * i + 1) = Some n /\
    elt (_V_ITa this) (5 * i + 2) = Some p /\
    is_Some (elt (_V_W this) i) /\
    INT_MIN <= n * n <= INT_MAX /\
    src_ok len dlo dhi p /\
    entries_ok (_V_IT this) len dlo dhi h (2 * n).

(** No source of vertex-point [i] is the destination record [d]. *)
Definition vertexB_noalias (i d : Z) : Prop :=
  forall h n p,
    elt (_V_ITa this) (5 * i) = Some h ->
    elt (_V_ITa this) (5 * i + 1) = Some n ->
    elt (_V_ITa this) (5 * i + 2) = Some p ->
    p <> d /\
    forall t v, 0 <= t < 2 * n -> elt (_V_IT this) (h + t) = Some v -> v <> d.

End Iterations.

(** The precondition of kernel B as the claim words it: the table entry has
    a valence [n >= 1] and a valid neighbor offset (the parent and the [2*n]
    neighbor entries from the offset on are usable sources). *)
Definition vertexB_valid {F : Type} (this : FarSubdivisionTables F)
    (len dlo dhi i : Z) : Prop :=
  exists h n p,
    elt (_V_ITa this) (5 * i) = Some h /\
    elt (_V_ITa this) (5 * i + 1) = Some n /\
    elt (_V_ITa this) (5 * i + 2) = Some p /\
    is_Some (elt (_V_W this) i) /\
    1 <= n /\
    src_ok len dlo dhi p /\
    entries_ok (_V_IT this) len dlo dhi h (2 * n).

(** ** Kernel invocations *)

(** The four kernels. *)
Inductive Kernel :=
| FacePoints
| EdgePoints
| VertexPointsA (pass : bool)
| VertexPointsB.

(** What a kernel invocation can reach: the tables of the receiver and the
    vertex buffer [vsrc]. *)
Record Memory (F U : Type) := {
  tables : FarSubdivisionTables F;
  vertices : list U
}.
Arguments tables {F U} _.
Arguments vertices {F U} _.

Section Invoke.

Context {F U : Type} `{FloatOps F} `{VertexOps F U}.

Definition kernel_body (this : FarSubdivisionTables F) (K : Kernel) :
    Z -> Z -> list U -> option (list U) :=
  match K with
  | FacePoints => facePoint this
  | EdgePoints => edgePoint this
  | VertexPointsA pass => vertexPointA this pass
  | VertexPointsB => vertexPointB this
  end.

(** An invocation of a kernel.  The kernels are [const] member functions:
    the receiver is read, the buffer is read and written. *)
Definition invoke (K : Kernel) (offset tableOffset start end_ : Z)
    (m : Memory F U) : option (Memory F U) :=
  let this := tables m in
  vsrc ← match K with
         | FacePoints => computeFacePoints this offset tableOffset start end_ (vertices m)
         | EdgePoints => computeEdgePoints this offset tableOffset start end_ (vertices m)
         | VertexPointsA pass =>
             computeVertexPointsA this offset pass tableOffset start end_ (vertices m)
         | VertexPointsB => computeVertexPointsB this offset tableOffset start end_ (vertices m)
         end;
  Some {| tables := this; vertices := vsrc |}.

End Invoke.

(** ** Example tables and buffers *)

(** A buffer of four source vertices and two destination records, and an
    edge table with one interior edge and one boundary edge. *)
Definition quad_buffer : list QVertex :=
  [ {| pos := 1; vary := 10 |}; {| pos := 2; vary := 20 |};
    {| pos := 3; vary := 30 |}; {| pos := 4; vary := 40 |};
    {| pos := 9; vary := 9 |}; {| pos := 9; vary := 9 |} ].

Definition quad_tables : FarSubdivisionTables Q := {|
  _F_ITa := [0; 4];
  _F_IT := [0; 1; 2; 3];
  _E_IT := [0; 1; 2; 3; 0; 1; -1; -1];
  _E_W := [0.25; 0.25; 0.5]%Q;
  _V_ITa := [0; 4; 0; -1; -1; 0; -1; 0; 1; 2];
  _V_IT := [1; 2; 3; 1; 2; 3; 1; 2];
  _V_W := [1; 0.25]%Q
|}.

(** A crease vertex of valence [0] (no smooth component), sharpness weight
    [0.25], parent at index [0], no crease edges. *)
Definition corner0_tables : FarSubdivisionTables Q := {|
  _F_ITa := []; _F_IT := []; _E_IT := []; _E_W := [];
  _V_ITa := [0; 0; 0; -1; -1];
  _V_IT := [];
  _V_W := [0.25]%Q
|}.

Definition corner0_buffer : list QVertex :=
  [ {| pos := 8; vary := 1 |}; {| pos := 0; vary := 0 |} ].

(** A vertex of valence [4] on a crease, blended between the smooth rule and
    the crease rule with sharpness weight [0.25]. *)
Definition blend_tables : FarSubdivisionTables Q := {|
  _F_ITa := []; _F_IT := []; _E_IT := []; _E_W := [];
  _V_ITa := [0; 4; 0; 1; 2];
  _V_IT := [1; 2; 3; 1; 2; 3; 1; 2];
  _V_W := [0.25]%Q
|}.

(** The same vertex with its crease-edge entries set to [-1]. *)
Definition blend_tables_smooth : FarSubdivisionTables Q := {|
  _F_ITa := []; _F_IT := []; _E_IT := []; _E_W := [];
  _V_ITa := [0; 4; 0; -1; -1];
  _V_IT := [1; 2; 3; 1; 2; 3; 1; 2];
  _V_W := [0.25]%Q
|}.

(** A vertex of valence [46341] whose neighbors are all vertex [0]. *)
Definition fan_tables : FarSubdivisionTables Q := {|
  _F_ITa := []; _F_IT := []; _E_IT := []; _E_W := [];
  _V_ITa := [0; 46341; 0; -1; -1];
  _V_IT := replicate (Z.to_nat 92682) 0;
  _V_W := [1]%Q
|}.

(** An edge table whose only edge-point is a boundary edge stored with three
    index entries. *)
Definition short_edge_tables : FarSubdivisionTables Q := {|
  _F_ITa := []; _F_IT := [];
  _E_IT := [0; 1; -1];
  _E_W := [0.5]%Q;
  _V_ITa := []; _V_IT := []; _V_W := []
|}.

(** The table types as OpenSubdiv numbers them. *)
Definition far_table_index (t : TableType) : nat :=
  match t with
  | E_IT => 0 | E_W => 1 | V_ITa => 2 | V_IT => 3 | V_W => 4 | F_IT => 5 | F_ITa => 6
  end.

(** ** The four kernels, uniformly *)

Section KernelDispatch.

Context {F U : Type} `{FloatOps F} `{VertexOps F U}.
Variable this : FarSubdivisionTables F.

(** Well-formed table entry [i] of the table a kernel reads. *)
Definition kernel_wf (K : Kernel) (len dlo dhi i : Z) : Prop :=
  match K with
  | FacePoints => face_wf this len dlo dhi i
  | EdgePoints => edge_wf this len dlo dhi i
  | VertexPointsA pass => vertexA_wf this pass len dlo dhi i
  | VertexPointsB => vertexB_wf this len dlo dhi i
  end.

(** The record an iteration of a kernel leaves at the destination. *)
Definition kernel_acc (K : Kernel) : Z -> list U -> U -> option U :=
  match K with
  | FacePoints => facePoint_acc this
  | EdgePoints => edgePoint_acc this
  | VertexPointsA pass => vertexPointA_acc this pass
  | VertexPointsB => vertexPointB_acc this
  end.

(** The kernel starts every iteration with [vdst->Clear()]: all of them but
    the second pass of kernel A. *)
Definition clears (K : Kernel) : bool :=
  match K with
  | VertexPointsA true => false
  | _ => true
  end.

End KernelDispatch.

(** A buffer of four source vertices whose primary attribute is [5], and one
    destination record. *)
Definition flat_buffer : list QVertex :=
  [ {| pos := 5; vary := 10 |}; {| pos := 5; vary := 20 |};
    {| pos := 5; vary := 30 |}; {| pos := 5; vary := 40 |};
    {| pos := 9; vary := 9 |} ].

(** A state of the GL, a kernel bundle, textures for the tables, and a
    context with one edit table. *)
Definition gl_initial : GLState := {|
  active_texture := 0;
  texture_binding := fun _ => 0;
  texture_buffer := fun _ => 0;
  texture_names := [];
  uniform := fun _ _ => 0;
  image_binding := fun _ => 0;
  rasterizer_discard := false;
  current_program := 0
|}.

Definition example_bundle : OsdGLSLTransformFeedbackKernelBundle := {|
  _program := 3;
  GetTableUniformLocation := fun t => Z.of_nat (far_table_index t) + 2;
  GetVertexUniformLocation := 0;
  GetVaryingUniformLocation := 1;
  GetEditIndicesUniformLocation := 9;
  GetEditValuesUniformLocation := 10;
  GetVertexBufferImageUniformLocation := 11
|}.

Definition example_texture (tbl : OsdGLSLTransformFeedbackTable Q) : Z :=
  match table_type tbl with
  | GL_R32I => 21
  | GL_R32UI => 22
  | GL_R32F => 23
  end.

Definition example_batch : FarVertexEditTables.VertexEditBatch Q := {|
  FarVertexEditTables.GetVertexIndices := [4];
  FarVertexEditTables.GetValues := [1 # 2]%Q;
  FarVertexEditTables.GetOperation := 1;
  FarVertexEditTables.GetPrimvarIndex := 0;
  FarVertexEditTables.GetPrimvarWidth := 3
|}.

Definition example_context :
    OsdGLSLTransformFeedbackComputeContext Q (OsdGLSLTransformFeedbackHEditTable Q) :=
  default {| _tables := []; _editTables := []; _vertexTexture := 0; _varyingTexture := 0 |}
    (Create far_table_index {| catmark_base := quad_tables |} (Some [example_batch])).

Definition example_object :
    ContextObject Q (OsdGLSLTransformFeedbackHEditTable Q) := {|
  members := example_context;
  _currentVertexBuffer := 31;
  _currentVaryingBuffer := 32;
  _kernelBundle := Some example_bundle
|}.

(** * Proofs *)

(** ** Vectors: reading and writing by index *)

Section Vectors.

Context {A : Type}.
Implicit Types (v : list A) (i j : Z) (x : A).

Lemma int_Some z r : int z = Some r <-> r = z /\ INT_MIN <= z <= INT_MAX.
Proof.
  unfold int. destruct (decide _); split; intros Hz.
  - inversion Hz; subst; auto.
  - destruct Hz as [-> _]; reflexivity.
  - discriminate.
  - tauto.
Qed.

Lemma elt_Some v i x : elt v i = Some x -> 0 <= i < Z.of_nat (length v).
Proof.
  unfold elt. destruct (decide _) as [Hi|]; [|discriminate].
  intros Hx. apply lookup_lt_Some in Hx. lia.
Qed.

Lemma elt_is_Some v i : 0 <= i < Z.of_nat (length v) -> exists x, elt v i = Some x.
Proof.
  intros Hi. unfold elt. destruct (decide _) as [|Hn]; [|lia].
  destruct (lookup_lt_is_Some_2 v (Z.to_nat i)) as [x Hx]; [lia|]. eauto.
Qed.

Lemma elt_None v i : ~ (0 <= i < Z.of_nat (length v)) -> elt v i = None.
Proof.
  intros Hi. destruct (elt v i) eqn:E; [|reflexivity].
  apply elt_Some in E. tauto.
Qed.

Lemma length_store v i x : length (store i x v) = length v.
Proof. apply length_insert. Qed.

Lemma elt_store_eq v i x :
  0 <= i < Z.of_nat (length v) -> elt (store i x v) i = Some x.
Proof.
  intros Hi. unfold elt, store. destruct (decide _); [|lia].
  apply list_lookup_insert_eq. lia.
Qed.

Lemma elt_store_ne v i j x : 0 <= i -> j <> i -> elt (store i x v) j = elt v j.
Proof.
  intros Hi Hne. unfold elt, store. destruct (decide _); [|reflexivity].
  apply list_lookup_insert_ne. lia.
Qed.

Lemma store_store v i x y : store i x (store i y v) = store i x v.
Proof. unfold store. apply list_insert_insert_eq. Qed.

Lemma update_Some v i f v' :
  update i f v = Some v' <-> exists x, elt v i = Some x /\ v' = store i (f x) v.
Proof.
  unfold update. destruct (elt v i) as [x|]; simpl; split.
  - intros [= <-]. eauto.
  - intros (y & [= <-] & ->). reflexivity.
  - discriminate.
  - intros (y & Hy & _). discriminate.
Qed.

Lemma frame_refl lo hi v : frame lo hi v v.
Proof. split; auto. Qed.

Lemma frame_trans lo hi v1 v2 v3 :
  frame lo hi v1 v2 -> frame lo hi v2 v3 -> frame lo hi v1 v3.
Proof.
  intros [L1 E1] [L2 E2]. split; [congruence|].
  intros j Hj. rewrite E2, E1; auto.
Qed.

Lemma frame_weaken lo hi lo' hi' v v' :
  lo' <= lo -> hi <= hi' -> frame lo hi v v' -> frame lo' hi' v v'.
Proof. intros Hlo Hhi [L E]. split; [exact L|]. intros j Hj. apply E. lia. Qed.

Lemma frame_empty lo hi lo' hi' v v' :
  hi <= lo -> frame lo hi v v' -> frame lo' hi' v v'.
Proof. intros Hle [L E]. split; [exact L|]. intros j _. apply E. lia. Qed.

Lemma frame_store v i x : 0 <= i -> frame i (i + 1) v (store i x v).
Proof.
  intros Hi. split; [apply length_store|].
  intros j Hj. apply elt_store_ne; lia.
Qed.

Lemma update_frame v i f v' : update i f v = Some v' -> frame i (i + 1) v v'.
Proof.
  intros (x & Hx & ->)%update_Some. apply frame_store.
  apply elt_Some in Hx. lia.
Qed.

End Vectors.

(** ** Loops *)

Section Loops.

Context {S : Type}.
Implicit Types (body : Z -> S -> option S) (s : S).

Lemma for_loop_empty lo hi body s : hi <= lo -> for_loop lo hi body s = Some s.
Proof. intros Hle. unfold for_loop. replace (Z.to_nat (hi - lo)) with O by lia. reflexivity. Qed.

Lemma for_loop_step lo hi body s :
  lo < hi -> for_loop lo hi body s = s' ← body lo s; for_loop (lo + 1) hi body s'.
Proof.
  intros Hlt. unfold for_loop.
  replace (Z.to_nat (hi - lo)) with (Datatypes.S (Z.to_nat (hi - (lo + 1)))) by lia.
  reflexivity.
Qed.

(** A relation between states that every iteration establishes, and that is
    reflexive and transitive, holds across the loop. *)
Lemma iterate_preorder (R : S -> S -> Prop) body :
  (forall s, R s s) ->
  (forall s1 s2 s3, R s1 s2 -> R s2 s3 -> R s1 s3) ->
  (forall j s s', body j s = Some s' -> R s s') ->
  forall count i s s', iterate count i body s = Some s' -> R s s'.
Proof.
  intros Hrefl Htrans Hbody count.
  induction count as [|c IH]; intros i s s' Hrun; simpl in Hrun.
  - injection Hrun as <-. apply Hrefl.
  - apply bind_Some in Hrun as (s1 & Hs1 & Hrun).
    eapply Htrans; [eapply Hbody, Hs1 | eapply IH, Hrun].
Qed.

End Loops.

(** ** Frame of the kernels: only the destination record is written *)

Ltac inv_bind H :=
  cbv beta in H;
  repeat match type of H with
  | mbind _ _ = Some _ => apply bind_Some in H as (? & ? & H)
  | (_ ≫= _) = Some _ => apply bind_Some in H as (? & ? & H)
  end.

Create HintDb frames.

Section Frames.

Context {F U : Type} `{FloatOps F} `{VertexOps F U}.
Variable this : FarSubdivisionTables F.
Implicit Types (vsrc : list U) (i vdst : Z).

Lemma addWithWeight_frame vdst src w vsrc vsrc' :
  addWithWeight vdst src w vsrc = Some vsrc' -> frame vdst (vdst + 1) vsrc vsrc'.
Proof. unfold addWithWeight. intros Hrun. inv_bind Hrun. eapply update_frame, Hrun. Qed.

Lemma addVaryingWithWeight_frame vdst src w vsrc vsrc' :
  addVaryingWithWeight vdst src w vsrc = Some vsrc' -> frame vdst (vdst + 1) vsrc vsrc'.
Proof. unfold addVaryingWithWeight. intros Hrun. inv_bind Hrun. eapply update_frame, Hrun. Qed.

Lemma for_loop_frame vdst lo hi (body : Z -> list U -> option (list U)) vsrc vsrc' :
  for_loop lo hi body vsrc = Some vsrc' ->
  (forall j b b', body j b = Some b' -> frame vdst (vdst + 1) b b') ->
  frame vdst (vdst + 1) vsrc vsrc'.
Proof.
  intros Hrun Hbody. revert Hrun. unfold for_loop.
  apply (iterate_preorder (frame vdst (vdst + 1))); auto using frame_refl.
  intros s1 s2 s3. apply frame_trans.
Qed.

Hint Resolve update_frame addWithWeight_frame addVaryingWithWeight_frame : frames.

(** Chains the frames of the calls that lead from one buffer to the other. *)
Ltac frames :=
  match goal with
  | |- frame _ _ ?b ?b => apply frame_refl
  | |- frame _ _ ?b ?b' =>
      first [ solve [eauto with frames]
            | eapply frame_trans; [| solve [eauto with frames]]; frames ]
  end.

Lemma facePoint_frame i vdst vsrc vsrc' :
  facePoint this i vdst vsrc = Some vsrc' -> frame vdst (vdst + 1) vsrc vsrc'.
Proof.
  unfold facePoint. intros Hrun. inv_bind Hrun.
  eapply frame_trans; [eapply update_frame; eassumption|].
  eapply for_loop_frame; [exact Hrun|].
  intros j b b' Hb. inv_bind Hb. frames.
Qed.

Lemma edgePoint_frame i vdst vsrc vsrc' :
  edgePoint this i vdst vsrc = Some vsrc' -> frame vdst (vdst + 1) vsrc vsrc'.
Proof.
  unfold edgePoint. intros Hrun. inv_bind Hrun.
  match goal with
  | Hc : (if ?c then _ else _) = Some _ |- _ => destruct c; [inv_bind Hc|injection Hc as <-]
  end; frames.
Qed.

Lemma vertexPointA_frame pass i vdst vsrc vsrc' :
  vertexPointA this pass i vdst vsrc = Some vsrc' -> frame vdst (vdst + 1) vsrc vsrc'.
Proof.
  unfold vertexPointA. intros Hrun. inv_bind Hrun.
  repeat match goal with
  | Hc : (if ?c then _ else _) = Some _ |- _ => destruct c; [inv_bind Hc|try injection Hc as <-; inv_bind Hc]
  end; frames.
Qed.

Lemma vertexPointB_frame i vdst vsrc vsrc' :
  vertexPointB this i vdst vsrc = Some vsrc' -> frame vdst (vdst + 1) vsrc vsrc'.
Proof.
  unfold vertexPointB. intros Hrun. inv_bind Hrun.
  match goal with
  | Hl : for_loop _ _ _ ?b = Some ?b' |- _ =>
      assert (frame vdst (vdst + 1) b b')
        by (eapply for_loop_frame; [exact Hl|]; intros j c c' Hc; inv_bind Hc; frames)
  end.
  frames.
Qed.

End Frames.

(** ** The kernel loop: one iteration per destination record *)

Section KernelLoop.

Context {U : Type}.
Variable body : Z -> Z -> list U -> option (list U).
Hypothesis body_frame :
  forall i vdst b b', body i vdst b = Some b' -> frame vdst (vdst + 1) b b'.

Lemma iterate_kernel count : forall i d b d' b',
  iterate count i
    (fun i '(vdst, vsrc) => vsrc ← body i vdst vsrc; Some (vdst + 1, vsrc))
    (d, b) = Some (d', b') ->
  d' = d + Z.of_nat count /\
  frame d (d + Z.of_nat count) b b' /\
  forall k, 0 <= k < Z.of_nat count ->
    exists bk bk', frame d (d + k) b bk /\
      body (i + k) (d + k) bk = Some bk' /\
      elt b' (d + k) = elt bk' (d + k).
Proof.
  induction count as [|c IH]; intros i d b d' b' Hrun; simpl in Hrun.
  - injection Hrun as <- <-. split; [lia|]. split; [apply frame_refl|].
    intros k Hkr. simpl in Hkr. lia.
  - apply bind_Some in Hrun as ([d1 b1] & Hstep & Hrun).
    apply bind_Some in Hstep as (b1' & Hb1 & [= <- <-]).
    pose proof (body_frame _ _ _ _ Hb1) as Hf1.
    destruct (IH _ _ _ _ _ Hrun) as (-> & Hf & Hk).
    split; [lia|]. split.
    + eapply frame_trans; eapply frame_weaken; try eassumption; lia.
    + intros k Hkr. destruct (decide (k = 0)) as [->|Hne].
      * exists b, b1'. rewrite !Z.add_0_r. split; [apply frame_refl|].
        split; [exact Hb1|]. apply Hf. lia.
      * destruct (Hk (k - 1)) as (bk & bk' & Hfk & Hbk & Hek); [lia|].
        replace (i + 1 + (k - 1)) with (i + k) in Hbk by lia.
        replace (d + 1 + (k - 1)) with (d + k) in * by lia.
        exists bk, bk'. split; [|split; assumption].
        eapply frame_trans; eapply frame_weaken; try eassumption; lia.
Qed.

(** Every run of a kernel writes the destination range only, and the record
    at [offset+start+k] is the one iteration [k] leaves there, computed from a
    buffer that differs from the initial one only at the records written by
    the iterations before it. *)
Lemma kernel_loop_spec offset tableOffset start end_ vsrc vsrc' :
  kernel_loop body offset tableOffset start end_ vsrc = Some vsrc' ->
  frame (offset + start) (offset + end_) vsrc vsrc' /\
  forall k, 0 <= k < end_ - start ->
    exists bk bk',
      frame (offset + start) (offset + start + k) vsrc bk /\
      body (start + tableOffset + k) (offset + start + k) bk = Some bk' /\
      elt vsrc' (offset + start + k) = elt bk' (offset + start + k).
Proof.
  unfold kernel_loop, for_loop. intros Hrun. inv_bind Hrun.
  repeat match goal with
  | Hi : int _ = Some _ |- _ => apply int_Some in Hi as [-> _]
  end.
  apply fmap_Some in Hrun as ([d' b'] & Hrun & ->). simpl.
  apply iterate_kernel in Hrun as (_ & Hf & Hk).
  split.
  - destruct (decide (start <= end_)).
    + eapply frame_weaken; [| |exact Hf]; lia.
    + eapply frame_empty; [|exact Hf]. lia.
  - intros k Hkr. apply Hk. lia.
Qed.

Lemma iterate_kernel_total count : forall i d b,
  (forall k bk, 0 <= k < Z.of_nat count -> frame d (d + k) b bk ->
     is_Some (body (i + k) (d + k) bk)) ->
  is_Some (iterate count i
    (fun i '(vdst, vsrc) => vsrc ← body i vdst vsrc; Some (vdst + 1, vsrc))
    (d, b)).
Proof.
  induction count as [|c IH]; intros i d b Hk; simpl.
  - eauto.
  - destruct (Hk 0 b) as [b1 Hb1]; [lia|apply frame_refl|].
    rewrite !Z.add_0_r in Hb1. rewrite Hb1. simpl.
    apply IH. intros k bk Hkr Hfk.
    replace (i + 1 + k) with (i + (k + 1)) by lia.
    replace (d + 1 + k) with (d + (k + 1)) by lia.
    apply Hk; [lia|].
    apply body_frame in Hb1.
    eapply frame_trans; eapply frame_weaken; try eassumption; lia.
Qed.

Lemma kernel_loop_total offset tableOffset start end_ vsrc :
  INT_MIN <= start + tableOffset <= INT_MAX ->
  INT_MIN <= end_ + tableOffset <= INT_MAX ->
  (forall k bk, 0 <= k < end_ - start ->
     frame (offset + start) (offset + start + k) vsrc bk ->
     is_Some (body (start + tableOffset + k) (offset + start + k) bk)) ->
  is_Some (kernel_loop body offset tableOffset start end_ vsrc).
Proof.
  intros Hlo Hhi Hk. unfold kernel_loop, for_loop.
  rewrite (proj2 (int_Some _ _) (conj eq_refl Hlo)). simpl.
  rewrite (proj2 (int_Some _ _) (conj eq_refl Hhi)). simpl.
  apply fmap_is_Some, iterate_kernel_total.
  intros k bk Hkr. apply Hk. lia.
Qed.

End KernelLoop.

(** ** One iteration, seen from the destination record

    While an iteration runs, the buffer is the initial one with the
    destination record replaced by the value accumulated so far.  A source
    record that is not the destination is read from the initial buffer. *)

Section Accumulate.

Context {F U : Type} `{FloatOps F} `{VertexOps F U}.
Implicit Types (b : list U) (d src : Z) (acc : U).

Lemma store_id {A : Type} (v : list A) i x : elt v i = Some x -> store i x v = v.
Proof.
  unfold elt, store. destruct (decide _); [|discriminate].
  apply list_insert_id.
Qed.

Lemma update_store b d (f : U -> U) acc :
  0 <= d < Z.of_nat (length b) ->
  update d f (store d acc b) = Some (store d (f acc) b).
Proof.
  intros Hd. unfold update. rewrite elt_store_eq by exact Hd. simpl.
  rewrite store_store. reflexivity.
Qed.

Lemma update_first b d (f : U -> U) :
  update d f b = d0 ← elt b d; Some (store d (f d0) b).
Proof. reflexivity. Qed.

Lemma addWithWeight_store b d src w acc :
  0 <= d < Z.of_nat (length b) -> src <> d ->
  addWithWeight d src w (store d acc b) =
  v ← elt b src; Some (store d (AddWithWeight acc v w) b).
Proof.
  intros Hd Hne. unfold addWithWeight.
  rewrite elt_store_ne by lia.
  destruct (elt b src) as [v|]; simpl; [|reflexivity].
  apply update_store, Hd.
Qed.

Lemma addVaryingWithWeight_store b d src w acc :
  0 <= d < Z.of_nat (length b) -> src <> d ->
  addVaryingWithWeight d src w (store d acc b) =
  v ← elt b src; Some (store d (AddVaryingWithWeight acc v w) b).
Proof.
  intros Hd Hne. unfold addVaryingWithWeight.
  rewrite elt_store_ne by lia.
  destruct (elt b src) as [v|]; simpl; [|reflexivity].
  apply update_store, Hd.
Qed.

(** A loop whose iterations only accumulate into the destination record is a
    loop on that record. *)
Lemma iterate_store b d (body : Z -> list U -> option (list U))
    (step : Z -> U -> option U) count : forall lo acc,
  (forall j acc, lo <= j < lo + Z.of_nat count ->
     body j (store d acc b) = acc' ← step j acc; Some (store d acc' b)) ->
  iterate count lo body (store d acc b) =
  acc' ← iterate count lo step acc; Some (store d acc' b).
Proof.
  induction count as [|c IH]; intros lo acc Hbody; simpl; [reflexivity|].
  rewrite Hbody by lia.
  destruct (step lo acc) as [acc1|]; simpl; [|reflexivity].
  apply IH. intros j acc2 Hj. apply Hbody. lia.
Qed.

(** A loop that folds the values [get lo], [get (lo+1)], ... into the
    accumulator. *)
Lemma iterate_fold {V : Type} (get : Z -> option V) (g : U -> V -> U) count :
  forall lo acc,
  iterate count lo (fun j acc => v ← get j; Some (g acc v)) acc =
  vs ← mapM get (seqZ lo (Z.of_nat count)); Some (fold_left g vs acc).
Proof.
  induction count as [|c IH]; intros lo acc; [reflexivity|].
  rewrite Nat2Z.inj_succ, seqZ_cons by lia. simpl.
  replace (Z.pred (Z.succ (Z.of_nat c))) with (Z.of_nat c) by lia.
  destruct (get lo) as [v|]; simpl; [|reflexivity].
  rewrite IH. unfold Z.succ.
  destruct (mapM get (seqZ (lo + 1) (Z.of_nat c))); reflexivity.
Qed.

End Accumulate.

(** ** From one iteration to the whole range *)

Section KernelValues.

Context {U : Type}.
Variable body : Z -> Z -> list U -> option (list U).
Variable value : Z -> list U -> U -> option U.
Variables offset tableOffset start end_ : Z.
Variable vsrc : list U.

Hypothesis body_frame :
  forall i vdst b b', body i vdst b = Some b' -> frame vdst (vdst + 1) b b'.

(** [value i b d0] describes iteration [i] on a buffer [b] that still has
    the initial source records: it turns the destination record [d0] into
    [value i b d0], and reads source records only. *)
Hypothesis body_value : forall k b, 0 <= k < end_ - start ->
  frame (offset + start) (offset + start + k) vsrc b ->
  body (start + tableOffset + k) (offset + start + k) b =
  d0 ← elt b (offset + start + k);
  r ← value (start + tableOffset + k) b d0;
  Some (store (offset + start + k) r b).

Hypothesis value_local : forall k b d0, 0 <= k < end_ - start ->
  frame (offset + start) (offset + start + k) vsrc b ->
  value (start + tableOffset + k) b d0 = value (start + tableOffset + k) vsrc d0.

Lemma kernel_loop_values vsrc' :
  kernel_loop body offset tableOffset start end_ vsrc = Some vsrc' ->
  forall k, 0 <= k < end_ - start ->
    exists d0 r,
      elt vsrc (offset + start + k) = Some d0 /\
      value (start + tableOffset + k) vsrc d0 = Some r /\
      elt vsrc' (offset + start + k) = Some r.
Proof.
  intros Hrun k Hk.
  destruct (kernel_loop_spec body body_frame _ _ _ _ _ _ Hrun) as [_ Hiter].
  destruct (Hiter k Hk) as (bk & bk' & Hfk & Hbk & ->).
  rewrite body_value in Hbk by assumption.
  inv_bind Hbk. injection Hbk as <-.
  match goal with
  | Hv : value _ bk _ = Some _ |- _ => rewrite (value_local k bk _ Hk Hfk) in Hv
  end.
  destruct Hfk as [Hlen Hfk].
  match goal with
  | Hd : elt bk _ = Some ?d0 |- _ =>
      exists d0; rewrite Hfk in Hd by lia; pose proof (elt_Some _ _ _ Hd)
  end.
  eexists. split; [eassumption|]. split; [eassumption|].
  apply elt_store_eq. rewrite Hlen. assumption.
Qed.

Hypothesis value_total : forall k d0, 0 <= k < end_ - start ->
  elt vsrc (offset + start + k) = Some d0 ->
  is_Some (value (start + tableOffset + k) vsrc d0).

Lemma kernel_loop_runs :
  INT_MIN <= start + tableOffset <= INT_MAX ->
  INT_MIN <= end_ + tableOffset <= INT_MAX ->
  (start < end_ -> 0 <= offset + start /\ offset + end_ <= Z.of_nat (length vsrc)) ->
  is_Some (kernel_loop body offset tableOffset start end_ vsrc).
Proof.
  intros Hlo Hhi Hdst. apply kernel_loop_total; try assumption.
  intros k bk Hk Hfk. rewrite body_value by assumption.
  destruct (elt_is_Some vsrc (offset + start + k)) as [d0 Hd0]; [lia|].
  rewrite (proj2 Hfk) by lia. rewrite Hd0. simpl.
  rewrite value_local by assumption.
  destruct (value_total k d0 Hk Hd0) as [r ->]. simpl. eauto.
Qed.

Lemma kernel_loop_correct :
  range_ok offset tableOffset start end_ vsrc ->
  exists vsrc',
    kernel_loop body offset tableOffset start end_ vsrc = Some vsrc' /\
    frame (offset + start) (offset + end_) vsrc vsrc' /\
    forall k, 0 <= k < end_ - start ->
      exists d0 r,
        elt vsrc (offset + start + k) = Some d0 /\
        value (start + tableOffset + k) vsrc d0 = Some r /\
        elt vsrc' (offset + start + k) = Some r.
Proof.
  intros (Hlo & Hhi & Hdst).
  destruct (kernel_loop_runs Hlo Hhi Hdst) as [vsrc' Hrun].
  exists vsrc'. split; [exact Hrun|]. split.
  - apply (kernel_loop_spec body body_frame _ _ _ _ _ _ Hrun).
  - apply kernel_loop_values, Hrun.
Qed.

End KernelValues.

(** ** Usable sources keep their value while the kernel runs *)

Lemma src_ok_elt {U : Type} (vsrc b : list U) dlo dhi k e :
  src_ok (Z.of_nat (length vsrc)) dlo dhi e ->
  frame dlo (dlo + k) vsrc b -> dlo + k <= dhi ->
  elt b e = elt vsrc e /\ is_Some (elt vsrc e).
Proof.
  intros [Hin Hout] [_ Hf] Hk. split; [apply Hf; lia|].
  destruct (elt_is_Some vsrc e Hin) as [x ->]. eauto.
Qed.

(** ** The edge-point kernel *)

Section EdgePoints.

Context {F U : Type} `{FloatOps F} `{VertexOps F U}.
Variable this : FarSubdivisionTables F.

Lemma edgePoint_value i d b :
  edge_noalias this i d ->
  edgePoint this i d b =
  d0 ← elt b d; r ← edgePoint_acc this i b d0; Some (store d r b).
Proof.
  intros Hsrc. unfold edgePoint, edgePoint_acc. rewrite update_first.
  destruct (elt b d) as [d0|] eqn:Hd; simpl; [|reflexivity].
  apply elt_Some in Hd.
  destruct (elt (_E_IT this) (4 * i + 0)) as [e0|] eqn:He0; simpl; [|reflexivity].
  destruct (elt (_E_IT this) (4 * i + 1)) as [e1|] eqn:He1; simpl; [|reflexivity].
  destruct (elt (_E_IT this) (4 * i + 2)) as [e2|] eqn:He2; simpl; [|reflexivity].
  destruct (elt (_E_IT this) (4 * i + 3)) as [e3|] eqn:He3; simpl; [|reflexivity].
  destruct (elt (_E_W this) (i * 2 + 0)) as [wV|]; simpl; [|reflexivity].
  destruct (Hsrc _ _ _ _ He0 He1 He2 He3) as (Hn0 & Hn1 & Hn23).
  rewrite addWithWeight_store by assumption.
  destruct (elt b e0) as [v0|] eqn:Hv0; simpl; [|reflexivity].
  rewrite addWithWeight_store by assumption.
  destruct (elt b e1) as [v1|] eqn:Hv1; simpl; [|reflexivity].
  destruct (Z.eqb_spec e2 (-1)) as [->|Hne]; simpl.
  - rewrite addVaryingWithWeight_store, Hv0 by assumption. simpl.
    rewrite addVaryingWithWeight_store, Hv1 by assumption. reflexivity.
  - destruct (Hn23 Hne) as [Hn2 Hn3].
    destruct (elt (_E_W this) (i * 2 + 1)) as [wF|]; simpl; [|reflexivity].
    rewrite addWithWeight_store by assumption.
    destruct (elt b e2) as [v2|]; simpl; [|reflexivity].
    rewrite addWithWeight_store by assumption.
    destruct (elt b e3) as [v3|]; simpl; [|reflexivity].
    rewrite addVaryingWithWeight_store, Hv0 by assumption. simpl.
    rewrite addVaryingWithWeight_store, Hv1 by assumption. reflexivity.
Qed.

Lemma edge_wf_noalias len dlo dhi i d :
  edge_wf this len dlo dhi i -> dlo <= d < dhi -> edge_noalias this i d.
Proof.
  intros (e0 & e1 & e2 & e3 & He0 & He1 & He2 & He3 & _ & Hs0 & Hs1 & Hf) Hd.
  intros e0' e1' e2' e3' He0' He1' He2' He3'.
  rewrite He0 in He0'. rewrite He1 in He1'. rewrite He2 in He2'. rewrite He3 in He3'.
  injection He0' as <-. injection He1' as <-. injection He2' as <-. injection He3' as <-.
  unfold src_ok in *. split; [lia|]. split; [lia|].
  intros Hne. destruct (Hf Hne) as (_ & Hs2 & Hs3). lia.
Qed.

Lemma edgePoint_acc_local len dlo dhi k i vsrc b d0 :
  len = Z.of_nat (length vsrc) ->
  edge_wf this len dlo dhi i -> frame dlo (dlo + k) vsrc b -> dlo + k <= dhi ->
  edgePoint_acc this i b d0 = edgePoint_acc this i vsrc d0 /\
  is_Some (edgePoint_acc this i vsrc d0).
Proof.
  intros -> (e0 & e1 & e2 & e3 & He0 & He1 & He2 & He3 & [wV HwV] & Hs0 & Hs1 & Hf)
    Hfr Hk.
  unfold edgePoint_acc. rewrite He0, He1, He2, He3, HwV. simpl.
  destruct (src_ok_elt _ _ _ _ _ _ Hs0 Hfr Hk) as [-> [v0 ->]].
  destruct (src_ok_elt _ _ _ _ _ _ Hs1 Hfr Hk) as [-> [v1 ->]]. simpl.
  destruct (Z.eqb_spec e2 (-1)) as [->|Hne]; simpl; [eauto|].
  destruct (Hf Hne) as ([wF ->] & Hs2 & Hs3). simpl.
  destruct (src_ok_elt _ _ _ _ _ _ Hs2 Hfr Hk) as [-> [v2 ->]].
  destruct (src_ok_elt _ _ _ _ _ _ Hs3 Hfr Hk) as [-> [v3 ->]]. simpl. eauto.
Qed.

Lemma computeEdgePoints_values offset tableOffset start end_ vsrc :
  range_ok offset tableOffset start end_ vsrc ->
  (forall k, 0 <= k < end_ - start ->
     edge_wf this (Z.of_nat (length vsrc)) (offset + start) (offset + end_)
       (start + tableOffset + k)) ->
  exists vsrc',
    computeEdgePoints this offset tableOffset start end_ vsrc = Some vsrc' /\
    frame (offset + start) (offset + end_) vsrc vsrc' /\
    forall k, 0 <= k < end_ - start ->
      exists d0 r,
        elt vsrc (offset + start + k) = Some d0 /\
        edgePoint_acc this (start + tableOffset + k) vsrc d0 = Some r /\
        elt vsrc' (offset + start + k) = Some r.
Proof.
  intros Hrange Hwf. apply kernel_loop_correct; try assumption.
  - apply edgePoint_frame.
  - intros k b Hk _. apply edgePoint_value.
    eapply edge_wf_noalias; [apply (Hwf k Hk)|lia].
  - intros k b d0 Hk Hfr.
    eapply edgePoint_acc_local; [reflexivity|apply (Hwf k Hk)|exact Hfr|lia].
  - intros k d0 Hk _.
    eapply (edgePoint_acc_local _ _ _ 0); [reflexivity|apply (Hwf k Hk)|apply frame_refl|lia].
Qed.

Lemma edgePoint_acc_Some i vsrc d0 r :
  edgePoint_acc this i vsrc d0 = Some r ->
  exists e0 e1 e2 e3 wV v0 v1 opposite,
    elt (_E_IT this) (4 * i + 0) = Some e0 /\
    elt (_E_IT this) (4 * i + 1) = Some e1 /\
    elt (_E_IT this) (4 * i + 2) = Some e2 /\
    elt (_E_IT this) (4 * i + 3) = Some e3 /\
    elt (_E_W this) (i * 2 + 0) = Some wV /\
    elt vsrc e0 = Some v0 /\ elt vsrc e1 = Some v1 /\
    (if decide (e2 = -1) then opposite = None
     else exists wF v2 v3,
       elt (_E_W this) (i * 2 + 1) = Some wF /\
       elt vsrc e2 = Some v2 /\ elt vsrc e3 = Some v3 /\
       opposite = Some (v2, v3, wF)) /\
    r = edgeRule d0 v0 v1 wV opposite.
Proof.
  unfold edgePoint_acc. intros Hacc. inv_bind Hacc. injection Hacc as <-.
  match goal with
  | Hc : (if negb (?e2 =? -1) then _ else _) = Some ?r' |- _ =>
      destruct (Z.eqb_spec e2 (-1)) as [He2|He2]; simpl in Hc;
      [injection Hc as <-|inv_bind Hc; injection Hc as <-]
  end.
  - do 7 eexists. exists None. repeat (split; [eassumption|]).
    destruct (decide _); [|contradiction]. split; reflexivity.
  - do 7 eexists. eexists (Some (_, _, _)). repeat (split; [eassumption|]).
    destruct (decide _); [contradiction|]. split; [|reflexivity].
    do 3 eexists. repeat (split; [eassumption|]). reflexivity.
Qed.

End EdgePoints.

(** ** Claims about the edge-point kernel *)

(** C3. For well-formed edge-points, [computeEdgePoints] returns, and every
    destination record of the range is the edge rule applied to the initial
    record: cleared, the endpoints [e0], [e1] added with weight [wVertex] and,
    if and only if [e2 <> -1], the opposite vertices [e2], [e3] added with
    weight [wFace].  For a boundary edge ([e2 = -1]) nothing is required of
    [e3], of the face weight or of any other source record; in exact
    arithmetic the primary attribute is then [wVertex*e0 + wVertex*e1]
    (weight sum [2*wVertex]), the midpoint when [wVertex = 0.5]. *)
Theorem computeEdgePoints_contract :
  (forall (F U : Type) (FO : FloatOps F) (VO : VertexOps F U)
      (this : FarSubdivisionTables F) offset tableOffset start end_ (vsrc : list U),
    range_ok offset tableOffset start end_ vsrc ->
    (forall k, 0 <= k < end_ - start ->
       edge_wf this (Z.of_nat (length vsrc)) (offset + start) (offset + end_)
         (start + tableOffset + k)) ->
    exists vsrc',
      computeEdgePoints this offset tableOffset start end_ vsrc = Some vsrc' /\
      forall k, 0 <= k < end_ - start ->
        let i := start + tableOffset + k in
        exists d0 e0 e1 e2 e3 wV v0 v1 opposite,
          elt vsrc (offset + start + k) = Some d0 /\
          elt (_E_IT this) (4 * i + 0) = Some e0 /\
          elt (_E_IT this) (4 * i + 1) = Some e1 /\
          elt (_E_IT this) (4 * i + 2) = Some e2 /\
          elt (_E_IT this) (4 * i + 3) = Some e3 /\
          elt (_E_W this) (i * 2 + 0) = Some wV /\
          elt vsrc e0 = Some v0 /\ elt vsrc e1 = Some v1 /\
          (if decide (e2 = -1) then opposite = None
           else exists wF v2 v3,
             elt (_E_W this) (i * 2 + 1) = Some wF /\
             elt vsrc e2 = Some v2 /\ elt vsrc e3 = Some v3 /\
             opposite = Some (v2, v3, wF)) /\
          elt vsrc' (offset + start + k) = Some (edgeRule d0 v0 v1 wV opposite)) /\
  (forall (d0 v0 v1 : QVertex) (wV : Q),
    let r := edgeRule d0 v0 v1 wV None in
    (pos r == wV * pos v0 + wV * pos v1 /\
     (forall c, pos v0 == c -> pos v1 == c -> pos r == (2 * wV) * c) /\
     (wV == 1 # 2 -> pos r == (1 # 2) * pos v0 + (1 # 2) * pos v1))%Q).
Proof.
  split.
  - intros F U FO VO this offset tableOffset start end_ vsrc Hrange Hwf.
    destruct (computeEdgePoints_values this _ _ _ _ _ Hrange Hwf)
      as (vsrc' & Hrun & _ & Hval).
    exists vsrc'. split; [exact Hrun|].
    intros k Hk i. destruct (Hval k Hk) as (d0 & r & Hd0 & Hacc & Hr).
    apply edgePoint_acc_Some in Hacc
      as (e0 & e1 & e2 & e3 & wV & v0 & v1 & opp & ? & ? & ? & ? & ? & ? & ? & ? & ->).
    exists d0, e0, e1, e2, e3, wV, v0, v1, opp. tauto.
  - intros d0 v0 v1 wV r. unfold r, edgeRule. simpl. split; [ring|].
    split.
    + intros c -> ->. ring.
    + intros ->. ring.
Qed.

Lemma computeEdgePoints_contract_witness :
  range_ok 4 0 0 2 quad_buffer /\
  (forall k, 0 <= k < 2 - 0 ->
     edge_wf quad_tables (Z.of_nat (length quad_buffer)) (4 + 0) (4 + 2) (0 + 0 + k)) /\
  (exists vsrc',
    computeEdgePoints quad_tables 4 0 0 2 quad_buffer = Some vsrc' /\
    elt vsrc' 4 = Some (edgeRule {| pos := 9; vary := 9 |}
                          {| pos := 1; vary := 10 |} {| pos := 2; vary := 20 |} 0.25%Q
                          (Some ({| pos := 3; vary := 30 |}, {| pos := 4; vary := 40 |}, 0.25%Q))) /\
    elt vsrc' 5 = Some (edgeRule {| pos := 9; vary := 9 |}
                          {| pos := 1; vary := 10 |} {| pos := 2; vary := 20 |} 0.5%Q None)) /\
  (pos (edgeRule {| pos := 9; vary := 9 |}
          {| pos := 1; vary := 10 |} {| pos := 2; vary := 20 |} 0.5%Q None) ==
   (1 # 2) * 1 + (1 # 2) * 2)%Q.
Proof.
  assert (Hrange : range_ok 4 0 0 2 quad_buffer) by (vm_compute; intuition discriminate).
  assert (Hwf : forall k, 0 <= k < 2 - 0 ->
     edge_wf quad_tables (Z.of_nat (length quad_buffer)) (4 + 0) (4 + 2) (0 + 0 + k)).
  { intros k Hk. assert (k = 0 \/ k = 1) as [->| ->] by lia.
    - exists 0, 1, 2, 3. unfold src_ok. simpl.
      repeat split; eauto; try lia; try reflexivity.
    - exists 0, 1, (-1), (-1). unfold src_ok. simpl.
      repeat split; eauto; try lia; try reflexivity; try contradiction. }
  split; [exact Hrange|]. split; [exact Hwf|]. split.
  - destruct (proj1 computeEdgePoints_contract _ _ _ _ quad_tables 4 0 0 2 quad_buffer
                Hrange Hwf) as (vsrc' & Hrun & _).
    exists vsrc'. split; [exact Hrun|].
    vm_compute in Hrun. injection Hrun as <-. split; reflexivity.
  - destruct (proj2 computeEdgePoints_contract {| pos := 9; vary := 9 |}
                {| pos := 1; vary := 10 |} {| pos := 2; vary := 20 |} 0.5%Q)
      as (_ & _ & Hmid).
    apply Hmid. reflexivity.
Defined.

(** ** The vertex-point kernel A *)

Section VertexPointsA.

Context {F U : Type} `{FloatOps F} `{VertexOps F U}.
Variable this : FarSubdivisionTables F.

Lemma corner_spec pass n eidx0 :
  reflect (corner pass n eidx0) ((eidx0 =? -1) || (negb pass && (n =? -1))).
Proof.
  unfold corner.
  destruct (Z.eqb_spec eidx0 (-1)), pass, (Z.eqb_spec n (-1)); simpl;
    constructor; intuition discriminate.
Qed.

Lemma addWithWeight_no_dst d src w (b : list U) :
  elt b d = None -> addWithWeight d src w b = None.
Proof.
  intros Hd. unfold addWithWeight, update.
  destruct (elt b src); simpl; [rewrite Hd|]; reflexivity.
Qed.

Lemma vertexPointA_value pass i d b :
  vertexA_noalias this pass i d ->
  vertexPointA this pass i d b =
  d0 ← elt b d; r ← vertexPointA_acc this pass i b d0; Some (store d r b).
Proof.
  intros Hsrc. unfold vertexPointA, vertexPointA_acc.
  destruct (elt (_V_ITa this) (5 * i + 1)) as [n|] eqn:Hn;
    [|destruct pass; simpl; [|rewrite update_first];
      destruct (elt b d); reflexivity].
  destruct (elt (_V_ITa this) (5 * i + 2)) as [p|] eqn:Hp;
    [|destruct pass; simpl; [|rewrite update_first];
      destruct (elt b d); reflexivity].
  destruct (elt (_V_ITa this) (5 * i + 3)) as [e0|] eqn:He0;
    [|destruct pass; simpl; [|rewrite update_first];
      destruct (elt b d); reflexivity].
  destruct (elt (_V_ITa this) (5 * i + 4)) as [e1|] eqn:He1;
    [|destruct pass; simpl; [|rewrite update_first];
      destruct (elt b d); reflexivity].
  destruct (elt (_V_W this) i) as [s|] eqn:Hs;
    [|destruct pass; simpl; [|rewrite update_first];
      destruct (elt b d); reflexivity].
  destruct (Hsrc _ _ _ _ Hn Hp He0 He1) as [Hnp Hne].
  destruct (elt b d) as [d0|] eqn:Hd.
  - pose proof (elt_Some _ _ _ Hd) as Hdr.
    assert (Hstart : (if negb pass then update d Clear b else Some b) =
                     Some (store d (if negb pass then Clear d0 else d0) b)).
    { destruct pass; simpl; [rewrite (store_id _ _ _ Hd)|rewrite update_first, Hd];
        reflexivity. }
    rewrite Hstart. simpl.
    destruct (corner_spec pass n e0) as [Hc|Hc].
    + rewrite addWithWeight_store by assumption.
      destruct (elt b p) as [vp|] eqn:Hvp; simpl; [|reflexivity].
      rewrite addVaryingWithWeight_store, Hvp by assumption. reflexivity.
    + destruct (Hne Hc) as [Hn0 Hn1].
      rewrite addWithWeight_store by assumption.
      destruct (elt b p) as [vp|] eqn:Hvp; simpl; [|reflexivity].
      rewrite addWithWeight_store by assumption.
      destruct (elt b e0) as [v0|]; simpl; [|reflexivity].
      rewrite addWithWeight_store by assumption.
      destruct (elt b e1) as [v1|]; simpl; [|reflexivity].
      rewrite addVaryingWithWeight_store, Hvp by assumption. reflexivity.
  - destruct pass; simpl.
    + destruct (_ || _); simpl; rewrite addWithWeight_no_dst by assumption; reflexivity.
    + rewrite update_first, Hd. reflexivity.
Qed.

Lemma vertexA_wf_noalias pass len dlo dhi i d :
  vertexA_wf this pass len dlo dhi i -> dlo <= d < dhi -> vertexA_noalias this pass i d.
Proof.
  intros (n & p & e0 & e1 & Hn & Hp & He0 & He1 & _ & Hsp & Hcr) Hd.
  intros n' p' e0' e1' Hn' Hp' He0' He1'.
  rewrite Hn in Hn'. rewrite Hp in Hp'. rewrite He0 in He0'. rewrite He1 in He1'.
  injection Hn' as <-. injection Hp' as <-. injection He0' as <-. injection He1' as <-.
  unfold src_ok in *. split; [lia|].
  intros Hc. destruct (Hcr Hc). lia.
Qed.

Lemma vertexPointA_acc_local pass len dlo dhi k i vsrc b d0 :
  len = Z.of_nat (length vsrc) ->
  vertexA_wf this pass len dlo dhi i -> frame dlo (dlo + k) vsrc b -> dlo + k <= dhi ->
  vertexPointA_acc this pass i b d0 = vertexPointA_acc this pass i vsrc d0 /\
  is_Some (vertexPointA_acc this pass i vsrc d0).
Proof.
  intros -> (n & p & e0 & e1 & Hn & Hp & He0 & He1 & [s Hs] & Hsp & Hcr) Hfr Hk.
  unfold vertexPointA_acc. rewrite Hn, Hp, He0, He1, Hs. simpl.
  destruct (src_ok_elt _ _ _ _ _ _ Hsp Hfr Hk) as [-> [vp ->]]. simpl.
  destruct (corner_spec pass n e0) as [Hc|Hc]; simpl; [eauto|].
  destruct (Hcr Hc) as [Hs0 Hs1].
  destruct (src_ok_elt _ _ _ _ _ _ Hs0 Hfr Hk) as [-> [v0 ->]].
  destruct (src_ok_elt _ _ _ _ _ _ Hs1 Hfr Hk) as [-> [v1 ->]]. simpl. eauto.
Qed.

Lemma vertexPointA_acc_Some pass i vsrc d0 r :
  vertexPointA_acc this pass i vsrc d0 = Some r ->
  exists n p e0 e1 s vp crease,
    elt (_V_ITa this) (5 * i + 1) = Some n /\
    elt (_V_ITa this) (5 * i + 2) = Some p /\
    elt (_V_ITa this) (5 * i + 3) = Some e0 /\
    elt (_V_ITa this) (5 * i + 4) = Some e1 /\
    elt (_V_W this) i = Some s /\
    elt vsrc p = Some vp /\
    ((corner pass n e0 /\ crease = None) \/
     (~ corner pass n e0 /\ exists v0 v1,
        elt vsrc e0 = Some v0 /\ elt vsrc e1 = Some v1 /\ crease = Some (v0, v1))) /\
    r = creaseCornerRule pass d0 vp crease (weightA pass s n).
Proof.
  unfold vertexPointA_acc. intros Hacc. inv_bind Hacc. injection Hacc as <-.
  match goal with
  | Hc : (if ?c then _ else _) = Some ?r' |- _ =>
      match c with
      | (?e0 =? -1) || (_ && (?n =? -1)) =>
          destruct (corner_spec pass n e0) as [Hcor|Hcor];
          [injection Hc as <-|inv_bind Hc; injection Hc as <-]
      end
  end.
  - do 6 eexists. exists None. repeat (split; [eassumption|]).
    split; [left; auto|]. unfold creaseCornerRule. destruct pass; reflexivity.
  - do 6 eexists. eexists (Some (_, _)). repeat (split; [eassumption|]).
    split; [right; eauto 6|]. unfold creaseCornerRule. destruct pass; reflexivity.
Qed.

Lemma computeVertexPointsA_values offset pass tableOffset start end_ vsrc :
  range_ok offset tableOffset start end_ vsrc ->
  (forall k, 0 <= k < end_ - start ->
     vertexA_wf this pass (Z.of_nat (length vsrc)) (offset + start) (offset + end_)
       (start + tableOffset + k)) ->
  exists vsrc',
    computeVertexPointsA this offset pass tableOffset start end_ vsrc = Some vsrc' /\
    frame (offset + start) (offset + end_) vsrc vsrc' /\
    forall k, 0 <= k < end_ - start ->
      exists d0 r,
        elt vsrc (offset + start + k) = Some d0 /\
        vertexPointA_acc this pass (start + tableOffset + k) vsrc d0 = Some r /\
        elt vsrc' (offset + start + k) = Some r.
Proof.
  intros Hrange Hwf. apply kernel_loop_correct; try assumption.
  - apply vertexPointA_frame.
  - intros k b Hk _. apply vertexPointA_value.
    eapply vertexA_wf_noalias; [apply (Hwf k Hk)|lia].
  - intros k b d0 Hk Hfr.
    eapply vertexPointA_acc_local; [reflexivity|apply (Hwf k Hk)|exact Hfr|lia].
  - intros k d0 Hk _.
    eapply (vertexPointA_acc_local _ _ _ _ 0);
      [reflexivity|apply (Hwf k Hk)|apply frame_refl|lia].
Qed.

End VertexPointsA.

(** ** Claims about the vertex-point kernel A *)

(** C1, as amended. For well-formed vertex-points, every destination record
    of [computeVertexPointsA] is the crease/corner rule applied with the
    weight [w] obtained from the stored sharpness weight [s] as follows:
    [w0 = 1 - s] on the first pass, [w0 = s] on the second pass, and
    [w = 1 - w0] if [0 < w0 < 1] and the valence is positive ([n > 0]),
    [w = w0] otherwise. *)
Theorem computeVertexPointsA_weight {F U : Type} `{FloatOps F} `{VertexOps F U}
    (this : FarSubdivisionTables F) offset pass tableOffset start end_ (vsrc : list U) :
  range_ok offset tableOffset start end_ vsrc ->
  (forall k, 0 <= k < end_ - start ->
     vertexA_wf this pass (Z.of_nat (length vsrc)) (offset + start) (offset + end_)
       (start + tableOffset + k)) ->
  exists vsrc',
    computeVertexPointsA this offset pass tableOffset start end_ vsrc = Some vsrc' /\
    forall k, 0 <= k < end_ - start ->
      let i := start + tableOffset + k in
      exists n s d0 p vp crease w,
        elt (_V_ITa this) (5 * i + 1) = Some n /\
        elt (_V_W this) i = Some s /\
        elt vsrc (offset + start + k) = Some d0 /\
        elt (_V_ITa this) (5 * i + 2) = Some p /\
        elt vsrc p = Some vp /\
        elt vsrc' (offset + start + k) = Some (creaseCornerRule pass d0 vp crease w) /\
        let w0 := if pass then s else fsub (float_lit 1) s in
        w = if flt (float_lit 0) w0 && flt w0 (float_lit 1) && (0 <? n)
            then fsub (float_lit 1) w0 else w0.
Proof.
  intros Hrange Hwf.
  destruct (computeVertexPointsA_values this _ _ _ _ _ _ Hrange Hwf)
    as (vsrc' & Hrun & _ & Hval).
  exists vsrc'. split; [exact Hrun|].
  intros k Hk i. destruct (Hval k Hk) as (d0 & r & Hd0 & Hacc & Hr).
  apply vertexPointA_acc_Some in Hacc
    as (n & p & e0 & e1 & s & vp & crease & ? & ? & ? & ? & ? & ? & _ & ->).
  exists n, s, d0, p, vp, crease, (weightA pass s n).
  repeat (split; [assumption|]). reflexivity.
Qed.

Lemma computeVertexPointsA_weight_witness :
  range_ok 1 0 0 1 corner0_buffer /\
  (forall k, 0 <= k < 1 - 0 ->
     vertexA_wf corner0_tables false (Z.of_nat (length corner0_buffer)) (1 + 0) (1 + 1)
       (0 + 0 + k)) /\
  exists vsrc',
    computeVertexPointsA corner0_tables 1 false 0 0 1 corner0_buffer = Some vsrc' /\
    elt vsrc' 1 = Some (creaseCornerRule false {| pos := 0; vary := 0 |}
                          {| pos := 8; vary := 1 |} None (1 - 0.25)%Q).
Proof.
  assert (Hrange : range_ok 1 0 0 1 corner0_buffer) by (vm_compute; intuition discriminate).
  assert (Hwf : forall k, 0 <= k < 1 - 0 ->
     vertexA_wf corner0_tables false (Z.of_nat (length corner0_buffer)) (1 + 0) (1 + 1)
       (0 + 0 + k)).
  { intros k Hk. assert (k = 0) as -> by lia.
    exists 0, 0, (-1), (-1). unfold src_ok, corner. simpl.
    repeat split; eauto; lia. }
  split; [exact Hrange|]. split; [exact Hwf|].
  destruct (computeVertexPointsA_weight corner0_tables 1 false 0 0 1 corner0_buffer Hrange Hwf)
    as (vsrc' & Hrun & _).
  exists vsrc'. split; [exact Hrun|].
  vm_compute in Hrun. injection Hrun as <-. reflexivity.
Defined.

(** In exact arithmetic: with a positive valence and a fractional sharpness
    weight [s] the two inversions cancel on the first pass, which
    accumulates with weight [s], and the second pass accumulates with
    [1 - s]; with a valence [n <= 0] the first pass uses [1 - s] and the
    second [s]. *)
Lemma weightA_exact (s : Q) (n : Z) :
  (0 < n -> (0 < s)%Q -> (s < 1)%Q ->
     (weightA false s n == s)%Q /\ (weightA true s n == 1 - s)%Q) /\
  (n <= 0 -> (weightA false s n == 1 - s)%Q /\ (weightA true s n == s)%Q).
Proof.
  unfold weightA. simpl. split.
  - intros Hn H0 H1. destruct (Z.ltb_spec 0 n); [|lia].
    repeat destruct (Qlt_le_dec _ _); simpl; split; try ring; lra.
  - intros Hn. destruct (Z.ltb_spec 0 n); [lia|].
    rewrite !andb_false_r. split; reflexivity.
Qed.

(** C1, as stated, fails: on a vertex of valence [0] with sharpness weight
    [0.25] the first pass accumulates the parent with weight [0.75]; with
    the inversion applied whenever the valence differs from [-1] the weight
    would be [0.25]. *)
Lemma computeVertexPointsA_weight_counterexample :
  exists vsrc' r,
    computeVertexPointsA corner0_tables 1 false 0 0 1 corner0_buffer = Some vsrc' /\
    elt vsrc' 1 = Some r /\
    (pos r == 0.75 * 8)%Q /\
    (weightA_spec false 0.25%Q 0 == 0.25)%Q /\
    ~ (pos r == weightA_spec false 0.25%Q 0 * 8)%Q.
Proof.
  eexists. eexists. split; [vm_compute; reflexivity|].
  split; [vm_compute; reflexivity|].
  split; [reflexivity|]. split; [reflexivity|].
  vm_compute. discriminate.
Qed.

(** C5. For well-formed vertex-points, every destination record of
    [computeVertexPointsA] is produced by exactly one of two rules: the
    corner rule when [creaseEdge0 = -1], or when the pass is the first pass
    and [valence = -1] (the parent added with the full effective weight, no
    crease-edge vertex read); otherwise the crease rule (the parent with
    [0.75 * weight], each crease-edge vertex with [0.125 * weight]). *)
Theorem computeVertexPointsA_rules {F U : Type} `{FloatOps F} `{VertexOps F U}
    (this : FarSubdivisionTables F) offset pass tableOffset start end_ (vsrc : list U) :
  range_ok offset tableOffset start end_ vsrc ->
  (forall k, 0 <= k < end_ - start ->
     vertexA_wf this pass (Z.of_nat (length vsrc)) (offset + start) (offset + end_)
       (start + tableOffset + k)) ->
  exists vsrc',
    computeVertexPointsA this offset pass tableOffset start end_ vsrc = Some vsrc' /\
    forall k, 0 <= k < end_ - start ->
      let i := start + tableOffset + k in
      exists n p e0 e1 s d0 vp crease,
        elt (_V_ITa this) (5 * i + 1) = Some n /\
        elt (_V_ITa this) (5 * i + 2) = Some p /\
        elt (_V_ITa this) (5 * i + 3) = Some e0 /\
        elt (_V_ITa this) (5 * i + 4) = Some e1 /\
        elt (_V_W this) i = Some s /\
        elt vsrc (offset + start + k) = Some d0 /\
        elt vsrc p = Some vp /\
        ((corner pass n e0 /\ crease = None) \/
         (~ corner pass n e0 /\ exists v0 v1,
            elt vsrc e0 = Some v0 /\ elt vsrc e1 = Some v1 /\
            crease = Some (v0, v1))) /\
        elt vsrc' (offset + start + k) =
          Some (creaseCornerRule pass d0 vp crease (weightA pass s n)).
Proof.
  intros Hrange Hwf.
  destruct (computeVertexPointsA_values this _ _ _ _ _ _ Hrange Hwf)
    as (vsrc' & Hrun & _ & Hval).
  exists vsrc'. split; [exact Hrun|].
  intros k Hk i. destruct (Hval k Hk) as (d0 & r & Hd0 & Hacc & Hr).
  apply vertexPointA_acc_Some in Hacc
    as (n & p & e0 & e1 & s & vp & crease & ? & ? & ? & ? & ? & ? & ? & ->).
  exists n, p, e0, e1, s, d0, vp, crease. tauto.
Qed.

Lemma computeVertexPointsA_rules_witness :
  range_ok 4 1 0 1 quad_buffer /\
  (forall k, 0 <= k < 1 - 0 ->
     vertexA_wf quad_tables true (Z.of_nat (length quad_buffer)) (4 + 0) (4 + 1)
       (0 + 1 + k)) /\
  exists vsrc',
    computeVertexPointsA quad_tables 4 true 1 0 1 quad_buffer = Some vsrc' /\
    elt vsrc' 4 = Some (creaseCornerRule true {| pos := 9; vary := 9 |}
                          {| pos := 1; vary := 10 |}
                          (Some ({| pos := 2; vary := 20 |}, {| pos := 3; vary := 30 |}))
                          0.25%Q).
Proof.
  assert (Hrange : range_ok 4 1 0 1 quad_buffer) by (vm_compute; intuition discriminate).
  assert (Hwf : forall k, 0 <= k < 1 - 0 ->
     vertexA_wf quad_tables true (Z.of_nat (length quad_buffer)) (4 + 0) (4 + 1)
       (0 + 1 + k)).
  { intros k Hk. assert (k = 0) as -> by lia.
    exists (-1), 0, 1, 2. unfold src_ok, corner. simpl.
    repeat split; eauto; lia. }
  split; [exact Hrange|]. split; [exact Hwf|].
  destruct (computeVertexPointsA_rules quad_tables 4 true 1 0 1 quad_buffer Hrange Hwf)
    as (vsrc' & Hrun & _).
  exists vsrc'. split; [exact Hrun|].
  vm_compute in Hrun. injection Hrun as <-. reflexivity.
Defined.

(** ** Gathering the source records an index table lists *)

Section Gather.

Context {U : Type}.

Lemma seqZ_to_nat m n : seqZ m (Z.of_nat (Z.to_nat n)) = seqZ m n.
Proof.
  destruct (decide (0 <= n)).
  - rewrite Z2Nat.id by assumption. reflexivity.
  - replace (Z.to_nat n) with O by lia. simpl. rewrite !seqZ_nil by lia. reflexivity.
Qed.

Lemma gather_local table (vsrc b : list U) dlo dhi k h count :
  entries_ok table (Z.of_nat (length vsrc)) dlo dhi h count ->
  frame dlo (dlo + k) vsrc b -> dlo + k <= dhi ->
  gather table b h count = gather table vsrc h count /\
  is_Some (gather table vsrc h count).
Proof.
  intros Hok Hfr Hk. unfold gather. split.
  - apply Forall_mapM_ext, Forall_forall. intros t [Ht0 Ht]%elem_of_seqZ.
    destruct (Hok (t - 0)) as (v & Hv & Hs); [lia|].
    replace (h + (t - 0)) with (h + t) in Hv by lia. rewrite Hv. simpl.
    apply (src_ok_elt _ _ _ _ _ _ Hs Hfr Hk).
  - apply mapM_is_Some, Forall_forall. intros t [Ht0 Ht]%elem_of_seqZ.
    destruct (Hok (t - 0)) as (v & Hv & Hs); [lia|].
    replace (h + (t - 0)) with (h + t) in Hv by lia. simpl. rewrite Hv. simpl.
    apply (src_ok_elt _ _ _ _ _ _ Hs Hfr Hk).
Qed.

Lemma gather_length table (vsrc vs : list U) h count :
  gather table vsrc h count = Some vs -> length vs = Z.to_nat count.
Proof.
  intros Hg. apply length_mapM in Hg. rewrite <- Hg. apply length_seqZ.
Qed.

Lemma gather_lookup table (vsrc vs : list U) h count t :
  gather table vsrc h count = Some vs -> 0 <= t < count ->
  exists v x, elt table (h + t) = Some v /\ elt vsrc v = Some x /\
    vs !! Z.to_nat t = Some x.
Proof.
  intros Hg Ht. apply mapM_Some_1 in Hg.
  assert (Hl : seqZ 0 count !! Z.to_nat t = Some t).
  { rewrite lookup_seqZ_lt by lia. f_equal. lia. }
  destruct (Forall2_lookup_l _ _ _ _ _ Hg Hl) as (x & Hx & Hget).
  apply bind_Some in Hget as (v & Hv & Hxv). eauto.
Qed.

End Gather.

(** ** The face-point kernel *)

Section FacePoints.

Context {F U : Type} `{FloatOps F} `{VertexOps F U}.
Variable this : FarSubdivisionTables F.

Lemma facePoint_value i d b :
  face_noalias this i d ->
  facePoint this i d b =
  d0 ← elt b d; r ← facePoint_acc this i b d0; Some (store d r b).
Proof.
  intros Hsrc. unfold facePoint, facePoint_acc. rewrite update_first.
  destruct (elt b d) as [d0|] eqn:Hd; simpl; [|reflexivity].
  apply elt_Some in Hd.
  destruct (elt (_F_ITa this) (2 * i)) as [h|] eqn:Hh; simpl; [|reflexivity].
  destruct (elt (_F_ITa this) (2 * i + 1)) as [n|] eqn:Hn; simpl; [|reflexivity].
  unfold for_loop, gather, faceRule.
  rewrite (iterate_store b d _
    (fun j acc => v ← (idx ← elt (_F_IT this) (h + j); elt b idx);
       Some (AddVaryingWithWeight
               (AddWithWeight acc v (fdiv (float_lit 1) (float_of_int n))) v
               (fdiv (float_lit 1) (float_of_int n))))).
  - rewrite iterate_fold, seqZ_to_nat, Z.sub_0_r.
    destruct (mapM _ _); reflexivity.
  - intros j acc Hj.
    destruct (elt (_F_IT this) (h + j)) as [v|] eqn:Hv; simpl; [|reflexivity].
    assert (v <> d) by (apply (Hsrc h n Hh Hn j v); [lia|assumption]).
    rewrite addWithWeight_store by assumption.
    destruct (elt b v) as [x|] eqn:Hx; simpl; [|reflexivity].
    rewrite addVaryingWithWeight_store, Hx by assumption. reflexivity.
Qed.

Lemma face_wf_noalias len dlo dhi i d :
  face_wf this len dlo dhi i -> dlo <= d < dhi -> face_noalias this i d.
Proof.
  intros (h & n & Hh & Hn & Hok) Hd h' n' Hh' Hn' j v Hj Hv.
  rewrite Hh in Hh'. rewrite Hn in Hn'. injection Hh' as <-. injection Hn' as <-.
  destruct (Hok j Hj) as (v' & Hv' & [_ Hout]).
  rewrite Hv in Hv'. injection Hv' as <-. lia.
Qed.

Lemma facePoint_acc_local len dlo dhi k i vsrc b d0 :
  len = Z.of_nat (length vsrc) ->
  face_wf this len dlo dhi i -> frame dlo (dlo + k) vsrc b -> dlo + k <= dhi ->
  facePoint_acc this i b d0 = facePoint_acc this i vsrc d0 /\
  is_Some (facePoint_acc this i vsrc d0).
Proof.
  intros -> (h & n & Hh & Hn & Hok) Hfr Hk.
  unfold facePoint_acc. rewrite Hh, Hn. simpl.
  destruct (gather_local _ _ _ _ _ _ _ _ Hok Hfr Hk) as [-> [vs ->]].
  simpl. eauto.
Qed.

Lemma computeFacePoints_values offset tableOffset start end_ vsrc :
  range_ok offset tableOffset start end_ vsrc ->
  (forall k, 0 <= k < end_ - start ->
     face_wf this (Z.of_nat (length vsrc)) (offset + start) (offset + end_)
       (start + tableOffset + k)) ->
  exists vsrc',
    computeFacePoints this offset tableOffset start end_ vsrc = Some vsrc' /\
    frame (offset + start) (offset + end_) vsrc vsrc' /\
    forall k, 0 <= k < end_ - start ->
      exists d0 r,
        elt vsrc (offset + start + k) = Some d0 /\
        facePoint_acc this (start + tableOffset + k) vsrc d0 = Some r /\
        elt vsrc' (offset + start + k) = Some r.
Proof.
  intros Hrange Hwf. apply kernel_loop_correct; try assumption.
  - apply facePoint_frame.
  - intros k b Hk _. apply facePoint_value.
    eapply face_wf_noalias; [apply (Hwf k Hk)|lia].
  - intros k b d0 Hk Hfr.
    eapply facePoint_acc_local; [reflexivity|apply (Hwf k Hk)|exact Hfr|lia].
  - intros k d0 Hk _.
    eapply (facePoint_acc_local _ _ _ 0); [reflexivity|apply (Hwf k Hk)|apply frame_refl|lia].
Qed.

End FacePoints.

(** ** Claims about the face-point kernel *)

Lemma faceRule_fold (w : Q) (vs : list QVertex) : forall acc,
  let r := fold_left
    (fun acc v => AddVaryingWithWeight (AddWithWeight acc v w) v w) vs acc in
  (pos r == pos acc + w * sum_pos vs /\ vary r == vary acc + w * sum_vary vs)%Q.
Proof.
  induction vs as [|v vs IH]; intros acc; simpl.
  - split; ring.
  - destruct (IH (AddVaryingWithWeight (AddWithWeight acc v w) v w)) as [-> ->].
    simpl. split; ring.
Qed.

Lemma sum_pos_const (vs : list QVertex) (c : Q) :
  Forall (fun v => pos v == c)%Q vs ->
  (sum_pos vs == inject_Z (Z.of_nat (length vs)) * c)%Q.
Proof.
  induction 1 as [|v vs Hv _ IH].
  - simpl. ring.
  - cbn [sum_pos fold_right length]. fold (sum_pos vs). rewrite IH, Hv.
    rewrite Nat2Z.inj_succ. unfold Z.succ. rewrite inject_Z_plus. ring.
Qed.

(** C6. For well-formed face-points, [computeFacePoints] returns, and every
    destination record of the range is cleared and then receives each of the
    [n] source vertices its table entry lists, on the primary and on the
    varying attribute, with weight [1/n].  In exact arithmetic, for
    [n >= 3], the weights sum to [1] (the result is the mean of the sources,
    and constant sources are reproduced); a valence-4 face-point over
    [{A,B,C,D}] yields [(A+B+C+D)/4]. *)
Theorem computeFacePoints_contract :
  (forall (F U : Type) (FO : FloatOps F) (VO : VertexOps F U)
      (this : FarSubdivisionTables F) offset tableOffset start end_ (vsrc : list U),
    range_ok offset tableOffset start end_ vsrc ->
    (forall k, 0 <= k < end_ - start ->
       face_wf this (Z.of_nat (length vsrc)) (offset + start) (offset + end_)
         (start + tableOffset + k)) ->
    exists vsrc',
      computeFacePoints this offset tableOffset start end_ vsrc = Some vsrc' /\
      forall k, 0 <= k < end_ - start ->
        let i := start + tableOffset + k in
        exists d0 h n vs,
          elt vsrc (offset + start + k) = Some d0 /\
          elt (_F_ITa this) (2 * i) = Some h /\
          elt (_F_ITa this) (2 * i + 1) = Some n /\
          length vs = Z.to_nat n /\
          (forall j, 0 <= j < n ->
             exists v x, elt (_F_IT this) (h + j) = Some v /\
               elt vsrc v = Some x /\ vs !! Z.to_nat j = Some x) /\
          elt vsrc' (offset + start + k) =
            Some (faceRule d0 vs (fdiv (float_lit 1) (float_of_int n)))) /\
  (forall (d0 : QVertex) (vs : list QVertex) (n : Z),
    3 <= n -> length vs = Z.to_nat n ->
    let r := faceRule d0 vs (1 / inject_Z n)%Q in
    (inject_Z n * (1 / inject_Z n) == 1 /\
     pos r == sum_pos vs / inject_Z n /\
     vary r == sum_vary vs / inject_Z n /\
     (forall c, Forall (fun v => pos v == c) vs -> pos r == c))%Q) /\
  (forall d0 A B C D : QVertex,
    (pos (faceRule d0 [A; B; C; D] (1 / inject_Z 4)%Q) ==
     (pos A + pos B + pos C + pos D) / 4)%Q).
Proof.
  split; [|split].
  - intros F U FO VO this offset tableOffset start end_ vsrc Hrange Hwf.
    destruct (computeFacePoints_values this _ _ _ _ _ Hrange Hwf)
      as (vsrc' & Hrun & _ & Hval).
    exists vsrc'. split; [exact Hrun|].
    intros k Hk i. destruct (Hval k Hk) as (d0 & r & Hd0 & Hacc & Hr).
    unfold facePoint_acc in Hacc. inv_bind Hacc. injection Hacc as <-.
    match goal with
    | Hg : gather _ _ ?h ?n = Some ?vs |- _ =>
        exists d0, h, n, vs; repeat (split; [assumption|]);
        split; [exact (gather_length _ _ _ _ _ Hg)|];
        split; [intros j Hj; exact (gather_lookup _ _ _ _ _ _ Hg Hj)|assumption]
    end.
  - intros d0 vs n Hn Hlen r.
    assert (Hnz : ~ (inject_Z n == 0)%Q).
    { change 0%Q with (inject_Z 0). rewrite inject_Z_injective. lia. }
    destruct (faceRule_fold (1 / inject_Z n)%Q vs (Clear d0)) as [Hp Hv].
    fold (faceRule d0 vs (1 / inject_Z n)%Q) in Hp, Hv. fold r in Hp, Hv.
    simpl in Hp, Hv.
    split; [field; exact Hnz|].
    split; [rewrite Hp; field; exact Hnz|].
    split; [rewrite Hv; field; exact Hnz|].
    intros c Hc. rewrite Hp, (sum_pos_const vs c Hc), Hlen.
    rewrite Z2Nat.id by lia. field. exact Hnz.
  - intros d0 A B C D. unfold faceRule. simpl. field.
Qed.

Lemma computeFacePoints_contract_witness :
  range_ok 4 0 0 1 quad_buffer /\
  (forall k, 0 <= k < 1 - 0 ->
     face_wf quad_tables (Z.of_nat (length quad_buffer)) (4 + 0) (4 + 1) (0 + 0 + k)) /\
  (exists vsrc',
    computeFacePoints quad_tables 4 0 0 1 quad_buffer = Some vsrc' /\
    elt vsrc' 4 = Some (faceRule {| pos := 9; vary := 9 |}
                          [ {| pos := 1; vary := 10 |}; {| pos := 2; vary := 20 |};
                            {| pos := 3; vary := 30 |}; {| pos := 4; vary := 40 |} ]
                          (1 / inject_Z 4)%Q)) /\
  (pos (faceRule {| pos := 9; vary := 9 |}
          [ {| pos := 1; vary := 10 |}; {| pos := 2; vary := 20 |};
            {| pos := 3; vary := 30 |}; {| pos := 4; vary := 40 |} ]
          (1 / inject_Z 4)) == 10 / 4)%Q.
Proof.
  assert (Hrange : range_ok 4 0 0 1 quad_buffer) by (vm_compute; intuition discriminate).
  assert (Hwf : forall k, 0 <= k < 1 - 0 ->
     face_wf quad_tables (Z.of_nat (length quad_buffer)) (4 + 0) (4 + 1) (0 + 0 + k)).
  { intros k Hk. assert (k = 0) as -> by lia.
    exists 0, 4. split; [reflexivity|]. split; [reflexivity|].
    intros t Ht. unfold src_ok.
    assert (t = 0 \/ t = 1 \/ t = 2 \/ t = 3) as [->|[->|[->| ->]]] by lia;
      eexists; (split; [reflexivity|simpl; lia]). }
  split; [exact Hrange|]. split; [exact Hwf|]. split.
  - destruct (proj1 computeFacePoints_contract _ _ _ _ quad_tables 4 0 0 1 quad_buffer
                Hrange Hwf) as (vsrc' & Hrun & _).
    exists vsrc'. split; [exact Hrun|].
    vm_compute in Hrun. injection Hrun as <-. reflexivity.
  - destruct (proj1 (proj2 computeFacePoints_contract) {| pos := 9; vary := 9 |}
                [ {| pos := 1; vary := 10 |}; {| pos := 2; vary := 20 |};
                  {| pos := 3; vary := 30 |}; {| pos := 4; vary := 40 |} ] 4)
      as (_ & Hp & _); [lia|reflexivity|].
    rewrite Hp. reflexivity.
Defined.

(** ** The vertex-point kernel B *)

Section VertexPointsB.

Context {F U : Type} `{FloatOps F} `{VertexOps F U}.
Variable this : FarSubdivisionTables F.

(** A loop that folds two values per iteration. *)
Lemma iterate_fold2 {V : Type} (get : Z -> option V) (g : U -> V -> U) count :
  forall lo acc,
  iterate count lo
    (fun j acc => x0 ← get (j * 2); x1 ← get (j * 2 + 1); Some (g (g acc x0) x1)) acc =
  vs ← mapM get (seqZ (lo * 2) (2 * Z.of_nat count)); Some (fold_left g vs acc).
Proof.
  induction count as [|c IH]; intros lo acc; [reflexivity|].
  rewrite Nat2Z.inj_succ.
  rewrite (seqZ_cons (lo * 2)) by lia.
  rewrite (seqZ_cons (Z.succ (lo * 2))) by lia.
  replace (Z.succ (lo * 2)) with (lo * 2 + 1) by lia.
  replace (Z.succ (lo * 2 + 1)) with ((lo + 1) * 2) by lia.
  replace (Z.pred (Z.pred (2 * Z.succ (Z.of_nat c)))) with (2 * Z.of_nat c) by lia.
  simpl.
  destruct (get (lo * 2)) as [x0|]; simpl; [|reflexivity].
  destruct (get (lo * 2 + 1)) as [x1|]; simpl; [|reflexivity].
  rewrite IH.
  destruct (mapM get (seqZ ((lo + 1) * 2) (2 * Z.of_nat c))); reflexivity.
Qed.

Lemma vertexPointB_value i d b :
  vertexB_noalias this i d ->
  vertexPointB this i d b =
  d0 ← elt b d; r ← vertexPointB_acc this i b d0; Some (store d r b).
Proof.
  intros Hsrc. unfold vertexPointB, vertexPointB_acc. rewrite update_first.
  destruct (elt b d) as [d0|] eqn:Hd; simpl; [|reflexivity].
  apply elt_Some in Hd.
  destruct (elt (_V_ITa this) (5 * i)) as [h|] eqn:Hh; simpl; [|reflexivity].
  destruct (elt (_V_ITa this) (5 * i + 1)) as [n|] eqn:Hn; simpl; [|reflexivity].
  destruct (elt (_V_ITa this) (5 * i + 2)) as [p|] eqn:Hp; simpl; [|reflexivity].
  destruct (elt (_V_W this) i) as [s|]; simpl; [|reflexivity].
  destruct (int (n * n)) as [nn|] eqn:Hnn; simpl; [|reflexivity].
  apply int_Some in Hnn as [-> _].
  destruct (Hsrc h n p Hh Hn Hp) as [Hpd Hvd].
  rewrite addWithWeight_store by assumption.
  destruct (elt b p) as [vp|] eqn:Hvp; simpl; [|reflexivity].
  unfold for_loop, gather, smoothRule. fold (wpB n).
  rewrite (iterate_store b d _
    (fun j acc =>
       x0 ← (v ← elt (_V_IT this) (h + j * 2); elt b v);
       x1 ← (v ← elt (_V_IT this) (h + (j * 2 + 1)); elt b v);
       Some (AddWithWeight (AddWithWeight acc x0 (fmul s (wpB n))) x1 (fmul s (wpB n))))).
  - rewrite (iterate_fold2 (fun t => v ← elt (_V_IT this) (h + t); elt b v)
               (fun acc x => AddWithWeight acc x (fmul s (wpB n)))).
    replace (2 * Z.of_nat (Z.to_nat (n - 0))) with (Z.of_nat (Z.to_nat (2 * n))) by lia.
    rewrite seqZ_to_nat. change (0 * 2) with 0.
    destruct (mapM _ _) as [vs|]; simpl; [|reflexivity].
    rewrite addVaryingWithWeight_store, Hvp by assumption. reflexivity.
  - intros j acc Hj.
    destruct (elt (_V_IT this) (h + j * 2)) as [v0|] eqn:Hv0; simpl; [|reflexivity].
    assert (v0 <> d).
    { apply (Hvd (j * 2)); [lia|]. assumption. }
    rewrite addWithWeight_store by assumption.
    destruct (elt b v0) as [x0|]; simpl; [|reflexivity].
    replace (h + j * 2 + 1) with (h + (j * 2 + 1)) by lia.
    destruct (elt (_V_IT this) (h + (j * 2 + 1))) as [v1|] eqn:Hv1; simpl; [|reflexivity].
    assert (v1 <> d).
    { apply (Hvd (j * 2 + 1)); [lia|]. assumption. }
    rewrite addWithWeight_store by assumption.
    destruct (elt b v1) as [x1|]; simpl; reflexivity.
Qed.

Lemma vertexB_wf_noalias len dlo dhi i d :
  vertexB_wf this len dlo dhi i -> dlo <= d < dhi -> vertexB_noalias this i d.
Proof.
  intros (h & n & p & Hh & Hn & Hp & _ & _ & [_ Hpo] & Hok) Hd h' n' p' Hh' Hn' Hp'.
  rewrite Hh in Hh'. rewrite Hn in Hn'. rewrite Hp in Hp'.
  injection Hh' as <-. injection Hn' as <-. injection Hp' as <-.
  split; [lia|]. intros t v Ht Hv.
  destruct (Hok t Ht) as (v' & Hv' & [_ Hout]).
  rewrite Hv in Hv'. injection Hv' as <-. lia.
Qed.

Lemma vertexPointB_acc_local len dlo dhi k i vsrc b d0 :
  len = Z.of_nat (length vsrc) ->
  vertexB_wf this len dlo dhi i -> frame dlo (dlo + k) vsrc b -> dlo + k <= dhi ->
  vertexPointB_acc this i b d0 = vertexPointB_acc this i vsrc d0 /\
  is_Some (vertexPointB_acc this i vsrc d0).
Proof.
  intros -> (h & n & p & Hh & Hn & Hp & [s Hs] & Hnn & Hsp & Hok) Hfr Hk.
  unfold vertexPointB_acc. rewrite Hh, Hn, Hp, Hs. simpl.
  rewrite (proj2 (int_Some _ _) (conj eq_refl Hnn)). simpl.
  destruct (src_ok_elt _ _ _ _ _ _ Hsp Hfr Hk) as [-> [vp ->]]. simpl.
  destruct (gather_local _ _ _ _ _ _ _ _ Hok Hfr Hk) as [-> [vs ->]].
  simpl. eauto.
Qed.

Lemma computeVertexPointsB_values offset tableOffset start end_ vsrc :
  range_ok offset tableOffset start end_ vsrc ->
  (forall k, 0 <= k < end_ - start ->
     vertexB_wf this (Z.of_nat (length vsrc)) (offset + start) (offset + end_)
       (start + tableOffset + k)) ->
  exists vsrc',
    computeVertexPointsB this offset tableOffset start end_ vsrc = Some vsrc' /\
    frame (offset + start) (offset + end_) vsrc vsrc' /\
    forall k, 0 <= k < end_ - start ->
      exists d0 r,
        elt vsrc (offset + start + k) = Some d0 /\
        vertexPointB_acc this (start + tableOffset + k) vsrc d0 = Some r /\
        elt vsrc' (offset + start + k) = Some r.
Proof.
  intros Hrange Hwf. apply kernel_loop_correct; try assumption.
  - apply vertexPointB_frame.
  - intros k b Hk _. apply vertexPointB_value.
    eapply vertexB_wf_noalias; [apply (Hwf k Hk)|lia].
  - intros k b d0 Hk Hfr.
    eapply vertexPointB_acc_local; [reflexivity|apply (Hwf k Hk)|exact Hfr|lia].
  - intros k d0 Hk _.
    eapply (vertexPointB_acc_local _ _ _ 0); [reflexivity|apply (Hwf k Hk)|apply frame_refl|lia].
Qed.

End VertexPointsB.

(** ** Claims about the vertex-point kernel B *)

Lemma smoothRule_fold (w : Q) (vs : list QVertex) : forall acc,
  let r := fold_left (fun acc v => AddWithWeight acc v w) vs acc in
  (pos r == pos acc + w * sum_pos vs /\ vary r == vary acc)%Q.
Proof.
  induction vs as [|v vs IH]; intros acc; simpl.
  - split; [ring|reflexivity].
  - destruct (IH (AddWithWeight acc v w)) as [-> ->]. simpl. split; [ring|reflexivity].
Qed.

(** C4. For well-formed vertex-points, [computeVertexPointsB] returns, and
    every destination record of the range is cleared and then receives, with
    [wp = 1/(n*n)] and [wv = (n-2)*n*wp], the parent with weight [s*wv] and
    each of the [2*n] stored neighbor indices with weight [s*wp]; the stored
    weight [s] is used as it is.  In exact arithmetic, for [n = 4] and
    [s = 1], the primary attribute is [0.5*parent] plus [1/16] times the sum
    of the eight neighbor contributions. *)
Theorem computeVertexPointsB_contract :
  (forall (F U : Type) (FO : FloatOps F) (VO : VertexOps F U)
      (this : FarSubdivisionTables F) offset tableOffset start end_ (vsrc : list U),
    range_ok offset tableOffset start end_ vsrc ->
    (forall k, 0 <= k < end_ - start ->
       vertexB_wf this (Z.of_nat (length vsrc)) (offset + start) (offset + end_)
         (start + tableOffset + k)) ->
    exists vsrc',
      computeVertexPointsB this offset tableOffset start end_ vsrc = Some vsrc' /\
      forall k, 0 <= k < end_ - start ->
        let i := start + tableOffset + k in
        exists d0 h n p s vp vs,
          elt vsrc (offset + start + k) = Some d0 /\
          elt (_V_ITa this) (5 * i) = Some h /\
          elt (_V_ITa this) (5 * i + 1) = Some n /\
          elt (_V_ITa this) (5 * i + 2) = Some p /\
          elt (_V_W this) i = Some s /\
          elt vsrc p = Some vp /\
          length vs = Z.to_nat (2 * n) /\
          (forall t, 0 <= t < 2 * n ->
             exists v x, elt (_V_IT this) (h + t) = Some v /\
               elt vsrc v = Some x /\ vs !! Z.to_nat t = Some x) /\
          let wp := fdiv (float_lit 1) (float_of_int (n * n)) in
          let wv := fmul (fmul (fsub (float_of_int n) (float_lit 2)) (float_of_int n)) wp in
          elt vsrc' (offset + start + k) =
            Some (smoothRule d0 vp vs (fmul s wv) (fmul s wp))) /\
  (forall (d0 vp : QVertex) (vs : list QVertex),
    let r := smoothRule d0 vp vs (1 * wvB 4)%Q (1 * wpB 4)%Q in
    (wpB 4 == 1 # 16 /\ wvB 4 == 1 # 2 /\
     pos r == (1 # 2) * pos vp + (1 # 16) * sum_pos vs /\
     vary r == vary vp)%Q).
Proof.
  split.
  - intros F U FO VO this offset tableOffset start end_ vsrc Hrange Hwf.
    destruct (computeVertexPointsB_values this _ _ _ _ _ Hrange Hwf)
      as (vsrc' & Hrun & _ & Hval).
    exists vsrc'. split; [exact Hrun|].
    intros k Hk i. destruct (Hval k Hk) as (d0 & r & Hd0 & Hacc & Hr).
    unfold vertexPointB_acc in Hacc. inv_bind Hacc. injection Hacc as <-.
    match goal with
    | Hg : gather _ _ ?h (2 * ?n) = Some ?vs, Hp : elt vsrc ?p = Some ?vp,
      Hs : elt (_V_W this) _ = Some ?s |- _ =>
        exists d0, h, n, p, s, vp, vs; repeat (split; [assumption|]);
        split; [exact (gather_length _ _ _ _ _ Hg)|];
        split; [intros t Ht; exact (gather_lookup _ _ _ _ _ _ Hg Ht)|exact Hr]
    end.
  - intros d0 vp vs r. unfold r, smoothRule.
    destruct (smoothRule_fold (1 * wpB 4)%Q vs (AddWithWeight (Clear d0) vp (1 * wvB 4)%Q))
      as [Hp Hv].
    assert (Hwp : (wpB 4 == 1 # 16)%Q) by reflexivity.
    assert (Hwv : (wvB 4 == 1 # 2)%Q) by reflexivity.
    split; [exact Hwp|]. split; [exact Hwv|].
    cbn [pos vary AddVaryingWithWeight QVertexOps]. rewrite Hp, Hv.
    cbn [pos vary AddWithWeight Clear QVertexOps float_lit QFloat].
    rewrite Hwp, Hwv. split; ring.
Qed.

Lemma computeVertexPointsB_contract_witness :
  range_ok 4 0 0 1 quad_buffer /\
  (forall k, 0 <= k < 1 - 0 ->
     vertexB_wf quad_tables (Z.of_nat (length quad_buffer)) (4 + 0) (4 + 1) (0 + 0 + k)) /\
  exists vsrc' r,
    computeVertexPointsB quad_tables 4 0 0 1 quad_buffer = Some vsrc' /\
    elt vsrc' 4 = Some r /\
    (pos r == (1 # 2) * 1 + (1 # 16) * (2 + 3 + 4 + 2 + 3 + 4 + 2 + 3))%Q /\
    (vary r == 10)%Q.
Proof.
  assert (Hrange : range_ok 4 0 0 1 quad_buffer) by (vm_compute; intuition discriminate).
  assert (Hwf : forall k, 0 <= k < 1 - 0 ->
     vertexB_wf quad_tables (Z.of_nat (length quad_buffer)) (4 + 0) (4 + 1) (0 + 0 + k)).
  { intros k Hk. assert (k = 0) as -> by lia.
    exists 0, 4, 0. unfold src_ok. simpl.
    repeat split; eauto; try lia; try (vm_compute; discriminate).
    intros t Ht. unfold src_ok.
    assert (t = 0 \/ t = 1 \/ t = 2 \/ t = 3 \/ t = 4 \/ t = 5 \/ t = 6 \/ t = 7)
      as [->|[->|[->|[->|[->|[->|[->| ->]]]]]]] by lia;
      eexists; (split; [reflexivity|simpl; lia]). }
  split; [exact Hrange|]. split; [exact Hwf|].
  destruct (proj1 computeVertexPointsB_contract _ _ _ _ quad_tables 4 0 0 1 quad_buffer
              Hrange Hwf) as (vsrc' & Hrun & _).
  exists vsrc'. vm_compute in Hrun. injection Hrun as <-.
  eexists. split; [reflexivity|]. split; [reflexivity|]. split; reflexivity.
Defined.

(** C9, as amended. Kernel B divides by [n*n], computed in [int], without a
    guard.  Under the precondition that every table entry of the range has a
    valence [1 <= n <= 46340] and a valid neighbor offset, the kernel
    returns (every index read is in bounds) and the divisor [n*n] is an
    [int] and is not zero.  The kernel never examines the crease-edge
    entries, and it treats the valences [0] and [-1] like any other: with
    [0] it divides by zero, with the sentinel [-1] it adds the parent with
    [wv = (-1-2)*(-1)*wp], that is [3] in exact arithmetic, and no
    neighbor. *)
Theorem computeVertexPointsB_precondition :
  (forall (F U : Type) (FO : FloatOps F) (VO : VertexOps F U)
      (this : FarSubdivisionTables F) offset tableOffset start end_ (vsrc : list U),
    range_ok offset tableOffset start end_ vsrc ->
    (forall k, 0 <= k < end_ - start ->
       vertexB_valid this (Z.of_nat (length vsrc)) (offset + start) (offset + end_)
         (start + tableOffset + k)) ->
    (forall k n, 0 <= k < end_ - start ->
       elt (_V_ITa this) (5 * (start + tableOffset + k) + 1) = Some n -> n <= 46340) ->
    exists vsrc',
      computeVertexPointsB this offset tableOffset start end_ vsrc = Some vsrc' /\
      forall k, 0 <= k < end_ - start ->
        exists n,
          elt (_V_ITa this) (5 * (start + tableOffset + k) + 1) = Some n /\
          int (n * n) = Some (n * n) /\ n * n <> 0) /\
  (forall (F U : Type) (FO : FloatOps F) (VO : VertexOps F U)
      (this this' : FarSubdivisionTables F) i d (b : list U),
    _V_IT this' = _V_IT this -> _V_W this' = _V_W this ->
    (forall j, j <> 5 * i + 3 -> j <> 5 * i + 4 ->
       elt (_V_ITa this') j = elt (_V_ITa this) j) ->
    vertexPointB this' i d b = vertexPointB this i d b) /\
  (forall (F U : Type) (FO : FloatOps F) (VO : VertexOps F U)
      (this : FarSubdivisionTables F) i d (b : list U) d0 h n p s vp,
    n = 0 \/ n = -1 ->
    elt b d = Some d0 ->
    elt (_V_ITa this) (5 * i) = Some h ->
    elt (_V_ITa this) (5 * i + 1) = Some n ->
    elt (_V_ITa this) (5 * i + 2) = Some p ->
    elt (_V_W this) i = Some s ->
    p <> d -> elt b p = Some vp ->
    vertexPointB this i d b =
      Some (store d (smoothRule d0 vp [] (fmul s (wvB n)) (fmul s (wpB n))) b)) /\
  (forall (F : Type) (FO : FloatOps F),
    wpB 0 = fdiv (float_lit 1) (float_of_int 0)) /\
  (wpB (-1) == 1 /\ wvB (-1) == 3)%Q.
Proof.
  split; [|split; [|split; [|split]]].
  - intros F U FO VO this offset tableOffset start end_ vsrc Hrange Hpre Hmax.
    assert (Hwf : forall k, 0 <= k < end_ - start ->
      vertexB_wf this (Z.of_nat (length vsrc)) (offset + start) (offset + end_)
        (start + tableOffset + k)).
    { intros k Hk. destruct (Hpre k Hk) as (h & n & p & Hh & Hn & Hp & Hs & Hn1 & Hsp & Hok).
      pose proof (Hmax k n Hk Hn) as Hn2.
      exists h, n, p. repeat (split; [assumption|]).
      split; [|split; assumption]. unfold INT_MIN, INT_MAX. nia. }
    destruct (computeVertexPointsB_values this _ _ _ _ _ Hrange Hwf)
      as (vsrc' & Hrun & _ & _).
    exists vsrc'. split; [exact Hrun|].
    intros k Hk. destruct (Hpre k Hk) as (h & n & p & _ & Hn & _ & _ & Hn1 & _).
    pose proof (Hmax k n Hk Hn) as Hn2.
    exists n. split; [exact Hn|]. split; [|nia].
    apply int_Some. split; [reflexivity|]. unfold INT_MIN, INT_MAX. nia.
  - intros F U FO VO this this' i d b HIT HW HITa. unfold vertexPointB.
    rewrite HIT, HW, !HITa by lia. reflexivity.
  - intros F U FO VO this i d b d0 h n p s vp Hn Hd Hh Hnn Hp Hs Hpd Hvp.
    rewrite vertexPointB_value.
    + rewrite Hd. simpl. unfold vertexPointB_acc. rewrite Hh, Hnn, Hp, Hs. simpl.
      assert (Hint : int (n * n) = Some (n * n)).
      { apply int_Some. split; [reflexivity|]. unfold INT_MIN, INT_MAX.
        destruct Hn as [-> | ->]; lia. }
      rewrite Hint, Hvp. simpl. unfold gather. rewrite seqZ_nil by lia. reflexivity.
    + intros h' n' p' Hh' Hn' Hp'.
      rewrite Hnn in Hn'. rewrite Hp in Hp'. injection Hn' as <-. injection Hp' as <-.
      split; [exact Hpd|]. intros t v Ht. lia.
  - reflexivity.
  - split; reflexivity.
Qed.

Lemma computeVertexPointsB_precondition_witness :
  range_ok 4 0 0 1 quad_buffer /\
  (forall k, 0 <= k < 1 - 0 ->
     vertexB_valid quad_tables (Z.of_nat (length quad_buffer)) (4 + 0) (4 + 1) (0 + 0 + k)) /\
  (forall k n, 0 <= k < 1 - 0 ->
     elt (_V_ITa quad_tables) (5 * (0 + 0 + k) + 1) = Some n -> n <= 46340) /\
  is_Some (computeVertexPointsB quad_tables 4 0 0 1 quad_buffer) /\
  vertexPointB blend_tables_smooth 0 4 quad_buffer = vertexPointB blend_tables 0 4 quad_buffer /\
  vertexPointB quad_tables 1 4 quad_buffer =
    Some (store 4 (smoothRule {| pos := 9; vary := 9 |} {| pos := 1; vary := 10 |} []
                     (0.25 * wvB (-1))%Q (0.25 * wpB (-1))%Q) quad_buffer).
Proof.
  assert (Hrange : range_ok 4 0 0 1 quad_buffer) by (vm_compute; intuition discriminate).
  assert (Hpre : forall k, 0 <= k < 1 - 0 ->
     vertexB_valid quad_tables (Z.of_nat (length quad_buffer)) (4 + 0) (4 + 1) (0 + 0 + k)).
  { intros k Hk. assert (k = 0) as -> by lia.
    exists 0, 4, 0. unfold src_ok. simpl.
    repeat split; eauto; try lia.
    intros t Ht. unfold src_ok.
    assert (t = 0 \/ t = 1 \/ t = 2 \/ t = 3 \/ t = 4 \/ t = 5 \/ t = 6 \/ t = 7)
      as [->|[->|[->|[->|[->|[->|[->| ->]]]]]]] by lia;
      eexists; (split; [reflexivity|simpl; lia]). }
  assert (Hmax : forall k n, 0 <= k < 1 - 0 ->
     elt (_V_ITa quad_tables) (5 * (0 + 0 + k) + 1) = Some n -> n <= 46340).
  { intros k n Hk. assert (k = 0) as -> by lia. simpl. intros [= <-]. lia. }
  split; [exact Hrange|]. split; [exact Hpre|]. split; [exact Hmax|].
  destruct computeVertexPointsB_precondition as (Hsafe & Hcrease & Hsentinel & _).
  split; [|split].
  - destruct (Hsafe _ _ _ _ quad_tables 4 0 0 1 quad_buffer Hrange Hpre Hmax)
      as (vsrc' & Hrun & _).
    exists vsrc'. exact Hrun.
  - apply Hcrease; [reflexivity|reflexivity|].
    intros j H3 H4. destruct (decide (0 <= j < 5)) as [Hj|Hj].
    + assert (j = 0 \/ j = 1 \/ j = 2) as [->|[->| ->]] by lia; reflexivity.
    + rewrite !elt_None by (simpl; lia). reflexivity.
  - apply (Hsentinel Q QVertex QFloat QVertexOps quad_tables 1 4 quad_buffer
             {| pos := 9; vary := 9 |} 0 (-1) 0 0.25%Q {| pos := 1; vary := 10 |});
      try reflexivity; [right; reflexivity|discriminate].
Defined.

(** C9, as stated, fails: a vertex of valence [46341] with a valid neighbor
    offset satisfies the stated precondition, but [n*n] is not an [int] and
    the behaviour of the kernel is undefined. *)
Lemma computeVertexPointsB_precondition_counterexample :
  range_ok 1 0 0 1 corner0_buffer /\
  (forall k, 0 <= k < 1 - 0 ->
     vertexB_valid fan_tables (Z.of_nat (length corner0_buffer)) (1 + 0) (1 + 1)
       (0 + 0 + k)) /\
  INT_MAX < 46341 * 46341 /\
  computeVertexPointsB fan_tables 1 0 0 1 corner0_buffer = None.
Proof.
  split; [vm_compute; intuition discriminate|]. split; [|split].
  - intros k Hk. assert (k = 0) as -> by lia.
    exists 0, 46341, 0.
    split; [reflexivity|]. split; [reflexivity|]. split; [reflexivity|].
    split; [eexists; reflexivity|]. split; [lia|].
    split; [unfold src_ok; simpl; lia|].
    intros t Ht. exists 0. split.
    + unfold elt. destruct (decide _); [|lia].
      apply lookup_replicate_2. lia.
    + unfold src_ok. simpl. lia.
  - reflexivity.
  - vm_compute. reflexivity.
Qed.

(** ** The edge index table holds four entries per edge-point *)

(** C10. Whenever [computeEdgePoints] runs without undefined behaviour, all
    four index entries [_E_IT[4*i+0..3]] of every edge-point of the range
    were loaded, whatever the value of [e2]: the index table holds four
    entries per edge-point, boundary edges included.  When [e2 = -1] the
    iteration depends on nothing else of [e2], [e3]: neither the records at
    these indices nor the face weight [_E_W[2*i+1]] need to exist. *)
Theorem computeEdgePoints_four_entries :
  (forall (F U : Type) (FO : FloatOps F) (VO : VertexOps F U)
      (this : FarSubdivisionTables F) offset tableOffset start end_ (vsrc vsrc' : list U),
    computeEdgePoints this offset tableOffset start end_ vsrc = Some vsrc' ->
    forall k, 0 <= k < end_ - start ->
      let i := start + tableOffset + k in
      (exists e0 e1 e2 e3,
         elt (_E_IT this) (4 * i + 0) = Some e0 /\
         elt (_E_IT this) (4 * i + 1) = Some e1 /\
         elt (_E_IT this) (4 * i + 2) = Some e2 /\
         elt (_E_IT this) (4 * i + 3) = Some e3) /\
      0 <= 4 * i /\ 4 * i + 3 < Z.of_nat (length (_E_IT this))) /\
  (forall (F U : Type) (FO : FloatOps F) (VO : VertexOps F U)
      (this : FarSubdivisionTables F) i d (b : list U) d0 e0 e1 e3 wV v0 v1,
    elt b d = Some d0 ->
    elt (_E_IT this) (4 * i + 0) = Some e0 ->
    elt (_E_IT this) (4 * i + 1) = Some e1 ->
    elt (_E_IT this) (4 * i + 2) = Some (-1) ->
    elt (_E_IT this) (4 * i + 3) = Some e3 ->
    elt (_E_W this) (i * 2 + 0) = Some wV ->
    e0 <> d -> e1 <> d ->
    elt b e0 = Some v0 -> elt b e1 = Some v1 ->
    edgePoint this i d b = Some (store d (edgeRule d0 v0 v1 wV None) b)).
Proof.
  split.
  - intros F U FO VO this offset tableOffset start end_ vsrc vsrc' Hrun k Hk i.
    destruct (kernel_loop_spec _ (edgePoint_frame this) _ _ _ _ _ _ Hrun) as [_ Hiter].
    destruct (Hiter k Hk) as (bk & bk' & _ & Hbody & _). fold i in Hbody.
    unfold edgePoint in Hbody. inv_bind Hbody.
    repeat match goal with
    | He : elt (_E_IT this) _ = Some _ |- _ =>
        pose proof (elt_Some _ _ _ He); revert He
    end.
    intros. split; [eauto 8|lia].
  - intros F U FO VO this i d b d0 e0 e1 e3 wV v0 v1 Hd He0 He1 He2 He3 HwV Hn0 Hn1 Hv0 Hv1.
    rewrite edgePoint_value.
    + rewrite Hd. simpl. unfold edgePoint_acc.
      rewrite He0, He1, He2, He3, HwV. simpl. rewrite Hv0, Hv1. reflexivity.
    + intros e0' e1' e2' e3' He0' He1' He2' He3'.
      rewrite He0 in He0'. rewrite He1 in He1'. rewrite He2 in He2'.
      injection He0' as <-. injection He1' as <-. injection He2' as <-.
      split; [assumption|]. split; [assumption|]. intros Hne. contradiction.
Qed.

Lemma computeEdgePoints_four_entries_witness :
  (exists vsrc', computeEdgePoints quad_tables 4 0 0 2 quad_buffer = Some vsrc') /\
  4 * (0 + 0 + 1) + 3 < Z.of_nat (length (_E_IT quad_tables)) /\
  edgePoint quad_tables 1 5 quad_buffer =
    Some (store 5 (edgeRule {| pos := 9; vary := 9 |}
                     {| pos := 1; vary := 10 |} {| pos := 2; vary := 20 |} 0.5%Q None)
            quad_buffer) /\
  computeEdgePoints short_edge_tables 2 0 0 1
    [ {| pos := 1; vary := 1 |}; {| pos := 2; vary := 2 |}; {| pos := 0; vary := 0 |} ] = None.
Proof.
  assert (Hrun : exists vsrc', computeEdgePoints quad_tables 4 0 0 2 quad_buffer = Some vsrc')
    by (eexists; vm_compute; reflexivity).
  split; [exact Hrun|]. destruct Hrun as [vsrc' Hrun]. split; [|split].
  - apply (proj1 computeEdgePoints_four_entries _ _ _ _ quad_tables 4 0 0 2
             quad_buffer vsrc' Hrun 1). lia.
  - apply (proj2 computeEdgePoints_four_entries Q QVertex QFloat QVertexOps
             quad_tables 1 5 quad_buffer
             {| pos := 9; vary := 9 |} 0 1 (-1) 0.5%Q
             {| pos := 1; vary := 10 |} {| pos := 2; vary := 20 |});
      try reflexivity; discriminate.
  - vm_compute. reflexivity.
Defined.

(** ** Frame of a kernel invocation *)

Section Invoke.

Context {F U : Type} `{FloatOps F} `{VertexOps F U}.

Lemma kernel_body_frame this K i vdst (b b' : list U) :
  kernel_body this K i vdst b = Some b' -> frame vdst (vdst + 1) b b'.
Proof.
  destruct K; simpl.
  - apply facePoint_frame.
  - apply edgePoint_frame.
  - apply vertexPointA_frame.
  - apply vertexPointB_frame.
Qed.

Lemma invoke_kernel_loop K offset tableOffset start end_ m m' :
  invoke K offset tableOffset start end_ m = Some m' ->
  tables m' = tables m /\
  kernel_loop (kernel_body (tables m) K) offset tableOffset start end_ (vertices m) =
    Some (vertices m').
Proof.
  unfold invoke. intros Hrun. inv_bind Hrun. injection Hrun as <-. simpl.
  split; [reflexivity|]. destruct K; assumption.
Qed.

End Invoke.

(** C7. Every invocation of the four kernels that runs without undefined
    behaviour leaves the seven topology tables as they were and writes only
    the records at the buffer indices [offset+start], ..., [offset+end-1]:
    the buffer keeps its length and every record outside that range is
    unchanged.  The record at [offset+start+k] is written by iteration [k]
    alone: that iteration runs on a buffer in which only the records before
    it in the range have changed, it changes no record but its own, and what
    it leaves there is what the invocation leaves there. *)
Theorem kernel_frame {F U : Type} `{FloatOps F} `{VertexOps F U}
    (K : Kernel) (offset tableOffset start end_ : Z) (m m' : Memory F U) :
  invoke K offset tableOffset start end_ m = Some m' ->
  (_F_ITa (tables m') = _F_ITa (tables m) /\
   _F_IT (tables m') = _F_IT (tables m) /\
   _E_IT (tables m') = _E_IT (tables m) /\
   _E_W (tables m') = _E_W (tables m) /\
   _V_ITa (tables m') = _V_ITa (tables m) /\
   _V_IT (tables m') = _V_IT (tables m) /\
   _V_W (tables m') = _V_W (tables m)) /\
  length (vertices m') = length (vertices m) /\
  (forall j, ~ (offset + start <= j < offset + end_) ->
     elt (vertices m') j = elt (vertices m) j) /\
  (forall k, 0 <= k < end_ - start ->
     exists bk bk',
       frame (offset + start) (offset + start + k) (vertices m) bk /\
       kernel_body (tables m) K (start + tableOffset + k) (offset + start + k) bk = Some bk' /\
       frame (offset + start + k) (offset + start + k + 1) bk bk' /\
       elt (vertices m') (offset + start + k) = elt bk' (offset + start + k)).
Proof.
  intros Hrun. apply invoke_kernel_loop in Hrun as [-> Hrun].
  split; [repeat split|].
  destruct (kernel_loop_spec _ (kernel_body_frame (tables m) K) _ _ _ _ _ _ Hrun)
    as [[Hlen Hout] Hiter].
  split; [exact Hlen|]. split; [exact Hout|].
  intros k Hk. destruct (Hiter k Hk) as (bk & bk' & Hfk & Hbody & Hfin).
  exists bk, bk'. split; [exact Hfk|]. split; [exact Hbody|].
  split; [|exact Hfin]. eapply kernel_body_frame, Hbody.
Qed.

Lemma kernel_frame_witness :
  exists m',
    invoke EdgePoints 4 0 0 2 {| tables := quad_tables; vertices := quad_buffer |} = Some m' /\
    tables m' = quad_tables /\
    length (vertices m') = length quad_buffer /\
    elt (vertices m') 3 = elt quad_buffer 3.
Proof.
  assert (Hrun : exists m',
    invoke EdgePoints 4 0 0 2 {| tables := quad_tables; vertices := quad_buffer |} = Some m')
    by (eexists; vm_compute; reflexivity).
  destruct Hrun as [m' Hrun]. exists m'. split; [exact Hrun|].
  destruct (kernel_frame EdgePoints 4 0 0 2 _ m' Hrun) as (_ & Hlen & Hout & _).
  split; [|split; [exact Hlen|apply Hout; lia]].
  vm_compute in Hrun. injection Hrun as <-. reflexivity.
Defined.

(** ** The table slots of the compute context *)

Lemma assign_Some {A : Type} (i : nat) (x : A) (v v' : list A) :
  assign i x v = Some v' <-> (i < length v)%nat /\ v' = <[i := x]> v.
Proof.
  unfold assign. destruct (decide _); split.
  - intros [= <-]. auto.
  - intros [_ ->]. reflexivity.
  - discriminate.
  - tauto.
Qed.

Lemma assign_is_Some {A : Type} (i : nat) (x : A) (v : list A) :
  (i < length v)%nat ->
  exists v', assign i x v = Some v' /\ length v' = length v /\
    v' !! i = Some x /\ forall j, j <> i -> v' !! j = v !! j.
Proof.
  intros Hi. exists (<[i := x]> v). split; [apply assign_Some; auto|].
  split; [apply length_insert|].
  split; [apply list_lookup_insert_eq, Hi|].
  intros j Hj. apply list_lookup_insert_ne. auto.
Qed.

(** Rewrites the length of a vector to the length it had before the
    assignments. *)
Ltac assign_length :=
  repeat match goal with
  | Hl : length ?l = _ |- context [length ?l] => rewrite Hl
  end; try reflexivity.

(** Runs the next assignment of the goal, whose index is below the length by
    [Hlt]. *)
Ltac assign_step Hlt :=
  match goal with
  | |- context [assign ?i ?x ?v] =>
      let l := fresh "l" in
      let Hl := fresh "Hl" in
      let Hs := fresh "Hs" in
      let Ho := fresh "Ho" in
      destruct (assign_is_Some i x v) as (l & -> & Hl & Hs & Ho);
      [assign_length; apply Hlt|simpl]
  end.

(** Reads a slot after the assignments: skips the assignments to other
    slots ([Hne]) down to the one that set it. *)
Ltac assign_lookup Hne :=
  repeat first
    [ eassumption
    | match goal with
      | Ho : (forall j, j <> _ -> ?l !! j = _) |- context [?l !! _] =>
          rewrite Ho by (apply Hne; discriminate)
      end ].

(** C8. [GetNumTables] of every [FarCatmarkSubdivisionTables] is [7] and its
    scheme is [CATMARK].  For table types numbered injectively below seven,
    the constructor of the compute context returns a context with seven
    table slots, of which the five edge and vertex tables are always
    constructed, and the two face tables [F_IT], [F_ITa] are constructed if
    the subdivision tables report more than five tables and are null
    otherwise; for Catmull-Clark tables they are constructed. *)
Theorem compute_context_tables (table_index : TableType -> nat) :
  (forall t, (table_index t < 7)%nat) ->
  (forall t t', table_index t = table_index t' -> t = t') ->
  (forall (F : Type) (c : FarCatmarkSubdivisionTables F),
     GetNumTables c = 7 /\ GetScheme c = CATMARK) /\
  (forall (T F B : Type) (cls : FarSubdivisionTablesClass T F)
      (subdivisionTables : T) (vertexEditTables : option (list B)),
    exists ctx,
      new_OsdGLSLTransformFeedbackComputeContext table_index
        subdivisionTables vertexEditTables = Some ctx /\
      length (_tables ctx) = 7%nat /\
      (forall t, t <> F_IT -> t <> F_ITa ->
         exists tbl, GetTable table_index ctx t = Some (Some tbl)) /\
      (5 < GetNumTables subdivisionTables ->
         GetTable table_index ctx F_IT =
           Some (Some {| table_data := IntData (_F_IT (base subdivisionTables));
                         table_type := GL_R32UI |}) /\
         GetTable table_index ctx F_ITa =
           Some (Some {| table_data := IntData (_F_ITa (base subdivisionTables));
                         table_type := GL_R32I |})) /\
      (GetNumTables subdivisionTables <= 5 ->
         GetTable table_index ctx F_IT = Some None /\
         GetTable table_index ctx F_ITa = Some None)) /\
  (forall (F B : Type) (c : FarCatmarkSubdivisionTables F)
      (vertexEditTables : option (list B)),
    exists ctx fit fita,
      new_OsdGLSLTransformFeedbackComputeContext table_index c vertexEditTables = Some ctx /\
      GetTable table_index ctx F_IT = Some (Some fit) /\
      GetTable table_index ctx F_ITa = Some (Some fita)).
Proof.
  intros Hlt Hinj.
  assert (Hne : forall t t', t <> t' -> table_index t <> table_index t').
  { intros t t' Htt E. apply Htt, Hinj, E. }
  assert (Hctx : forall (T F B : Type) (cls : FarSubdivisionTablesClass T F)
      (subdivisionTables : T) (vertexEditTables : option (list B)),
    exists ctx,
      new_OsdGLSLTransformFeedbackComputeContext table_index
        subdivisionTables vertexEditTables = Some ctx /\
      length (_tables ctx) = 7%nat /\
      (forall t, t <> F_IT -> t <> F_ITa ->
         exists tbl, GetTable table_index ctx t = Some (Some tbl)) /\
      (5 < GetNumTables subdivisionTables ->
         GetTable table_index ctx F_IT =
           Some (Some {| table_data := IntData (_F_IT (base subdivisionTables));
                         table_type := GL_R32UI |}) /\
         GetTable table_index ctx F_ITa =
           Some (Some {| table_data := IntData (_F_ITa (base subdivisionTables));
                         table_type := GL_R32I |})) /\
      (GetNumTables subdivisionTables <= 5 ->
         GetTable table_index ctx F_IT = Some None /\
         GetTable table_index ctx F_ITa = Some None)).
  { intros T F B cls st edits.
    unfold new_OsdGLSLTransformFeedbackComputeContext, GetTable.
    set (l0 := replicate 7 None).
    assert (Hl0 : length l0 = 7%nat) by reflexivity.
    do 5 assign_step Hlt.
    destruct (Z.ltb_spec 5 (GetNumTables st)) as [Hn|Hn]; do 2 assign_step Hlt;
      (eexists; split; [reflexivity|]; simpl; split; [assign_length|]);
      (split; [|split]).
    - intros t Ht1 Ht2. destruct t; try contradiction; eexists; assign_lookup Hne.
    - intros _. split; assign_lookup Hne.
    - intros Hle. lia.
    - intros t Ht1 Ht2. destruct t; try contradiction; eexists; assign_lookup Hne.
    - intros Hgt. lia.
    - intros _. split; assign_lookup Hne. }
  split; [intros F c; split; reflexivity|]. split; [exact Hctx|].
  intros F B c edits.
  destruct (Hctx _ F B _ c edits) as (ctx & Hnew & _ & _ & Hface & _).
  destruct Hface as [Hfit Hfita]; [simpl; lia|].
  exists ctx. eexists. eexists. split; [exact Hnew|]. split; [exact Hfit|exact Hfita].
Qed.

Lemma compute_context_tables_witness :
  (forall t, (far_table_index t < 7)%nat) /\
  (forall t t', far_table_index t = far_table_index t' -> t = t') /\
  (exists ctx,
     new_OsdGLSLTransformFeedbackComputeContext far_table_index
       {| catmark_base := quad_tables |} (@None (list unit)) = Some ctx /\
     length (_tables ctx) = 7%nat /\
     GetTable far_table_index ctx F_IT =
       Some (Some {| table_data := IntData [0; 1; 2; 3]; table_type := GL_R32UI |})) /\
  (exists ctx,
     new_OsdGLSLTransformFeedbackComputeContext far_table_index
       {| five_base := quad_tables |} (@None (list unit)) = Some ctx /\
     GetTable far_table_index ctx F_IT = Some None /\
     GetTable far_table_index ctx F_ITa = Some None).
Proof.
  assert (Hlt : forall t, (far_table_index t < 7)%nat) by (intros []; simpl; lia).
  assert (Hinj : forall t t', far_table_index t = far_table_index t' -> t = t')
    by (intros [] []; simpl; congruence).
  split; [exact Hlt|]. split; [exact Hinj|].
  destruct (compute_context_tables far_table_index Hlt Hinj) as (_ & Hctx & _).
  split.
  - destruct (Hctx _ Q unit _ {| catmark_base := quad_tables |} None)
      as (ctx & Hnew & Hlen & _ & Hface & _).
    exists ctx. split; [exact Hnew|]. split; [exact Hlen|].
    apply Hface. simpl. lia.
  - destruct (Hctx _ Q unit _ {| five_base := quad_tables |} None)
      as (ctx & Hnew & _ & _ & _ & Hnull).
    exists ctx. split; [exact Hnew|]. apply Hnull. simpl. lia.
Defined.

(** ** The varying attribute *)

(** What one invocation does to the varying attribute, in exact arithmetic:
    the edge rule leaves the midpoint of the endpoints whatever the weights
    and the opposite vertices; the smooth rule and the first pass of kernel
    A leave the parent; the second pass of kernel A adds the parent to what
    the record holds. *)
Lemma varying_of_rules :
  (forall (d0 v0 v1 : QVertex) (wV : Q) opposite,
     vary (edgeRule d0 v0 v1 wV opposite) == (1 # 2) * vary v0 + (1 # 2) * vary v1)%Q /\
  (forall (d0 vp : QVertex) (vs : list QVertex) (wParent wNeighbor : Q),
     vary (smoothRule d0 vp vs wParent wNeighbor) == vary vp)%Q /\
  (forall (d0 vp : QVertex) crease (w : Q),
     vary (creaseCornerRule false d0 vp crease w) == vary vp)%Q /\
  (forall (d0 vp : QVertex) crease (w : Q),
     vary (creaseCornerRule true d0 vp crease w) == vary d0 + vary vp)%Q.
Proof.
  split; [|split; [|split]].
  - intros d0 v0 v1 wV [[[v2 v3] wF]|]; unfold edgeRule; simpl; field.
  - intros d0 vp vs wP wN. unfold smoothRule.
    destruct (smoothRule_fold wN vs (AddWithWeight (Clear d0) vp wP)) as [_ Hv].
    cbn [vary AddVaryingWithWeight QVertexOps float_lit QFloat]. rewrite Hv.
    simpl. ring.
  - intros d0 vp [[v0 v1]|] w; unfold creaseCornerRule; simpl; ring.
  - intros d0 vp [[v0 v1]|] w; unfold creaseCornerRule; simpl; ring.
Qed.

(** C2 at a failing input. A vertex-point blended by the two passes of
    kernel A (sharpness weight [0.25], parent [0], crease edges [1] and [2]),
    and a vertex-point written by kernel B and then by the second pass of
    kernel A: the varying attribute of the parent is [10], the varying
    attribute left in the destination record is [20]. *)
Theorem vertex_point_varying_doubled :
  (exists vsrc1 vsrc2 r,
     computeVertexPointsA quad_tables 4 false 1 0 1 quad_buffer = Some vsrc1 /\
     computeVertexPointsA quad_tables 4 true 1 0 1 vsrc1 = Some vsrc2 /\
     elt quad_buffer 0 = Some {| pos := 1; vary := 10 |} /\
     elt vsrc2 4 = Some r /\ (vary r == 20)%Q /\ ~ (vary r == 10)%Q) /\
  (exists vsrc1 vsrc2 r,
     computeVertexPointsB blend_tables 4 0 0 1 quad_buffer = Some vsrc1 /\
     computeVertexPointsA blend_tables 4 true 0 0 1 vsrc1 = Some vsrc2 /\
     elt vsrc2 4 = Some r /\ (vary r == 20)%Q /\ ~ (vary r == 10)%Q).
Proof.
  split.
  - do 3 eexists. split; [vm_compute; reflexivity|].
    split; [vm_compute; reflexivity|]. split; [reflexivity|].
    split; [vm_compute; reflexivity|]. split; [reflexivity|].
    vm_compute. discriminate.
  - do 3 eexists. split; [vm_compute; reflexivity|].
    split; [vm_compute; reflexivity|].
    split; [vm_compute; reflexivity|]. split; [reflexivity|].
    vm_compute. discriminate.
Qed.

(** * Further properties of the kernels *)

(** ** The four kernels, uniformly *)

Section KernelDispatchFacts.

Context {F U : Type} `{FloatOps F} `{VertexOps F U}.
Variable this : FarSubdivisionTables F.

Lemma kernel_body_value K len dlo dhi i d (b : list U) :
  kernel_wf this K len dlo dhi i -> dlo <= d < dhi ->
  kernel_body this K i d b =
  d0 ← elt b d; r ← kernel_acc this K i b d0; Some (store d r b).
Proof.
  intros Hwf Hd. destruct K; simpl in *.
  - apply facePoint_value. eapply face_wf_noalias; eassumption.
  - apply edgePoint_value. eapply edge_wf_noalias; eassumption.
  - apply vertexPointA_value. eapply vertexA_wf_noalias; eassumption.
  - apply vertexPointB_value. eapply vertexB_wf_noalias; eassumption.
Qed.

Lemma kernel_acc_local K dlo dhi k i (vsrc b : list U) d0 :
  kernel_wf this K (Z.of_nat (length vsrc)) dlo dhi i ->
  frame dlo (dlo + k) vsrc b -> dlo + k <= dhi ->
  kernel_acc this K i b d0 = kernel_acc this K i vsrc d0 /\
  is_Some (kernel_acc this K i vsrc d0).
Proof.
  intros Hwf Hfr Hk. destruct K; simpl in *.
  - eapply facePoint_acc_local; eauto.
  - eapply edgePoint_acc_local; eauto.
  - eapply vertexPointA_acc_local; eauto.
  - eapply vertexPointB_acc_local; eauto.
Qed.

(** The first thing an iteration does to the buffer is to access the
    destination record. *)
Lemma addWithWeight_dst d src w (b b' : list U) :
  addWithWeight d src w b = Some b' -> is_Some (elt b d).
Proof.
  unfold addWithWeight. intros Hrun. inv_bind Hrun.
  apply update_Some in Hrun as (y & Hy & _). eauto.
Qed.

Lemma update_dst d (f : U -> U) (b b' : list U) :
  update d f b = Some b' -> is_Some (elt b d).
Proof. intros Hrun. apply update_Some in Hrun as (y & Hy & _). eauto. Qed.

Lemma kernel_body_dst K i d (b b' : list U) :
  kernel_body this K i d b = Some b' -> is_Some (elt b d).
Proof.
  destruct K as [| |[|]|]; simpl;
    unfold facePoint, edgePoint, vertexPointA, vertexPointB; simpl;
    intros Hrun; inv_bind Hrun;
    try match goal with
    | Hs : Some b = Some _ |- _ => injection Hs as <-
    end;
    try match goal with
    | Hc : (if ?c then _ else _) = Some _ |- _ => destruct c; inv_bind Hc
    end;
    first [ eapply update_dst; eassumption | eapply addWithWeight_dst; eassumption ].
Qed.

End KernelDispatchFacts.

(** ** Invocations as loops *)

Section InvokeFacts.

Context {F U : Type} `{FloatOps F} `{VertexOps F U}.

Lemma invoke_unfold K offset tableOffset start end_ (m : Memory F U) :
  invoke K offset tableOffset start end_ m =
  vsrc ← kernel_loop (kernel_body (tables m) K) offset tableOffset start end_ (vertices m);
  Some {| tables := tables m; vertices := vsrc |}.
Proof. destruct K; reflexivity. Qed.

Lemma iterate_app {S : Type} (body : Z -> S -> option S) c1 : forall c2 i s,
  iterate (c1 + c2) i body s =
  s' ← iterate c1 i body s; iterate c2 (i + Z.of_nat c1) body s'.
Proof.
  induction c1 as [|c1 IH]; intros c2 i s; simpl.
  - rewrite Z.add_0_r. reflexivity.
  - destruct (body i s) as [s1|]; simpl; [|reflexivity].
    rewrite IH. replace (i + 1 + Z.of_nat c1) with (i + Z.pos (Pos.of_succ_nat c1)) by lia.
    reflexivity.
Qed.

(** Running a kernel over a well-formed range whose sources avoid
    [[lo, hi)], a range that contains the destination range: the invocation
    returns, the records outside the destination range are kept, and every
    destination record is what its iteration computes from the initial
    buffer. *)
Lemma invoke_values K offset tableOffset start end_ lo hi (m : Memory F U) :
  range_ok offset tableOffset start end_ (vertices m) ->
  lo <= offset + start -> offset + end_ <= hi ->
  (forall k, 0 <= k < end_ - start ->
     kernel_wf (tables m) K (Z.of_nat (length (vertices m))) lo hi
       (start + tableOffset + k)) ->
  exists m',
    invoke K offset tableOffset start end_ m = Some m' /\
    tables m' = tables m /\
    frame (offset + start) (offset + end_) (vertices m) (vertices m') /\
    forall k, 0 <= k < end_ - start ->
      exists d0 r,
        elt (vertices m) (offset + start + k) = Some d0 /\
        kernel_acc (tables m) K (start + tableOffset + k) (vertices m) d0 = Some r /\
        elt (vertices m') (offset + start + k) = Some r.
Proof.
  intros Hrange Hlo Hhi Hwf.
  destruct (kernel_loop_correct (kernel_body (tables m) K) (kernel_acc (tables m) K)
              offset tableOffset start end_ (vertices m)) as (vsrc' & Hrun & Hfr & Hval).
  - apply kernel_body_frame.
  - intros k b Hk _. eapply kernel_body_value; [apply (Hwf k Hk)|lia].
  - intros k b d0 Hk Hfk.
    eapply (kernel_acc_local _ _ lo hi (hi - lo)); [apply (Hwf k Hk)| |lia].
    eapply frame_weaken; [| |exact Hfk]; lia.
  - intros k d0 Hk _.
    eapply (kernel_acc_local _ _ lo hi 0); [apply (Hwf k Hk)|apply frame_refl|lia].
  - exact Hrange.
  - exists {| tables := tables m; vertices := vsrc' |}.
    rewrite invoke_unfold, Hrun. simpl. auto.
Qed.

End InvokeFacts.

(** X1. Empty range. A kernel called with [end <= start] (and loop bounds
    that are [int]s) executes no iteration: it returns the buffer as it is,
    whatever the tables hold and wherever the destination pointer points. *)
Theorem invoke_empty_range {F U : Type} `{FloatOps F} `{VertexOps F U}
    (K : Kernel) (offset tableOffset start end_ : Z) (m : Memory F U) :
  end_ <= start ->
  INT_MIN <= start + tableOffset <= INT_MAX ->
  INT_MIN <= end_ + tableOffset <= INT_MAX ->
  invoke K offset tableOffset start end_ m = Some m.
Proof.
  intros Hle Hlo Hhi. rewrite invoke_unfold. unfold kernel_loop.
  rewrite (proj2 (int_Some _ _) (conj eq_refl Hlo)). simpl.
  rewrite (proj2 (int_Some _ _) (conj eq_refl Hhi)). simpl.
  rewrite for_loop_empty by lia. simpl. destruct m; reflexivity.
Qed.

Lemma invoke_empty_range_witness :
  invoke VertexPointsB 100 0 7 7 {| tables := corner0_tables; vertices := corner0_buffer |} =
  Some {| tables := corner0_tables; vertices := corner0_buffer |}.
Proof.
  apply (invoke_empty_range VertexPointsB 100 0 7 7); [lia| |];
    unfold INT_MIN, INT_MAX; lia.
Defined.

(** X2. Splitting a range. For [start <= mid <= end], running a kernel over
    [[start, end)] is the same as running it over [[start, mid)] and then
    over [[mid, end)], undefined behaviour included. *)
Theorem invoke_split_range {F U : Type} `{FloatOps F} `{VertexOps F U}
    (K : Kernel) (offset tableOffset start mid end_ : Z) (m : Memory F U) :
  start <= mid <= end_ ->
  invoke K offset tableOffset start end_ m =
  m1 ← invoke K offset tableOffset start mid m;
  invoke K offset tableOffset mid end_ m1.
Proof.
  intros Hmid. rewrite !invoke_unfold.
  set (body := kernel_body (tables m) K).
  assert (Heq : kernel_loop body offset tableOffset start end_ (vertices m) =
    v1 ← kernel_loop body offset tableOffset start mid (vertices m);
    kernel_loop body offset tableOffset mid end_ v1).
  { unfold kernel_loop, for_loop.
    destruct (int (start + tableOffset)) as [lo|] eqn:Hlo; simpl; [|reflexivity].
    apply int_Some in Hlo as [-> Hlo].
    destruct (int (end_ + tableOffset)) as [hi|] eqn:Hhi; simpl.
    - apply int_Some in Hhi as [-> Hhi].
      assert (Hm : INT_MIN <= mid + tableOffset <= INT_MAX) by lia.
      rewrite (proj2 (int_Some _ _) (conj eq_refl Hm)). simpl.
      replace (Z.to_nat (end_ + tableOffset - (start + tableOffset)))
        with (Z.to_nat (mid + tableOffset - (start + tableOffset)) +
              Z.to_nat (end_ + tableOffset - (mid + tableOffset)))%nat by lia.
      rewrite iterate_app.
      rewrite Z2Nat.id by lia.
      replace (start + tableOffset + (mid + tableOffset - (start + tableOffset)))
        with (mid + tableOffset) by lia.
      destruct (iterate _ (start + tableOffset) _ (offset + start, vertices m))
        as [[d1 b1]|] eqn:Hfirst; simpl; [|reflexivity].
      apply (iterate_kernel body (kernel_body_frame (tables m) K)) in Hfirst
        as (-> & _ & _).
      rewrite Z2Nat.id by lia.
      replace (offset + start + (mid + tableOffset - (start + tableOffset)))
        with (offset + mid) by lia.
      reflexivity.
    - destruct (int (mid + tableOffset)) as [mi|]; simpl; [|reflexivity].
      destruct (snd <$> _) as [v1|]; simpl; reflexivity. }
  rewrite Heq.
  destruct (kernel_loop body offset tableOffset start mid (vertices m)) as [v1|];
    simpl; [|reflexivity].
  rewrite invoke_unfold. reflexivity.
Qed.

Lemma invoke_split_range_witness :
  invoke EdgePoints 4 0 0 2 {| tables := quad_tables; vertices := quad_buffer |} =
  m1 ← invoke EdgePoints 4 0 0 1 {| tables := quad_tables; vertices := quad_buffer |};
  invoke EdgePoints 4 0 1 2 m1.
Proof. apply (invoke_split_range EdgePoints 4 0 0 1 2). lia. Defined.

(** X3. Bounds. A kernel that runs at least one iteration without undefined
    behaviour was given loop bounds that are [int]s and a destination range
    [[offset+start, offset+end)] that lies inside the buffer: no kernel
    checks the range, a range that sticks out of the buffer is undefined
    behaviour. *)
Theorem invoke_destination_in_buffer {F U : Type} `{FloatOps F} `{VertexOps F U}
    (K : Kernel) (offset tableOffset start end_ : Z) (m m' : Memory F U) :
  invoke K offset tableOffset start end_ m = Some m' ->
  start < end_ ->
  range_ok offset tableOffset start end_ (vertices m).
Proof.
  intros Hrun Hlt. apply invoke_kernel_loop in Hrun as [_ Hrun].
  assert (Hints : INT_MIN <= start + tableOffset <= INT_MAX /\
                  INT_MIN <= end_ + tableOffset <= INT_MAX).
  { unfold kernel_loop in Hrun. inv_bind Hrun.
    repeat match goal with
    | Hi : int _ = Some _ |- _ => apply int_Some in Hi as [_ Hi]
    end. split; assumption. }
  destruct Hints as [Hlo Hhi]. split; [exact Hlo|]. split; [exact Hhi|]. intros _.
  destruct (kernel_loop_spec _ (kernel_body_frame (tables m) K) _ _ _ _ _ _ Hrun)
    as [_ Hiter].
  destruct (Hiter 0) as (b0 & b0' & [Hl0 _] & Hb0 & _); [lia|].
  destruct (Hiter (end_ - start - 1)) as (b1 & b1' & [Hl1 _] & Hb1 & _); [lia|].
  apply kernel_body_dst in Hb0 as [x0 Hx0]. apply elt_Some in Hx0.
  apply kernel_body_dst in Hb1 as [x1 Hx1]. apply elt_Some in Hx1.
  lia.
Qed.

Lemma invoke_destination_in_buffer_witness :
  range_ok 4 0 0 2 quad_buffer /\
  invoke EdgePoints 5 0 0 2 {| tables := quad_tables; vertices := quad_buffer |} = None.
Proof.
  split.
  - assert (Hrun : exists m',
      invoke EdgePoints 4 0 0 2 {| tables := quad_tables; vertices := quad_buffer |} = Some m')
      by (eexists; vm_compute; reflexivity).
    destruct Hrun as [m' Hrun].
    apply (invoke_destination_in_buffer EdgePoints 4 0 0 2 _ m' Hrun). lia.
  - vm_compute. reflexivity.
Defined.



(** ** Running a kernel again *)

Lemma list_elt_ext {A : Type} (l1 l2 : list A) :
  (forall j, elt l1 j = elt l2 j) -> l1 = l2.
Proof.
  intros Hext. apply list_eq. intros n. specialize (Hext (Z.of_nat n)).
  unfold elt in Hext. destruct (decide _) as [|Hn]; [|lia].
  rewrite Nat2Z.id in Hext. exact Hext.
Qed.

Lemma kernel_acc_clears {F U : Type} `{FloatOps F} `{VertexOps F U}
    (this : FarSubdivisionTables F) K i (vsrc : list U) (d0 d0' : U) :
  clears K = true -> (forall a b : U, Clear a = Clear b) ->
  kernel_acc this K i vsrc d0 = kernel_acc this K i vsrc d0'.
Proof.
  intros Hc Hclear. destruct K as [| |[|]|]; try discriminate; simpl;
    unfold facePoint_acc, edgePoint_acc, vertexPointA_acc, vertexPointB_acc,
      faceRule, smoothRule; simpl;
    rewrite (Hclear d0 d0'); reflexivity.
Qed.

(** X5. Running a kernel again. For a vertex class whose [Clear] forgets the
    record, every kernel that clears (all but the second pass of kernel A)
    is idempotent on well-formed tables: the destination records depend on
    the source records only, and invoking the kernel again on its own
    output returns the same buffer. *)
Theorem invoke_idempotent {F U : Type} `{FloatOps F} `{VertexOps F U}
    (K : Kernel) (offset tableOffset start end_ : Z) (m m' : Memory F U) :
  clears K = true ->
  (forall a b : U, Clear a = Clear b) ->
  range_ok offset tableOffset start end_ (vertices m) ->
  (forall k, 0 <= k < end_ - start ->
     kernel_wf (tables m) K (Z.of_nat (length (vertices m)))
       (offset + start) (offset + end_) (start + tableOffset + k)) ->
  invoke K offset tableOffset start end_ m = Some m' ->
  invoke K offset tableOffset start end_ m' = Some m'.
Proof.
  intros Hc Hclear Hrange Hwf Hrun.
  destruct (invoke_values K offset tableOffset start end_ _ _ m Hrange
              (Z.le_refl _) (Z.le_refl _) Hwf) as (m1 & Hrun1 & Htab & Hfr & Hval).
  rewrite Hrun in Hrun1. injection Hrun1 as <-.
  pose proof Hfr as [Hlen Hout].
  destruct (invoke_values K offset tableOffset start end_ (offset + start) (offset + end_) m')
    as (m2 & Hrun2 & Htab2 & Hfr2 & Hval2).
  - unfold range_ok in *. rewrite Hlen. exact Hrange.
  - lia.
  - lia.
  - intros k Hk. rewrite Htab, Hlen. apply Hwf, Hk.
  - rewrite Hrun2. f_equal.
    destruct m' as [t' v'], m2 as [t2 v2]. simpl in *. f_equal; [congruence|].
    apply list_elt_ext. intros j.
    destruct (decide (offset + start <= j < offset + end_)) as [Hj|Hj].
    + assert (Hk : 0 <= j - (offset + start) < end_ - start) by lia.
      destruct (Hval _ Hk) as (d0 & r & Hd0 & Hacc & Hr).
      destruct (Hval2 _ Hk) as (d0' & r' & Hd0' & Hacc' & Hr').
      replace (offset + start + (j - (offset + start))) with j in * by lia.
      rewrite Hr', Hr. f_equal.
      rewrite Htab in Hacc'.
      destruct (kernel_acc_local (tables m) K (offset + start) (offset + end_)
                  (end_ - start) (start + tableOffset + (j - (offset + start)))
                  (vertices m) v' d0') as [Hloc _].
      * apply Hwf, Hk.
      * replace (offset + start + (end_ - start)) with (offset + end_) by lia. exact Hfr.
      * lia.
      * rewrite Hloc in Hacc'.
        rewrite (kernel_acc_clears _ _ _ _ d0' d0 Hc Hclear) in Hacc'.
        congruence.
    + destruct Hfr2 as [_ Hout2]. apply Hout2, Hj.
Qed.

Lemma invoke_idempotent_witness :
  exists m',
    invoke FacePoints 4 0 0 1 {| tables := quad_tables; vertices := quad_buffer |} = Some m' /\
    invoke FacePoints 4 0 0 1 m' = Some m'.
Proof.
  assert (Hrun : exists m',
    invoke FacePoints 4 0 0 1 {| tables := quad_tables; vertices := quad_buffer |} = Some m')
    by (eexists; vm_compute; reflexivity).
  destruct Hrun as [m' Hrun]. exists m'. split; [exact Hrun|].
  apply (invoke_idempotent FacePoints 4 0 0 1
           {| tables := quad_tables; vertices := quad_buffer |} m').
  - reflexivity.
  - reflexivity.
  - vm_compute; intuition discriminate.
  - intros k Hk. assert (k = 0) as -> by lia.
    exists 0, 4. split; [reflexivity|]. split; [reflexivity|].
    intros t Ht. unfold src_ok.
    assert (t = 0 \/ t = 1 \/ t = 2 \/ t = 3) as [->|[->|[->| ->]]] by lia;
      eexists; (split; [reflexivity|simpl; lia]).
  - exact Hrun.
Defined.

(** ** Kernels on disjoint destination ranges *)

Section Disjoint.

Context {F U : Type} `{FloatOps F} `{VertexOps F U}.


End Disjoint.



(** ** The weights of a vertex-point add up to one *)

Section Unity.

Variable this : FarSubdivisionTables Q.
Variables (vsrc : list QVertex) (dlo dhi : Z) (c : Q).

(** Every record outside the destination range has the primary attribute
    [c]. *)
Hypothesis sources_flat : forall j v,
  ~ (dlo <= j < dhi) -> elt vsrc j = Some v -> (pos v == c)%Q.

Lemma src_ok_flat e v :
  src_ok (Z.of_nat (length vsrc)) dlo dhi e -> elt vsrc e = Some v -> (pos v == c)%Q.
Proof. intros [_ Hout] Hv. eapply sources_flat; eassumption. Qed.


Lemma smooth_weights (s : Q) (n : Z) :
  1 <= n -> (s * wvB n + inject_Z (2 * n) * (s * wpB n) == s)%Q.
Proof.
  intros Hn. unfold wvB, wpB. simpl.
  rewrite !inject_Z_mult.
  assert (Hnz : ~ (inject_Z n == 0)%Q).
  { change 0%Q with (inject_Z 0). rewrite inject_Z_injective. lia. }
  change (inject_Z 2) with 2%Q. field. exact Hnz.
Qed.

Lemma smoothRule_pos (d0 vp : QVertex) (vs : list QVertex) (wP wN : Q) :
  (pos (smoothRule d0 vp vs wP wN) == wP * pos vp + wN * sum_pos vs)%Q.
Proof.
  unfold smoothRule.
  destruct (smoothRule_fold wN vs (AddWithWeight (Clear d0) vp wP)) as [Hp _].
  cbn [pos AddVaryingWithWeight QVertexOps]. rewrite Hp. simpl. ring.
Qed.

Lemma vertexPointA_acc_flat pass i d0 r :
  vertexA_wf this pass (Z.of_nat (length vsrc)) dlo dhi i ->
  vertexPointA_acc this pass i vsrc d0 = Some r ->
  exists n s,
    elt (_V_ITa this) (5 * i + 1) = Some n /\ elt (_V_W this) i = Some s /\
    (pos r == (if pass then pos d0 else 0) + weightA pass s n * c)%Q.
Proof.
  intros (n & p & e0 & e1 & Hn & Hp & He0 & He1 & _ & Hsp & Hcr) Hacc.
  apply vertexPointA_acc_Some in Hacc
    as (n' & p' & e0' & e1' & s & vp & crease & Hn' & Hp' & He0' & He1' & Hs & Hvp & Hrule & ->).
  rewrite Hn in Hn'. rewrite Hp in Hp'. rewrite He0 in He0'. rewrite He1 in He1'.
  injection Hn' as <-. injection Hp' as <-. injection He0' as <-. injection He1' as <-.
  exists n, s. split; [exact Hn|]. split; [exact Hs|].
  pose proof (src_ok_flat _ _ Hsp Hvp) as Hpc.
  destruct Hrule as [[_ ->]|[Hnc (v0 & v1 & Hv0 & Hv1 & ->)]].
  - unfold creaseCornerRule. destruct pass; simpl; rewrite Hpc; ring.
  - destruct (Hcr Hnc) as [Hs0 Hs1].
    pose proof (src_ok_flat _ _ Hs0 Hv0) as H0c.
    pose proof (src_ok_flat _ _ Hs1 Hv1) as H1c.
    unfold creaseCornerRule. destruct pass; simpl; rewrite Hpc, H0c, H1c; field.
Qed.

Lemma vertexPointB_acc_flat i d0 r :
  vertexB_wf this (Z.of_nat (length vsrc)) dlo dhi i ->
  vertexPointB_acc this i vsrc d0 = Some r ->
  exists n s,
    elt (_V_ITa this) (5 * i + 1) = Some n /\ elt (_V_W this) i = Some s /\
    (1 <= n -> (pos r == s * c)%Q).
Proof.
  intros (h & n & p & Hh & Hn & Hp & _ & _ & Hsp & Hok) Hacc.
  unfold vertexPointB_acc in Hacc. inv_bind Hacc.
  apply (inj Some) in Hacc. rename Hacc into Hr.
  repeat match goal with
  | H1 : ?e = Some ?a, H2 : ?e = Some ?b |- _ =>
      tryif constr_eq a b then fail
      else (assert (b = a) by congruence; subst b; clear H2)
  end.
  match goal with
  | Hs : elt (_V_W this) i = Some ?s, Hvp : elt vsrc p = Some ?vp,
    Hg : gather _ _ _ _ = Some ?vs |- _ =>
      exists n, s; split; [exact Hn|]; split; [exact Hs|]; intros Hn1;
      pose proof (src_ok_flat _ _ Hsp Hvp) as Hpc;
      pose proof (gather_length _ _ _ _ _ Hg) as Hlen;
      assert (Hvs : Forall (fun v => pos v == c)%Q vs)
  end.
  { apply Forall_lookup. intros t rec Hrec.
    pose proof (lookup_lt_Some _ _ _ Hrec) as Hlt. rewrite Hlen in Hlt.
    match goal with Hg : gather _ _ _ _ = Some _ |- _ =>
      destruct (gather_lookup _ _ _ _ _ (Z.of_nat t) Hg) as (v & y & Hv & Hy & Hty); [lia|]
    end.
    rewrite Nat2Z.id, Hrec in Hty. injection Hty as <-.
    destruct (Hok (Z.of_nat t)) as (v' & Hv' & Hsv); [lia|].
    rewrite Hv in Hv'. injection Hv' as <-.
    eapply src_ok_flat; eassumption. }
  rewrite <- Hr, smoothRule_pos, Hpc, (sum_pos_const _ c Hvs), Hlen.
  rewrite Z2Nat.id by lia.
  match goal with
  | |- (?a * c + ?b * (inject_Z (2 * n) * c) == ?s * c)%Q =>
      transitivity ((a + inject_Z (2 * n) * b) * c)%Q; [ring|]
  end.
  cbn [fmul QFloat]. rewrite smooth_weights by exact Hn1. reflexivity.
Qed.

End Unity.

(** The second pass of kernel A on a buffer that differs from the initial
    one only in the destination range: it accumulates, into what each
    destination record holds, what it computes from the initial sources. *)
Lemma second_pass_values {F U : Type} `{FloatOps F} `{VertexOps F U}
    (this : FarSubdivisionTables F) offset tableOffset start end_ (vsrc v1 : list U) :
  range_ok offset tableOffset start end_ vsrc ->
  frame (offset + start) (offset + end_) vsrc v1 ->
  (forall k, 0 <= k < end_ - start ->
     vertexA_wf this true (Z.of_nat (length vsrc)) (offset + start) (offset + end_)
       (start + tableOffset + k)) ->
  exists v2,
    computeVertexPointsA this offset true tableOffset start end_ v1 = Some v2 /\
    forall k, 0 <= k < end_ - start ->
      exists r1 r2,
        elt v1 (offset + start + k) = Some r1 /\
        vertexPointA_acc this true (start + tableOffset + k) vsrc r1 = Some r2 /\
        elt v2 (offset + start + k) = Some r2.
Proof.
  intros Hrange Hfr Hwf. pose proof Hfr as [Hlen _].
  destruct (computeVertexPointsA_values this offset true tableOffset start end_ v1)
    as (v2 & Hrun & _ & Hval).
  - unfold range_ok in *. rewrite Hlen. exact Hrange.
  - intros k Hk. rewrite Hlen. apply Hwf, Hk.
  - exists v2. split; [exact Hrun|]. intros k Hk.
    destruct (Hval k Hk) as (r1 & r2 & Hr1 & Hacc & Hr2).
    exists r1, r2. split; [exact Hr1|]. split; [|exact Hr2].
    destruct (vertexPointA_acc_local this true _ (offset + start) (offset + end_)
                (end_ - start) (start + tableOffset + k) vsrc v1 r1 eq_refl (Hwf k Hk))
      as [Hloc _].
    + replace (offset + start + (end_ - start)) with (offset + end_) by lia. exact Hfr.
    + lia.
    + rewrite <- Hloc. exact Hacc.
Qed.

(** X7. A blended vertex-point: kernel B, then the second pass of kernel A.
    In exact arithmetic, for well-formed rows with valence [n >= 1] and a
    sharpness weight [0 < s < 1], the weights of the two kernels add up to
    one: if every source record has the primary attribute [c], so has every
    destination record after the two invocations. *)
Theorem smooth_then_crease_unity (this : FarSubdivisionTables Q)
    (offset tableOffset start end_ : Z) (vsrc : list QVertex) (c : Q) :
  range_ok offset tableOffset start end_ vsrc ->
  (forall k, 0 <= k < end_ - start ->
     vertexB_wf this (Z.of_nat (length vsrc)) (offset + start) (offset + end_)
       (start + tableOffset + k) /\
     vertexA_wf this true (Z.of_nat (length vsrc)) (offset + start) (offset + end_)
       (start + tableOffset + k)) ->
  (forall k n s, 0 <= k < end_ - start ->
     elt (_V_ITa this) (5 * (start + tableOffset + k) + 1) = Some n ->
     elt (_V_W this) (start + tableOffset + k) = Some s ->
     1 <= n /\ (0 < s)%Q /\ (s < 1)%Q) ->
  (forall j v, ~ (offset + start <= j < offset + end_) ->
     elt vsrc j = Some v -> (pos v == c)%Q) ->
  exists v1 v2,
    computeVertexPointsB this offset tableOffset start end_ vsrc = Some v1 /\
    computeVertexPointsA this offset true tableOffset start end_ v1 = Some v2 /\
    forall k, 0 <= k < end_ - start ->
      exists r, elt v2 (offset + start + k) = Some r /\ (pos r == c)%Q.
Proof.
  intros Hrange Hwf Hfrac Hflat.
  destruct (computeVertexPointsB_values this offset tableOffset start end_ vsrc Hrange)
    as (v1 & Hrun1 & Hfr1 & Hval1); [intros k Hk; apply (Hwf k Hk)|].
  destruct (second_pass_values this offset tableOffset start end_ vsrc v1 Hrange Hfr1)
    as (v2 & Hrun2 & Hval2); [intros k Hk; apply (Hwf k Hk)|].
  exists v1, v2. split; [exact Hrun1|]. split; [exact Hrun2|].
  intros k Hk. destruct (Hwf k Hk) as [HwfB HwfA].
  destruct (Hval1 k Hk) as (d0 & r1 & _ & HaccB & Hr1).
  destruct (Hval2 k Hk) as (r1' & r2 & Hr1' & HaccA & Hr2).
  rewrite Hr1 in Hr1'. injection Hr1' as <-.
  exists r2. split; [exact Hr2|].
  destruct (vertexPointB_acc_flat this vsrc _ _ c Hflat _ _ _ HwfB HaccB)
    as (n & s & Hn & Hs & HposB).
  destruct (vertexPointA_acc_flat this vsrc _ _ c Hflat _ _ _ _ HwfA HaccA)
    as (n' & s' & Hn' & Hs' & HposA).
  rewrite Hn in Hn'. rewrite Hs in Hs'. injection Hn' as <-. injection Hs' as <-.
  destruct (Hfrac k n s Hk Hn Hs) as (Hn1 & Hs0 & Hs1).
  rewrite HposA, (HposB Hn1).
  destruct (weightA_exact s n) as [Hw _].
  destruct (Hw ltac:(lia) Hs0 Hs1) as [_ ->]. ring.
Qed.

Lemma smooth_then_crease_unity_witness :
  exists v1 v2,
    computeVertexPointsB blend_tables 4 0 0 1 flat_buffer = Some v1 /\
    computeVertexPointsA blend_tables 4 true 0 0 1 v1 = Some v2 /\
    forall k, 0 <= k < 1 - 0 ->
      exists r, elt v2 (4 + 0 + k) = Some r /\ (pos r == 5)%Q.
Proof.
  apply (smooth_then_crease_unity blend_tables 4 0 0 1 flat_buffer 5).
  - vm_compute; intuition discriminate.
  - intros k Hk. assert (k = 0) as -> by lia. split.
    + exists 0, 4, 0. unfold src_ok. simpl.
      repeat split; eauto; try lia; try (vm_compute; discriminate).
      intros t Ht. unfold src_ok.
      assert (t = 0 \/ t = 1 \/ t = 2 \/ t = 3 \/ t = 4 \/ t = 5 \/ t = 6 \/ t = 7)
        as [->|[->|[->|[->|[->|[->|[->| ->]]]]]]] by lia;
        eexists; (split; [reflexivity|simpl; lia]).
    + exists 4, 0, 1, 2. unfold src_ok, corner. simpl.
      repeat split; eauto; lia.
  - intros k n s Hk. assert (k = 0) as -> by lia. simpl.
    intros [= <-] [= <-]. split; [lia|]. split; reflexivity.
  - intros j v Hj Hv. pose proof (elt_Some _ _ _ Hv) as Hb. simpl in Hb.
    assert (j = 0 \/ j = 1 \/ j = 2 \/ j = 3) as [->|[->|[->| ->]]] by lia;
      injection Hv as <-; reflexivity.
Defined.



(** * The textures of the compute context *)

(** ** Calls of the GL *)

Lemma gl_bind_Some {A B : Type} (m : GL A) (k : A -> GL B) gl r :
  gl_bind m k gl = Some r ->
  exists a gl1, m gl = Some (a, gl1) /\ k a gl1 = Some r.
Proof.
  unfold gl_bind. destruct (m gl) as [[a gl1]|]; [|discriminate].
  intros Hk. exists a, gl1. split; [reflexivity|exact Hk].
Qed.

Lemma gl_bind_run {A B : Type} (m : GL A) (k : A -> GL B) gl a gl1 :
  m gl = Some (a, gl1) -> gl_bind m k gl = k a gl1.
Proof. unfold gl_bind. intros ->. reflexivity. Qed.

Lemma succeeds_bind {A B : Type} (m : GL A) (k : A -> GL B) :
  succeeds m -> (forall a, succeeds (k a)) -> succeeds (gl_bind m k).
Proof.
  intros Hm Hk gl. destruct (Hm gl) as (a & gl1 & E).
  rewrite (gl_bind_run _ _ _ _ _ E). apply Hk.
Qed.

Lemma succeeds_ret {A : Type} (a : A) : succeeds (gl_ret a).
Proof. intros gl. exists a, gl. reflexivity. Qed.

Lemma succeeds_deref {A : Type} (a : A) : succeeds (deref (Some a)).
Proof. intros gl. exists a, gl. reflexivity. Qed.

Lemma upd_eq {A : Type} (f : Z -> A) k x : upd f k x k = x.
Proof. unfold upd. rewrite Z.eqb_refl. reflexivity. Qed.

Lemma upd_ne {A : Type} (f : Z -> A) k x j : j <> k -> upd f k x j = f j.
Proof. unfold upd. intros Hj. destruct (Z.eqb_spec j k); [contradiction|reflexivity]. Qed.

(** [bindTexture] is defined in every state.  With a sampler it binds the
    texture in the unit, keeps the other units and leaves unit 0 active;
    without one it does nothing.  It keeps the rest of the state. *)
Lemma bindTexture_run samplerUniform texture unit_ gl :
  exists gl',
    bindTexture samplerUniform texture unit_ gl = Some (tt, gl') /\
    (samplerUniform <> -1 -> texture_binding gl' unit_ = texture) /\
    (forall u, u <> unit_ -> texture_binding gl' u = texture_binding gl u) /\
    (samplerUniform <> -1 -> active_texture gl' = 0) /\
    (samplerUniform = -1 -> gl' = gl) /\
    image_binding gl' = image_binding gl /\
    rasterizer_discard gl' = rasterizer_discard gl /\
    current_program gl' = current_program gl /\
    texture_buffer gl' = texture_buffer gl /\
    texture_names gl' = texture_names gl.
Proof.
  unfold bindTexture. destruct (Z.eqb_spec samplerUniform (-1)) as [E|E].
  - exists gl. split; [reflexivity|]. repeat split; try reflexivity; intros; congruence.
  - unfold gl_bind, glUniform1i. destruct (Z.eqb_spec samplerUniform (-1)); [contradiction|].
    eexists. split; [reflexivity|]. simpl.
    repeat split; try reflexivity; intros; try congruence.
    + apply upd_eq.
    + apply upd_ne; assumption.
Qed.

Lemma succeeds_bindTexture samplerUniform texture unit_ :
  succeeds (bindTexture samplerUniform texture unit_).
Proof.
  intros gl. destruct (bindTexture_run samplerUniform texture unit_ gl) as (gl' & E & _).
  exists tt, gl'. exact E.
Qed.

(** [unbindTexture] unbinds the unit, keeps the other units and leaves the
    unit active. *)
Lemma unbindTexture_run unit_ gl :
  exists gl',
    unbindTexture unit_ gl = Some (tt, gl') /\
    texture_binding gl' = upd (texture_binding gl) unit_ 0 /\
    active_texture gl' = unit_ /\
    image_binding gl' = image_binding gl /\
    rasterizer_discard gl' = rasterizer_discard gl /\
    current_program gl' = current_program gl /\
    texture_buffer gl' = texture_buffer gl /\
    uniform gl' = uniform gl /\
    texture_names gl' = texture_names gl.
Proof. eexists. split; [reflexivity|]. simpl. repeat split. Qed.

(** The loop of [unbind], from unit [i] down: it unbinds [count] units and
    keeps the others. *)
Lemma iterate_down_unbindTexture count i gl :
  exists gl',
    iterate_down count i unbindTexture gl = Some (tt, gl') /\
    (forall u, texture_binding gl' u =
       if (i - Z.of_nat count <? u) && (u <=? i) then 0 else texture_binding gl u) /\
    (count <> O -> active_texture gl' = i - Z.of_nat count + 1) /\
    image_binding gl' = image_binding gl /\
    texture_buffer gl' = texture_buffer gl /\
    uniform gl' = uniform gl /\
    texture_names gl' = texture_names gl.
Proof.
  revert i gl. induction count as [|count IH]; intros i gl.
  - exists gl. split; [reflexivity|]. repeat split; try reflexivity; [|congruence].
    intros u. destruct (Z.ltb_spec (i - Z.of_nat 0) u), (Z.leb_spec u i);
      simpl; try reflexivity; lia.
  - cbn [iterate_down].
    destruct (unbindTexture_run i gl) as (gl1 & E1 & Hb1 & Ha1 & Hi1 & _ & _ & Ht1 & Hu1 & Hn1).
    rewrite (gl_bind_run _ _ _ _ _ E1).
    destruct (IH (i - 1) gl1) as (gl' & E & Hb & Ha & Hi & Ht & Hu & Hn).
    exists gl'. split; [exact E|]. repeat split; try congruence.
    + intros u. rewrite Hb, Hb1. unfold upd.
      destruct (Z.ltb_spec (i - 1 - Z.of_nat count) u), (Z.leb_spec u (i - 1)),
        (Z.ltb_spec (i - Z.of_nat (S count)) u), (Z.leb_spec u i), (Z.eqb_spec u i);
        simpl; try reflexivity; lia.
    + intros _. destruct count as [|count'].
      * cbn [iterate_down] in E. injection E as <-. rewrite Ha1. lia.
      * rewrite Ha by discriminate. lia.
Qed.

(** X9. [unbind], in every state of the GL: the texture units 0 to 8 are
    left without a buffer texture, whatever [bind] found or left there, and
    the other units keep theirs; unit 0 is active, image unit 0 is unbound,
    the rasterizer discard is off and no program is in use. *)
Theorem unbind_units (gl : GLState) :
  exists gl',
    unbind gl = Some (tt, gl') /\
    (forall u, texture_binding gl' u =
       if (0 <=? u) && (u <=? 8) then 0 else texture_binding gl u) /\
    active_texture gl' = 0 /\
    image_binding gl' 0 = 0 /\
    rasterizer_discard gl' = false /\
    current_program gl' = 0 /\
    texture_buffer gl' = texture_buffer gl /\
    uniform gl' = uniform gl.
Proof.
  unfold unbind.
  destruct (iterate_down_unbindTexture (Z.to_nat (8 - 0 + 1)) 8 gl)
    as (gl1 & E1 & Hb & _ & _ & Ht & Hu & _).
  rewrite (gl_bind_run _ _ _ _ _ E1).
  eexists. split; [reflexivity|]. simpl. repeat split; try assumption.
  intros u. rewrite Hb.
  destruct (Z.ltb_spec (8 - Z.of_nat (Z.to_nat (8 - 0 + 1))) u), (Z.leb_spec 0 u);
    simpl; try reflexivity; lia.
Qed.

(** X10. [UnbindEditTextures], in every state of the GL: the texture units 9
    and 10 are left without a buffer texture and the other units keep
    theirs; unit 10 is left active, not unit 0. *)
Theorem UnbindEditTextures_units (gl : GLState) :
  exists gl',
    UnbindEditTextures gl = Some (tt, gl') /\
    (forall u, texture_binding gl' u =
       if (u =? 9) || (u =? 10) then 0 else texture_binding gl u) /\
    active_texture gl' = 10 /\
    image_binding gl' = image_binding gl /\
    rasterizer_discard gl' = rasterizer_discard gl /\
    current_program gl' = current_program gl.
Proof.
  eexists. split; [reflexivity|]. simpl. repeat split.
  intros u. unfold upd.
  destruct (Z.eqb_spec u 9), (Z.eqb_spec u 10); simpl; try reflexivity; lia.
Qed.

(** ** Binding the tables *)

(** [glUniform1i] changes the uniforms only. *)
Lemma glUniform1i_run location v0 gl :
  exists gl',
    glUniform1i location v0 gl = Some (tt, gl') /\
    texture_binding gl' = texture_binding gl /\
    active_texture gl' = active_texture gl /\
    image_binding gl' = image_binding gl /\
    rasterizer_discard gl' = rasterizer_discard gl /\
    current_program gl' = current_program gl /\
    texture_buffer gl' = texture_buffer gl /\
    texture_names gl' = texture_names gl.
Proof.
  unfold glUniform1i. destruct (location =? -1); eexists; (split; [reflexivity|]);
    simpl; repeat split.
Qed.

(** The block of [bind] for a buffer: defined in every state; it keeps a
    texture that exists, attaches the buffer to the texture it returns, and
    changes no unit but the active one. *)
Lemma bindBuffer_run choose direct_state_access currentBuffer texture gl :
  exists texture' gl',
    bindBuffer choose direct_state_access currentBuffer texture gl = Some (texture', gl') /\
    (texture <> 0 -> texture' = texture) /\
    (currentBuffer = 0 -> texture' = texture /\ texture_buffer gl' = texture_buffer gl) /\
    (currentBuffer <> 0 -> texture_buffer gl' = upd (texture_buffer gl) texture' currentBuffer) /\
    (forall u, u <> active_texture gl -> texture_binding gl' u = texture_binding gl u) /\
    active_texture gl' = active_texture gl /\
    image_binding gl' = image_binding gl /\
    rasterizer_discard gl' = rasterizer_discard gl /\
    current_program gl' = current_program gl.
Proof.
  unfold bindBuffer. destruct (Z.eqb_spec currentBuffer 0) as [Hb|Hb].
  - exists texture, gl. split; [reflexivity|]. repeat split; try reflexivity; congruence.
  - destruct (Z.eqb_spec texture 0) as [Ht|Ht], direct_state_access;
      (eexists; eexists; split; [reflexivity|]); simpl;
      repeat split; try reflexivity; try congruence;
      try (intros u Hu; rewrite !upd_ne by exact Hu; reflexivity);
      try (intros _; rewrite upd_eq; reflexivity).
Qed.

(** Runs the first call of the function in [H]. *)
Ltac gl_bindTexture H :=
  match type of H with
  | gl_bind (bindTexture ?s ?t ?u) _ ?gl = _ =>
      let gl' := fresh "gl" in
      let E := fresh "E" in
      let Hset := fresh "Hset" in
      let Hfr := fresh "Hfr" in
      let Himg := fresh "Himg" in
      let Hrd := fresh "Hrd" in
      let Hprog := fresh "Hprog" in
      let Htb := fresh "Htb" in
      destruct (bindTexture_run s t u gl)
        as (gl' & E & Hset & Hfr & _ & _ & Himg & Hrd & Hprog & Htb & _);
      rewrite (gl_bind_run _ _ _ _ _ E) in H; clear E
  end.

Ltac gl_table H :=
  match type of H with
  | gl_bind (table ?ti ?this ?t) _ ?gl = _ =>
      let tbl := fresh "tbl" in
      let Htbl := fresh "Htbl" in
      unfold table in H at 1;
      destruct (_tables (members this) !! ti t) as [[tbl|]|] eqn:Htbl;
      [|discriminate H|discriminate H];
      unfold gl_bind at 1 2 in H; cbn [deref] in H
  end.

(** Reads a unit in the last state: skips the calls for other units down to
    the one that bound it. *)
Ltac unit_lookup :=
  repeat match goal with
  | Hfr : (forall u, u <> _ -> texture_binding ?g u = _) |- texture_binding ?g _ = _ =>
      rewrite Hfr by (simpl; lia)
  end.

Lemma gl_bind_assoc {A B C : Type} (m : GL A) (k1 : A -> GL B) (k2 : B -> GL C) gl :
  gl_bind (gl_bind m k1) k2 gl = gl_bind m (fun a => gl_bind (k1 a) k2) gl.
Proof. unfold gl_bind. destruct (m gl) as [[a gl1]|]; reflexivity. Qed.

(** [if (texture) bindTexture(samplerUniform, texture, unit)] *)
Lemma bindTexture_if_run samplerUniform texture unit_ gl :
  exists gl',
    (if texture =? 0 then gl_ret tt
     else bindTexture samplerUniform texture unit_) gl = Some (tt, gl') /\
    (texture <> 0 -> samplerUniform <> -1 -> texture_binding gl' unit_ = texture) /\
    (forall u, u <> unit_ -> texture_binding gl' u = texture_binding gl u) /\
    image_binding gl' = image_binding gl /\
    rasterizer_discard gl' = rasterizer_discard gl /\
    current_program gl' = current_program gl /\
    texture_buffer gl' = texture_buffer gl.
Proof.
  destruct (Z.eqb_spec texture 0) as [Ht|Ht].
  - exists gl. split; [reflexivity|]. repeat split; try reflexivity. contradiction.
  - destruct (bindTexture_run samplerUniform texture unit_ gl)
      as (gl' & E & Hset & Hfr & _ & _ & Himg & Hrd & Hprog & Htb & _).
    exists gl'. repeat split; auto.
Qed.

(** The end of [bind], from the edge and vertex tables on. *)
Ltac bind_tables Hrun :=
  do 5 (gl_table Hrun; gl_bindTexture Hrun);
  match type of Hrun with
  | gl_bind (glUniform1i ?l ?v) _ ?gl = _ =>
      let gl' := fresh "gl" in
      let E := fresh "E" in
      let Hb := fresh "Hb" in
      let Hrd := fresh "Hrd" in
      let Hprog := fresh "Hprog" in
      let Htb := fresh "Htb" in
      destruct (glUniform1i_run l v gl) as (gl' & E & Hb & _ & _ & Hrd & Hprog & Htb & _);
      rewrite (gl_bind_run _ _ _ _ _ E) in Hrun; clear E;
      unfold gl_bind, glBindImageTexture, gl_ret in Hrun;
      injection Hrun as <- <-; simpl; rewrite Hb
  end.

(** The unit of a table in the last state. *)
Ltac table_unit :=
  unit_lookup;
  match goal with
  | Hset : _ -> texture_binding ?g ?u = ?GetTexture ?x
    |- texture_binding ?g ?u = ?GetTexture ?y =>
      replace y with x by congruence; apply Hset; assumption
  end.

(** X11. A [bind] that returns: the kernel bundle is set; on return the
    rasterizer discard is on, the program of the bundle is in use and image
    unit 0 holds the vertex texture; the vertex and the varying texture, if
    they exist and their sampler is found, are bound in units 0 and 1; each
    table of the context whose sampler is found is bound in its own unit
    (2 to 8), [F_ITa] provided [F_IT] is not null; and the current vertex
    and varying buffers are attached to the vertex and varying textures. *)
Theorem bind_state {F B : Type} (table_index : TableType -> nat)
    (GetTexture : OsdGLSLTransformFeedbackTable F -> Z) (choose : list Z -> Z)
    (direct_state_access : bool) (this this' : ContextObject F B) (gl gl' : GLState) :
  bind table_index GetTexture choose direct_state_access this gl = Some (this', gl') ->
  exists kernelBundle,
    _kernelBundle this = Some kernelBundle /\
    rasterizer_discard gl' = true /\
    current_program gl' = _program kernelBundle /\
    image_binding gl' 0 = _vertexTexture (members this') /\
    (_vertexTexture (members this') <> 0 ->
     GetVertexUniformLocation kernelBundle <> -1 ->
     texture_binding gl' 0 = _vertexTexture (members this')) /\
    (_varyingTexture (members this') <> 0 ->
     GetVaryingUniformLocation kernelBundle <> -1 ->
     texture_binding gl' 1 = _varyingTexture (members this')) /\
    (forall t tbl,
       GetTable table_index (members this) t = Some (Some tbl) ->
       GetTableUniformLocation kernelBundle t <> -1 ->
       (t = F_ITa -> GetTable table_index (members this) F_IT <> Some None) ->
       texture_binding gl' (texture_unit t) = GetTexture tbl) /\
    (_currentVaryingBuffer this <> 0 ->
     texture_buffer gl' (_varyingTexture (members this')) = _currentVaryingBuffer this) /\
    (_currentVertexBuffer this <> 0 ->
     (_currentVaryingBuffer this <> 0 ->
      _vertexTexture (members this') <> _varyingTexture (members this')) ->
     texture_buffer gl' (_vertexTexture (members this')) = _currentVertexBuffer this).
Proof.
  intros Hrun. unfold bind, GetTable in *.
  unfold gl_bind at 1 in Hrun. cbn [glRasterizerDiscard] in Hrun.
  destruct (_kernelBundle this) as [kernelBundle|]; [|discriminate Hrun].
  unfold gl_bind at 1 2 in Hrun. cbn [deref glUseProgram] in Hrun.
  match type of Hrun with gl_bind _ _ ?g = _ => set (gl0 := g) in Hrun end.
  assert (Hrd0 : rasterizer_discard gl0 = true) by reflexivity.
  assert (Hprog0 : current_program gl0 = _program kernelBundle) by reflexivity.
  clearbody gl0.
  destruct (bindBuffer_run choose direct_state_access (_currentVertexBuffer this)
              (_vertexTexture (members this)) gl0)
    as (vertexTexture & gl1 & E & _ & Hvb0 & Hvb1 & _ & _ & _ & Hrd1 & Hprog1).
  rewrite (gl_bind_run _ _ _ _ _ E) in Hrun; clear E.
  destruct (bindBuffer_run choose direct_state_access (_currentVaryingBuffer this)
              (_varyingTexture (members this)) gl1)
    as (varyingTexture & gl2 & E & _ & Hyb0 & Hyb1 & _ & _ & _ & Hrd2 & Hprog2).
  rewrite (gl_bind_run _ _ _ _ _ E) in Hrun; clear E.
  destruct (bindTexture_if_run (GetVertexUniformLocation kernelBundle) vertexTexture 0 gl2)
    as (gl3 & E & Hset3 & Hfr3 & _ & Hrd3 & Hprog3 & Htb3).
  rewrite (gl_bind_run _ _ _ _ _ E) in Hrun; clear E.
  destruct (bindTexture_if_run (GetVaryingUniformLocation kernelBundle) varyingTexture 1 gl3)
    as (gl4 & E & Hset4 & Hfr4 & _ & Hrd4 & Hprog4 & Htb4).
  rewrite (gl_bind_run _ _ _ _ _ E) in Hrun; clear E.
  destruct (_tables (members this) !! table_index F_IT) as [f_it|] eqn:Hf_it;
    [|discriminate Hrun].
  unfold gl_bind at 1 in Hrun. cbn [deref] in Hrun.
  destruct f_it as [f_it|].
  - rewrite gl_bind_assoc in Hrun. gl_bindTexture Hrun.
    rewrite gl_bind_assoc in Hrun. gl_table Hrun. gl_bindTexture Hrun.
    bind_tables Hrun.
    exists kernelBundle. split; [reflexivity|].
    split; [congruence|]. split; [congruence|]. split; [apply upd_eq|].
    split; [intros Hv Hl; unit_lookup; auto|].
    split; [intros Hy Hl; unit_lookup; auto|].
    split; [intros t tbl' Ht Hloc Hfita; destruct t; simpl; table_unit|].
    assert (Htbs : texture_buffer gl12 = texture_buffer gl2) by congruence.
    rewrite Htbs. split.
    + intros Hy. rewrite (Hyb1 Hy). apply upd_eq.
    + intros Hv Hne. destruct (Z.eq_dec (_currentVaryingBuffer this) 0) as [Hy|Hy].
      * destruct (Hyb0 Hy) as [_ ->]. rewrite (Hvb1 Hv). apply upd_eq.
      * rewrite (Hyb1 Hy), upd_ne by (apply Hne, Hy). rewrite (Hvb1 Hv). apply upd_eq.
  - unfold gl_bind at 1 in Hrun. cbn [gl_ret] in Hrun.
    bind_tables Hrun.
    exists kernelBundle. split; [reflexivity|].
    split; [congruence|]. split; [congruence|]. split; [apply upd_eq|].
    split; [intros Hv Hl; unit_lookup; auto|].
    split; [intros Hy Hl; unit_lookup; auto|].
    split.
    { intros t tbl' Ht Hloc Hfita; destruct t; simpl;
        try table_unit; [congruence|exfalso; exact (Hfita eq_refl eq_refl)]. }
    assert (Htbs : texture_buffer gl10 = texture_buffer gl2) by congruence.
    rewrite Htbs. split.
    + intros Hy. rewrite (Hyb1 Hy). apply upd_eq.
    + intros Hv Hne. destruct (Z.eq_dec (_currentVaryingBuffer this) 0) as [Hy|Hy].
      * destruct (Hyb0 Hy) as [_ ->]. rewrite (Hvb1 Hv). apply upd_eq.
      * rewrite (Hyb1 Hy), upd_ne by (apply Hne, Hy). rewrite (Hvb1 Hv). apply upd_eq.
Qed.

(** ** Contexts that the constructor built *)

(** The slots of a context that the constructor built. *)
Lemma new_context_slots {T F B : Type} `{FarSubdivisionTablesClass T F}
    (table_index : TableType -> nat) (subdivisionTables : T)
    (vertexEditTables : option (list B)) :
  (forall t, (table_index t < 7)%nat) ->
  (forall t t', table_index t = table_index t' -> t = t') ->
  exists ctx,
    new_OsdGLSLTransformFeedbackComputeContext table_index
      subdivisionTables vertexEditTables = Some ctx /\
    _editTables ctx = default [] vertexEditTables /\
    _vertexTexture ctx = 0 /\ _varyingTexture ctx = 0 /\
    (forall t, t <> F_IT -> t <> F_ITa ->
       exists tbl, _tables ctx !! table_index t = Some (Some tbl)) /\
    ((exists f_it f_ita,
        _tables ctx !! table_index F_IT = Some (Some f_it) /\
        _tables ctx !! table_index F_ITa = Some (Some f_ita)) \/
     (_tables ctx !! table_index F_IT = Some None /\
      _tables ctx !! table_index F_ITa = Some None)).
Proof.
  intros Hlt Hinj.
  assert (Hne : forall t t', t <> t' -> table_index t <> table_index t').
  { intros t t' Htt E. apply Htt, Hinj, E. }
  unfold new_OsdGLSLTransformFeedbackComputeContext.
  set (l0 := replicate 7 None).
  assert (Hl0 : length l0 = 7%nat) by reflexivity.
  do 5 assign_step Hlt.
  destruct (5 <? GetNumTables subdivisionTables); do 2 assign_step Hlt;
    (eexists; split; [reflexivity|]; simpl);
    (split; [destruct vertexEditTables; reflexivity|]);
    (split; [reflexivity|]); (split; [reflexivity|]); split.
  - intros t Ht1 Ht2. destruct t; try contradiction; eexists; assign_lookup Hne.
  - left. eexists. eexists. split; assign_lookup Hne.
  - intros t Ht1 Ht2. destruct t; try contradiction; eexists; assign_lookup Hne.
  - right. split; assign_lookup Hne.
Qed.

Lemma succeeds_deref_bind {A B : Type} (a : A) (k : A -> GL B) :
  succeeds (k a) -> succeeds (gl_bind (deref (Some a)) k).
Proof. intros Hk gl. apply Hk. Qed.

Lemma succeeds_table {F B : Type} (table_index : TableType -> nat)
    (this : ContextObject F B) t tbl :
  _tables (members this) !! table_index t = Some (Some tbl) ->
  succeeds (table table_index this t).
Proof. intros E gl. unfold table, gl_bind. rewrite E. simpl. eauto. Qed.

Lemma succeeds_bindBuffer choose direct_state_access currentBuffer texture :
  succeeds (bindBuffer choose direct_state_access currentBuffer texture).
Proof.
  intros gl.
  destruct (bindBuffer_run choose direct_state_access currentBuffer texture gl)
    as (texture' & gl' & E & _).
  eauto.
Qed.

Lemma succeeds_glUniform1i location v0 : succeeds (glUniform1i location v0).
Proof.
  intros gl. destruct (glUniform1i_run location v0 gl) as (gl' & E & _). eauto.
Qed.

(** Every call of a sequence is defined in every state. *)
Ltac gl_succeeds :=
  repeat first
    [ apply succeeds_ret
    | apply succeeds_bindTexture
    | apply succeeds_bindBuffer
    | apply succeeds_glUniform1i
    | eapply succeeds_table; eassumption
    | apply succeeds_bind; [|intros ?]
    | match goal with
      | |- succeeds (if ?b then _ else _) => destruct b
      end
    | (intros ?; eexists; eexists; reflexivity) ].

(** X12. The constructor and [bind]: for table types numbered injectively
    below seven, [bind] is defined, in every state of the GL, on a context
    that the constructor built, whatever the scheme of the subdivision
    tables, once a kernel bundle is set: it dereferences no null table. *)
Theorem bind_constructed_context {T F B : Type} `{FarSubdivisionTablesClass T F}
    (table_index : TableType -> nat)
    (GetTexture : OsdGLSLTransformFeedbackTable F -> Z) (choose : list Z -> Z)
    (direct_state_access : bool) (subdivisionTables : T)
    (vertexEditTables : option (list B)) :
  (forall t, (table_index t < 7)%nat) ->
  (forall t t', table_index t = table_index t' -> t = t') ->
  exists ctx,
    new_OsdGLSLTransformFeedbackComputeContext table_index
      subdivisionTables vertexEditTables = Some ctx /\
    forall (this : ContextObject F B) (gl : GLState),
      members this = ctx -> _kernelBundle this <> None ->
      exists this' gl',
        bind table_index GetTexture choose direct_state_access this gl = Some (this', gl').
Proof.
  intros Hlt Hinj.
  destruct (new_context_slots table_index subdivisionTables vertexEditTables Hlt Hinj)
    as (ctx & Hnew & _ & _ & _ & Hfive & Hface).
  exists ctx. split; [exact Hnew|].
  intros this gl <- Hkb. revert gl.
  change (succeeds (bind table_index GetTexture choose direct_state_access this)).
  destruct (_kernelBundle this) as [kernelBundle|] eqn:Ekb; [clear Hkb|contradiction].
  destruct (Hfive E_IT) as [e_it He_it]; [discriminate..|].
  destruct (Hfive V_IT) as [v_it Hv_it]; [discriminate..|].
  destruct (Hfive V_ITa) as [v_ita Hv_ita]; [discriminate..|].
  destruct (Hfive E_W) as [e_w He_w]; [discriminate..|].
  destruct (Hfive V_W) as [v_w Hv_w]; [discriminate..|].
  unfold bind. rewrite Ekb.
  apply succeeds_bind; [gl_succeeds|intros _].
  apply succeeds_deref_bind.
  do 5 (apply succeeds_bind; [gl_succeeds|intros ?]).
  destruct Hface as [(f_it & f_ita & -> & Hf_ita)|[-> Hf_ita]];
    apply succeeds_deref_bind; gl_succeeds.
Qed.

(** ** Edit tables *)

Lemma elt_fmap {A B : Type} (f : A -> B) (v : list A) (i : Z) :
  elt (f <$> v) i = f <$> elt v i.
Proof. unfold elt. destruct (decide (0 <= i)); [apply list_lookup_fmap|reflexivity]. Qed.

Lemma static_cast_int_id (n : Z) : INT_MIN <= n <= INT_MAX -> static_cast_int n = n.
Proof.
  unfold static_cast_int, INT_MIN, INT_MAX. intros Hn.
  rewrite Z.mod_small by lia. lia.
Qed.

(** X13. [Create] and the edit tables: for at most [INT_MAX] batches, the
    context has as many edit tables as there are batches (none for a null
    [vertexEditTables]), and the edit table at an index holds the operation,
    the primvar index as its offset, and the primvar width of the batch at
    that index, the vertex indices of the batch as a [GL_R32UI] table and its
    values as a [GL_R32F] table. *)
Theorem Create_edit_tables {T F : Type} `{FarSubdivisionTablesClass T F}
    (table_index : TableType -> nat) (subdivisionTables : T)
    (vertexEditTables : option (list (FarVertexEditTables.VertexEditBatch F))) :
  (forall t, (table_index t < 7)%nat) ->
  (forall t t', table_index t = table_index t' -> t = t') ->
  Z.of_nat (length (default [] vertexEditTables)) <= INT_MAX ->
  exists ctx,
    Create table_index subdivisionTables vertexEditTables = Some ctx /\
    GetNumEditTables ctx = Z.of_nat (length (default [] vertexEditTables)) /\
    (forall i batch,
       elt (default [] vertexEditTables) i = Some batch ->
       exists edit,
         GetEditTable ctx i = Some edit /\
         GetOperation edit = FarVertexEditTables.GetOperation batch /\
         GetPrimvarOffset edit = FarVertexEditTables.GetPrimvarIndex batch /\
         GetPrimvarWidth edit = FarVertexEditTables.GetPrimvarWidth batch /\
         GetPrimvarIndices edit =
           {| table_data := IntData (FarVertexEditTables.GetVertexIndices batch);
              table_type := GL_R32UI |} /\
         GetEditValues edit =
           {| table_data := FloatData (FarVertexEditTables.GetValues batch);
              table_type := GL_R32F |}) /\
    (forall i, elt (default [] vertexEditTables) i = None -> GetEditTable ctx i = None).
Proof.
  intros Hlt Hinj Hmax. unfold Create.
  destruct (new_context_slots table_index subdivisionTables
              (fmap (M := option)
                 (fmap (M := list) new_OsdGLSLTransformFeedbackHEditTable)
                 vertexEditTables) Hlt Hinj)
    as (ctx & Hnew & Hedit & _).
  assert (Hedit' : _editTables ctx =
            new_OsdGLSLTransformFeedbackHEditTable <$> default [] vertexEditTables).
  { rewrite Hedit. destruct vertexEditTables; reflexivity. }
  exists ctx. split; [exact Hnew|]. unfold GetNumEditTables, GetEditTable.
  rewrite Hedit', length_fmap. split; [|split].
  - apply static_cast_int_id. unfold INT_MIN. lia.
  - intros i batch Hi. rewrite elt_fmap, Hi. eexists. split; [reflexivity|].
    repeat split.
  - intros i Hi. rewrite elt_fmap, Hi. reflexivity.
Qed.

(** X14. [BindEditTextures] at an index below [GetNumEditTables], with a
    kernel bundle set: it is defined; the primvar indices and the edit
    values of that edit table are bound in units 9 and 10 if their samplers
    are found, the other units keep their textures, unit 0 is active if a
    sampler is found and the state of the GL is unchanged if none is. *)
Theorem BindEditTextures_state {F : Type}
    (GetTexture : OsdGLSLTransformFeedbackTable F -> Z)
    (this : ContextObject F (OsdGLSLTransformFeedbackHEditTable F))
    (editIndex : Z) (kernelBundle : OsdGLSLTransformFeedbackKernelBundle)
    (gl : GLState) :
  0 <= editIndex < GetNumEditTables (members this) ->
  Z.of_nat (length (_editTables (members this))) <= INT_MAX ->
  _kernelBundle this = Some kernelBundle ->
  exists edit gl',
    GetEditTable (members this) editIndex = Some edit /\
    BindEditTextures GetTexture this editIndex gl = Some (tt, gl') /\
    (GetEditIndicesUniformLocation kernelBundle <> -1 ->
     texture_binding gl' 9 = GetTexture (GetPrimvarIndices edit)) /\
    (GetEditValuesUniformLocation kernelBundle <> -1 ->
     texture_binding gl' 10 = GetTexture (GetEditValues edit)) /\
    (forall u, u <> 9 -> u <> 10 -> texture_binding gl' u = texture_binding gl u) /\
    (GetEditIndicesUniformLocation kernelBundle <> -1 \/
     GetEditValuesUniformLocation kernelBundle <> -1 -> active_texture gl' = 0) /\
    (GetEditIndicesUniformLocation kernelBundle = -1 ->
     GetEditValuesUniformLocation kernelBundle = -1 -> gl' = gl).
Proof.
  intros Hi Hmax Hkb. unfold GetNumEditTables in Hi.
  rewrite static_cast_int_id in Hi by (unfold INT_MIN; lia).
  destruct (elt_is_Some _ _ Hi) as [edit Hedit].
  unfold BindEditTextures, GetEditTable. rewrite Hedit, Hkb.
  unfold gl_bind at 1 2. cbn [deref].
  destruct (bindTexture_run (GetEditIndicesUniformLocation kernelBundle)
              (GetTexture (GetPrimvarIndices edit)) 9 gl)
    as (gl1 & E1 & Hset1 & Hfr1 & Hact1 & Hid1 & _).
  rewrite (gl_bind_run _ _ _ _ _ E1).
  destruct (bindTexture_run (GetEditValuesUniformLocation kernelBundle)
              (GetTexture (GetEditValues edit)) 10 gl1)
    as (gl2 & E2 & Hset2 & Hfr2 & Hact2 & Hid2 & _).
  exists edit, gl2. split; [reflexivity|]. split; [exact E2|].
  split; [intros Hl; rewrite Hfr2 by lia; auto|].
  split; [exact Hset2|].
  split; [intros u H9 H10; rewrite Hfr2, Hfr1 by assumption; reflexivity|].
  split.
  - intros Hor.
    destruct (Z.eq_dec (GetEditValuesUniformLocation kernelBundle) (-1)) as [E|E];
      [|auto].
    rewrite (Hid2 E). destruct Hor as [Hor|Hor]; [auto|contradiction].
  - intros E E'. rewrite (Hid2 E'), (Hid1 E). reflexivity.
Qed.

(** ** Examples *)

Lemma far_table_index_lt : forall t, (far_table_index t < 7)%nat.
Proof. intros []; simpl; lia. Qed.

Lemma far_table_index_inj :
  forall t t', far_table_index t = far_table_index t' -> t = t'.
Proof. intros [] []; simpl; congruence. Qed.

Lemma bind_state_witness :
  exists this' gl',
    bind far_table_index example_texture (fun names => 40 + Z.of_nat (length names)) false
      example_object gl_initial = Some (this', gl') /\
    rasterizer_discard gl' = true /\
    texture_binding gl' 0 = 40 /\
    texture_binding gl' (texture_unit E_W) = 23.
Proof.
  destruct (bind far_table_index example_texture
              (fun names => 40 + Z.of_nat (length names)) false
              example_object gl_initial) as [[this' gl']|] eqn:E;
    [|vm_compute in E; discriminate E].
  exists this', gl'. split; [reflexivity|].
  destruct (bind_state _ _ _ _ _ _ _ _ E)
    as (kernelBundle & Hkb & Hrd & _ & _ & Hvertex & _ & Htables & _).
  injection Hkb as <-.
  assert (Hthis : _vertexTexture (members this') = 40).
  { vm_compute in E. injection E as <- _. reflexivity. }
  split; [exact Hrd|]. split.
  - rewrite <- Hthis. apply Hvertex; [rewrite Hthis; lia|simpl; lia].
  - apply (Htables E_W {| table_data := FloatData (_E_W quad_tables);
                           table_type := GL_R32F |});
      [vm_compute; reflexivity|simpl; lia|discriminate].
Defined.

Lemma bind_constructed_context_witness :
  exists ctx,
    new_OsdGLSLTransformFeedbackComputeContext far_table_index
      {| five_base := quad_tables |} (@None (list unit)) = Some ctx /\
    exists this' gl',
      bind far_table_index example_texture (fun _ => 40) true
        {| members := ctx; _currentVertexBuffer := 0; _currentVaryingBuffer := 0;
           _kernelBundle := Some example_bundle |} gl_initial = Some (this', gl').
Proof.
  destruct (bind_constructed_context far_table_index example_texture (fun _ => 40) true
              {| five_base := quad_tables |} (@None (list unit))
              far_table_index_lt far_table_index_inj) as (ctx & Hnew & Hbind).
  exists ctx. split; [exact Hnew|].
  apply Hbind; [reflexivity|discriminate].
Defined.

Lemma Create_edit_tables_witness :
  exists ctx,
    Create far_table_index {| catmark_base := quad_tables |} (Some [example_batch]) =
      Some ctx /\
    GetNumEditTables ctx = 1 /\
    exists edit,
      GetEditTable ctx 0 = Some edit /\ GetOperation edit = 1 /\ GetPrimvarWidth edit = 3.
Proof.
  destruct (Create_edit_tables far_table_index {| catmark_base := quad_tables |}
              (Some [example_batch]) far_table_index_lt far_table_index_inj)
    as (ctx & Hnew & Hnum & Hget & _); [vm_compute; discriminate|].
  exists ctx. split; [exact Hnew|]. split; [exact Hnum|].
  destruct (Hget 0 example_batch eq_refl) as (edit & Hedit & Hop & _ & Hwidth & _).
  exists edit. split; [exact Hedit|]. split; [exact Hop|exact Hwidth].
Defined.

Lemma BindEditTextures_state_witness :
  exists edit gl',
    GetEditTable example_context 0 = Some edit /\
    BindEditTextures example_texture example_object 0 gl_initial = Some (tt, gl') /\
    texture_binding gl' 9 = 22 /\ texture_binding gl' 10 = 23 /\ active_texture gl' = 0.
Proof.
  destruct (BindEditTextures_state example_texture example_object 0 example_bundle
              gl_initial) as (edit & gl' & Hedit & Hrun & H9 & H10 & _ & Hact & _).
  - vm_compute. split; [discriminate|reflexivity].
  - vm_compute. discriminate.
  - reflexivity.
  - exists edit, gl'. split; [exact Hedit|]. split; [exact Hrun|].
    assert (Hedit' : edit = new_OsdGLSLTransformFeedbackHEditTable example_batch).
    { vm_compute in Hedit. injection Hedit as <-. reflexivity. }
    subst edit. split; [apply H9; simpl; lia|].
    split; [apply H10; simpl; lia|]. apply Hact. left. simpl. lia.
Defined.
